(** * meeting_app/cli.py: the staged map-reduce summarisation pipeline

    A shallow embedding of the pure and effectful core of
    [src/meeting_app/cli.py]: the language gate, the chunker, the resilient
    completion client, the map and reduce stages and the file-backed stage
    cache of [main], and then the functions around them: the model list and
    the choice of a model at start-up, and the search and the clean-up of
    the output directory.

    Python text is a sequence of Unicode code points, integers are unbounded
    ([Z]), and the effects of the program (HTTP requests, sleeps, reading
    and writing files, reading the console) are threaded through an explicit
    world.  What the program prints ([print], the progress bar of [tqdm]) is
    left out, and the file system and the console are taken never to fail on
    their own: a file that exists can be read and written.  Whether a path
    can be removed is a parameter of the development: the program goes on
    when [unlink] fails. *)

From Stdlib Require Import String Ascii DecimalString.
From Stdlib Require Import List ZArith NArith Bool Lia.
From Stdlib Require QArith.
Import ListNotations.

Local Open Scope Z_scope.

(** ** Python [str] values *)

(** A [str] is a list of code points. *)
Definition str := list N.

Module Utf8.

(** Decoder for the string literals of this file: they are written as in
    the Python source and held by Rocq as UTF-8 bytes. *)
Fixpoint decode (bs : list N) (acc : N) (need : nat) : str :=
  match bs with
  | [] => []
  | b :: bs' =>
      match need with
      | S k =>
          let acc' := (acc * 64 + b mod 64)%N in
          match k with
          | O => acc' :: decode bs' 0%N O
          | S _ => decode bs' acc' k
          end
      | O =>
          if (b <? 128)%N then b :: decode bs' 0%N O
          else if (b <? 224)%N then decode bs' (b mod 32)%N 1%nat
          else if (b <? 240)%N then decode bs' (b mod 16)%N 2%nat
          else decode bs' (b mod 8)%N 3%nat
      end
  end.

Definition bytes (s : string) : list N :=
  map (fun b => N.of_nat (nat_of_ascii b)) (list_ascii_of_string s).

End Utf8.

Definition utf8 (s : string) : str := Utf8.decode (Utf8.bytes s) 0%N O.

Definition str_eqb (a b : str) : bool :=
  if list_eq_dec N.eq_dec a b then true else false.

(** [c in chars] for a character and a set of characters. *)
Definition char_in (c : N) (chars : list N) : bool := existsb (N.eqb c) chars.

(** [w in words] for a string and a collection of strings. *)
Definition str_in (w : str) (words : list str) : bool := existsb (str_eqb w) words.

(** [str(i)] for an integer. *)
Definition str_of_int (i : Z) : str :=
  utf8 (NilZero.string_of_int (Z.to_int i)).

(** The Unicode tables behind [str.lower], the regex class [\w] and
    [str.isspace].  They belong to the Python runtime, so the development is
    generic in them. *)
Class Unicode := {
  str_lower : str -> str;
  is_word : N -> bool;
  is_space : N -> bool
}.

(** ** Slices and ranges *)

(** Normalisation of one slice bound against a sequence of length [len]:
    negative bounds count from the end, and the result is clipped to
    [0 .. len]. *)
Definition clamp_index (len i : Z) : Z :=
  if i <? 0 then Z.max (i + len) 0 else Z.min i len.

(** [l[lo:hi]]. *)
Definition py_slice {A} (l : list A) (lo hi : Z) : list A :=
  let len := Z.of_nat (length l) in
  let a := clamp_index len lo in
  let b := clamp_index len hi in
  firstn (Z.to_nat (b - a)) (skipn (Z.to_nat a) l).

(** Number of elements of [range(lo, hi, step)] for a non-zero step. *)
Definition range_len (lo hi step : Z) : Z :=
  if 0 <? step then (if lo <? hi then (hi - lo - 1) / step + 1 else 0)
  else (if hi <? lo then (lo - hi - 1) / (- step) + 1 else 0).

(** The number of chunks: [ceil(len / size)]. *)
Definition chunk_count (len size : Z) : nat := Z.to_nat (range_len 0 len size).

(** ** The language gate *)

Definition PL_CHARS : list N := utf8 "ąćęłńóśżźĄĆĘŁŃÓŚŻŹ".

(** The alternatives of the two patterns [\b(...)\b], in source order. *)
Definition PL_WORDS : list str :=
  map utf8 ["i"; "że"; "nie"; "się"; "jest"; "dla"; "z"; "na"; "do"; "w";
            "oraz"; "tak"; "tego"; "też"; "czy"; "jak"]%string.

Definition EN_WORDS : list str :=
  map utf8 ["the"; "and"; "to"; "of"; "in"; "is"; "for"; "we"; "you"; "that";
            "it"; "with"; "this"; "are"]%string.

Section Regex.
Context {U : Unicode}.

(** Whether the character next to a position is a word character; the
    start and the end of the text count as non-word. *)
Definition word_side (c : option N) : bool :=
  match c with
  | Some x => is_word x
  | None => false
  end.

(** [\b] between [prev] and [next]. *)
Definition boundary (prev next : option N) : bool :=
  xorb (word_side prev) (word_side next).

Fixpoint starts_with (w s : str) : bool :=
  match w, s with
  | [], _ => true
  | a :: w', b :: s' => N.eqb a b && starts_with w' s'
  | _ :: _, [] => false
  end.

(** One alternative followed by the closing [\b], tried at the current
    position: [prev] is the character before it, [s] the text from it. *)
Definition alt_matches (prev : option N) (s : str) (w : str) : bool :=
  starts_with w s
  && boundary (last (map Some w) prev) (hd_error (skipn (length w) s)).

(** [\b(w1|...|wn)\b] tried at the current position: the opening [\b],
    then the first alternative, in order, that lets the rest match. *)
Definition match_here (alts : list str) (prev : option N) (s : str)
  : option str :=
  if boundary prev (hd_error s) then find (alt_matches prev s) alts
  else None.

(** The left-to-right scan of [re.findall]: [skip] counts the characters
    of the current match that are still to be passed over. *)
Fixpoint scan (alts : list str) (prev : option N) (s : str) (skip : nat)
  : list str :=
  match s with
  | [] => []
  | c :: s' =>
      match skip with
      | S k => scan alts (Some c) s' k
      | O =>
          match match_here alts prev s with
          | Some w => w :: scan alts (Some c) s' (length w - 1)
          | None => scan alts (Some c) s' O
          end
      end
  end.

(** [re.findall(r"\b(w1|...|wn)\b", text)] for non-empty alternatives. *)
Definition findall (alts : list str) (text : str) : list str :=
  scan alts None text O.

(** [sum(1 for c in sample if c in chars)]. *)
Definition count_chars (chars : list N) (sample : str) : Z :=
  Z.of_nat (length (filter (fun c => char_in c chars) sample)).

Definition detect_lang_from_text (sample : str) : str :=
  let pl_char_hits := count_chars PL_CHARS sample in
  let pl_words := Z.of_nat (length (findall PL_WORDS (str_lower sample))) in
  let en_words := Z.of_nat (length (findall EN_WORDS (str_lower sample))) in
  let score_pl := pl_char_hits * 2 + pl_words in
  if Z.max 2 en_words <=? score_pl then utf8 "pl" else utf8 "en".

(** *** Whole words, as the specification counts them *)

(** The words of a text: its maximal runs of word characters, in order.
    [cur] is the run being read. *)
Fixpoint words_from (cur : str) (s : str) : list str :=
  match s with
  | [] => match cur with [] => [] | _ => [cur] end
  | c :: s' =>
      if is_word c then words_from (cur ++ [c]) s'
      else match cur with
           | [] => words_from [] s'
           | _ => cur :: words_from [] s'
           end
  end.

Definition words (s : str) : list str := words_from [] s.

(** Number of whole words of [text] that belong to [stop]. *)
Definition whole_word_matches (stop : list str) (text : str) : Z :=
  Z.of_nat (length (filter (fun w => str_in w stop) (words text))).

Definition primary_score (sample : str) : Z :=
  2 * count_chars PL_CHARS sample
  + whole_word_matches PL_WORDS (str_lower sample).

Definition secondary_score (sample : str) : Z :=
  whole_word_matches EN_WORDS (str_lower sample).

End Regex.

(** *** Samples made of stop words only *)

Section Samples.
Context {U : Unicode}.

(** Every word of the sample is a Polish stop word or a run of Polish
    diacritic letters. *)
Definition only_primary (sample : str) : bool :=
  forallb (fun w => str_in w PL_WORDS
                    || forallb (fun c => char_in c PL_CHARS) w)
          (words (str_lower sample)).

(** Every word of the sample is an English stop word, and no Polish
    diacritic letter occurs in it. *)
Definition only_secondary (sample : str) : bool :=
  forallb (fun w => str_in w EN_WORDS) (words (str_lower sample))
  && (count_chars PL_CHARS sample =? 0).

(** The letters of the stop words are word characters. *)
Definition letters_are_words : bool :=
  forallb (forallb is_word) (PL_WORDS ++ EN_WORDS).

(** The longest prefix of word characters, and what follows it. *)
Fixpoint word_prefix (s : str) : str :=
  match s with
  | [] => []
  | c :: s' => if is_word c then c :: word_prefix s' else []
  end.

Fixpoint after_word (s : str) : str :=
  match s with
  | [] => []
  | c :: s' => if is_word c then after_word s' else s
  end.

(** Alternatives that are non-empty runs of word characters. *)
Definition wellformed (alts : list str) : Prop :=
  Forall (fun w => w <> [] /\ forallb is_word w = true) alts.

Definition count_in (alts : list str) (ws : list str) : nat :=
  length (filter (fun w => str_in w alts) ws).

(** The words still to be met by the scan: when it stands inside a word,
    the rest of that word cannot match any more. *)
Definition words_ahead (prev : option N) (s : str) : list str :=
  if word_side prev then words (after_word s) else words s.

End Samples.

(** *** The tables on Basic Latin, Latin-1 and Latin Extended-A

    An instance that is exact on the code points U+0000 to U+017F, which
    hold English and Polish text; it is used to evaluate the definitions on
    such text.  Code points above U+017F are left unchanged and taken as
    neither word nor space characters. *)
Module Latin.
Local Open Scope N_scope.

Definition between (lo hi c : N) : bool := (lo <=? c) && (c <=? hi).

Definition lower_char (c : N) : str :=
  if between 65 90 c then [c + 32]
  else if between 192 222 c && negb (c =? 215) then [c + 32]
  else if c =? 304 then [105; 775]
  else if c =? 376 then [255]
  else if (between 256 303 c || between 306 311 c || between 330 375 c)
          && N.even c then [c + 1]
  else if (between 313 328 c || between 377 382 c) && N.odd c then [c + 1]
  else [c].

Definition lower (s : str) : str := flat_map lower_char s.

Definition word_char (c : N) : bool :=
  between 48 57 c || between 65 90 c || (c =? 95) || between 97 122 c
  || (c =? 170) || (c =? 178) || (c =? 179) || (c =? 181) || (c =? 185)
  || (c =? 186) || between 188 190 c
  || (between 192 383 c && negb (c =? 215) && negb (c =? 247)).

Definition space_char (c : N) : bool :=
  between 9 13 c || between 28 32 c || (c =? 133) || (c =? 160).

Definition tables : Unicode :=
  {| str_lower := lower; is_word := word_char; is_space := space_char |}.

End Latin.

(** ** Exceptions and results *)

(** A subscript: [v["name"]] or [v[0]]. *)
Inductive Key :=
| KStr (s : str)
| KInt (i : Z).

(** The exceptions that occur, all of them subclasses of [Exception].
    [HTTPError] carries [e.code] and the body [e.read().decode("utf-8",
    errors="ignore")]; [OtherException] is any further exception, given by
    its text. *)
Inductive Exn :=
| HTTPError (code : Z) (body : str)
| KeyError (k : Key)
| IndexError
| TypeError
| ValueError
| OverflowError
| EOFError
| FileNotFoundError
| UnicodeEncodeError
| RuntimeError (msg : str)
| OtherException (text : str).

Inductive Result (A : Type) :=
| Ok (a : A)
| Raise (e : Exn).

Arguments Ok {A} a.
Arguments Raise {A} e.

Definition rbind {A B} (r : Result A) (f : A -> Result B) : Result B :=
  match r with
  | Ok a => f a
  | Raise e => Raise e
  end.

(** The part of the Python runtime that the completion client relies on:
    floating-point numbers with [base ** n] for an integer [n] (which raises
    [OverflowError] when the result is out of range), the delays that
    [time.sleep] accepts (it raises [ValueError] on a negative or NaN
    delay), and [str(e)] for an exception. *)
Class Runtime := {
  float : Type;
  float_pow : float -> Z -> Result float;
  sleep_accepts : float -> bool;
  exc_str : Exn -> str
}.

(** Elements of [range(lo, lo + n * step, step)]. *)
Definition range_items (lo step : Z) (n : nat) : list Z :=
  map (fun k => lo + Z.of_nat k * step) (seq 0 n).

(** [range(lo, hi, step)]. *)
Definition py_range3 (lo hi step : Z) : Result (list Z) :=
  if step =? 0 then Raise ValueError
  else Ok (range_items lo step (Z.to_nat (range_len lo hi step))).

(** [range(lo, hi)]. *)
Definition py_range (lo hi : Z) : list Z :=
  range_items lo 1 (Z.to_nat (range_len lo hi 1)).

(** The consecutive pieces [l[i : i + size]] for [i] in
    [range(0, len(l), size)], for a non-zero size. *)
Definition windows {A} (l : list A) (size : Z) : list (list A) :=
  map (fun i => py_slice l i (i + size))
      (range_items 0 size (Z.to_nat (range_len 0 (Z.of_nat (length l)) size))).

(** ** The chunker *)

Definition chunk_text (text : str) (size : Z) : Result (list str) :=
  rbind (py_range3 0 (Z.of_nat (length text)) size)
        (fun starts => Ok (map (fun i => py_slice text i (i + size)) starts)).

(** ** Prompt templates *)

(** A template with one replacement field: [before ++ "{field}" ++ after]. *)
Record Template := { before : str; after : str }.

(** [tpl.format(field=x)] for a string [x]. *)
Definition format (tpl : Template) (x : str) : str :=
  before tpl ++ x ++ after tpl.

(** The text made of the given lines, each ended by a newline. *)
Definition text_lines (ls : list string) : str :=
  flat_map (fun l => utf8 l ++ [10%N]) ls.

Definition newline : str := [10%N].

Module Prompts.
Local Open Scope string_scope.

Definition part_system_pl : str :=
  utf8 "Jesteś precyzyjnym analitykiem spotkań. Odpowiadasz po polsku.".

Definition part_user_pl : Template :=
  {| before := text_lines
       ["Podsumuj poniższy fragment transkrypcji spotkania.";
        "";
        "Zwróć:";
        "- Najważniejsze punkty";
        "- Decyzje";
        "- Zadania do wykonania";
        "- Ryzyka";
        "";
        "Transkrypcja:"];
     after := newline |}.

Definition part_system_en : str := utf8 "You are precise and structured.".

Definition part_user_en : Template :=
  {| before := text_lines
       ["Summarize this meeting section.";
        "";
        "Return:";
        "- Key points";
        "- Decisions";
        "- Action items";
        "- Risks";
        "";
        "Transcript:"];
     after := newline |}.

Definition reduce_system_pl : str :=
  utf8 "Jesteś precyzyjnym analitykiem spotkań. Odpowiadasz po polsku.".

Definition reduce_user_pl : Template :=
  {| before := text_lines
       ["Połącz poniższe częściowe podsumowania w JEDNO krótkie podsumowanie.";
        "";
        "Zwróć:";
        "- Najważniejsze punkty";
        "- Decyzje";
        "- Zadania do wykonania";
        "- Ryzyka";
        "";
        "Podsumowania:"];
     after := newline |}.

Definition final_system_pl : str :=
  utf8 "Jesteś asystentem zarządu. Odpowiadasz po polsku, rzeczowo i klarownie.".

Definition final_user_pl : Template :=
  {| before := text_lines
       ["Na podstawie poniższych podsumowań przygotuj JEDNO finalne podsumowanie spotkania.";
        "";
        "Struktura:";
        "1) Podsumowanie wykonawcze (5–8 zdań)";
        "2) Decyzje kluczowe";
        "3) Zadania do wykonania";
        "4) Ryzyka";
        "";
        "Podsumowania:"];
     after := newline |}.

Definition reduce_system_en : str := utf8 "You are a precise meeting analyst.".

Definition reduce_user_en : Template :=
  {| before := text_lines
       ["Combine the following partial summaries into ONE compact summary.";
        "";
        "Return:";
        "- Key points";
        "- Decisions";
        "- Action items";
        "- Risks";
        "";
        "Summaries:"];
     after := newline |}.

Definition final_system_en : str :=
  utf8 "You are a precise executive assistant.".

Definition final_user_en : Template :=
  {| before := text_lines
       ["Based on the summaries below, create ONE final executive summary.";
        "";
        "Structure:";
        "1) Executive Summary (5–8 sentences)";
        "2) Key decisions";
        "3) Action items";
        "4) Risks";
        "";
        "Summaries:"];
     after := newline |}.

End Prompts.

(** ** The world and the completion client *)

Section Pipeline.
Context {U : Unicode} {R : Runtime}.

Local Set Warnings "-register-all".

(** Python values as [json.loads] builds them; a dictionary is given by
    its items, each key once. *)
Inductive PyVal :=
| PNone
| PBool (b : bool)
| PInt (i : Z)
| PFloat (f : float)
| PStr (s : str)
| PList (items : list PyVal)
| PDict (items : list (str * PyVal)).

Record Message := { role : str; content : str }.

(** The request body of [call_llm]. *)
Record Payload := {
  model : str;
  messages : list Message;
  temperature : float;
  max_tokens : Z
}.

(** What the program does to its environment, in order.  [Call] marks an
    invocation of [call_llm]; it is a record kept for counting and has no
    counterpart in the source. *)
Inductive Event :=
| Call (p : Payload)
| Request (p : Payload)
| Sleep (d : float).

Definition Path := str.

(** Files hold their decoded text; [stdin] holds the lines that the user
    will type. *)
Record World := {
  trace : list Event;
  files : Path -> option str;
  stdin : list str
}.

(** The tunables read from the environment at start-up. *)
Record Config := {
  DEFAULT_CHUNK_SIZE : Z;
  PART_MAX : Z;
  FINAL_MAX : Z;
  TRANSLATE_MAX : Z;
  TEMP_SUMMARY : float;
  TEMP_TRANSLATE : float;
  RETRIES : Z;
  BACKOFF_BASE : float
}.

(** The outcome of [_post_chat(payload)] when [k] requests were sent
    before it: the parsed JSON of the response, or the exception raised by
    [urlopen], [decode] or [json.loads]. *)
Variable endpoint : nat -> Payload -> Result PyVal.

(** *** A state and exception monad *)

Definition M (A : Type) : Type := World -> Result A * World.

Definition ret {A} (a : A) : M A := fun w => (Ok a, w).

Definition raise {A} (e : Exn) : M A := fun w => (Raise e, w).

Definition bind {A B} (m : M A) (f : A -> M B) : M B :=
  fun w =>
    match m w with
    | (Ok a, w') => f a w'
    | (Raise e, w') => (Raise e, w')
    end.

Definition lift {A} (r : Result A) : M A := fun w => (r, w).

(** [try: m] with the outcome handed to the handlers. *)
Definition try {A} (m : M A) : M (Result A) :=
  fun w => let (r, w') := m w in (Ok r, w').

Notation "x <- m ;; k" := (bind m (fun x => k))
  (at level 61, m at next level, right associativity).
Notation "m ;;; k" := (bind m (fun _ => k))
  (at level 61, right associativity).

Definition emit (e : Event) : M unit :=
  fun w => (Ok tt, {| trace := trace w ++ [e];
                      files := files w;
                      stdin := stdin w |}).

(** [for x in xs: results.append(body(x))]. *)
Fixpoint for_each {A B} (xs : list A) (body : A -> M B) : M (list B) :=
  match xs with
  | [] => ret []
  | x :: xs' =>
      y <- body x ;;
      ys <- for_each xs' body ;;
      ret (y :: ys)
  end.

(** *** Subscripts *)

Fixpoint dict_get (items : list (str * PyVal)) (k : str) : option PyVal :=
  match items with
  | [] => None
  | (k', v) :: rest => if str_eqb k' k then Some v else dict_get rest k
  end.

(** [seq[i]] on a list or a string: a negative index counts from the end,
    and an index out of range raises [IndexError]. *)
Definition seq_index {A} (l : list A) (i : Z) : Result A :=
  let len := Z.of_nat (length l) in
  let j := if i <? 0 then i + len else i in
  if (j <? 0) || (len <=? j) then Raise IndexError
  else match nth_error l (Z.to_nat j) with
       | Some x => Ok x
       | None => Raise IndexError
       end.

(** [v[k]]. *)
Definition py_getitem (v : PyVal) (k : Key) : Result PyVal :=
  match v, k with
  | PDict items, KStr s =>
      match dict_get items s with
      | Some x => Ok x
      | None => Raise (KeyError k)
      end
  | PDict _, KInt _ => Raise (KeyError k)
  | PList items, KInt i => seq_index items i
  | PStr s, KInt i => rbind (seq_index s i) (fun c => Ok (PStr [c]))
  | _, _ => Raise TypeError
  end.

(** [out["choices"][0]["message"]["content"]]. *)
Definition response_content (out : PyVal) : Result PyVal :=
  rbind (py_getitem out (KStr (utf8 "choices"))) (fun choices =>
  rbind (py_getitem choices (KInt 0)) (fun choice =>
  rbind (py_getitem choice (KStr (utf8 "message"))) (fun message =>
  py_getitem message (KStr (utf8 "content"))))).

(** *** The client *)

Definition is_request (e : Event) : bool :=
  match e with
  | Request _ => true
  | _ => false
  end.

Definition requests_sent (w : World) : nat :=
  length (filter is_request (trace w)).

Definition _post_chat (payload : Payload) : M PyVal :=
  fun w =>
    (endpoint (requests_sent w) payload,
     {| trace := trace w ++ [Request payload];
        files := files w;
        stdin := stdin w |}).

(** [time.sleep(d)]. *)
Definition time_sleep (d : float) : M unit :=
  if sleep_accepts d then emit (Sleep d) else raise ValueError.

(** [code in (429, 500, 503, 504)]. *)
Definition is_transient (code : Z) : bool :=
  existsb (Z.eqb code) [429; 500; 503; 504].

Definition http_error_message (code : Z) (body : str) : str :=
  utf8 "LM Studio HTTP " ++ str_of_int code ++ utf8 ": " ++ body.

Definition other_error_message (e : Exn) : str :=
  utf8 "LM Studio error: " ++ exc_str e.

(** The body of the loop [for attempt in range(1, RETRIES + 1)], over the
    attempts still to be made. *)
Fixpoint call_llm_attempts (cfg : Config) (payload : Payload)
         (attempts : list Z) : M PyVal :=
  match attempts with
  | [] => ret PNone
  | attempt :: rest =>
      r <- try (out <- _post_chat payload ;; lift (response_content out)) ;;
      match r with
      | Ok text => ret text
      | Raise (HTTPError code body) =>
          if is_transient code && (attempt <? RETRIES cfg) then
            sleep_s <- lift (float_pow (BACKOFF_BASE cfg) attempt) ;;
            time_sleep sleep_s ;;;
            call_llm_attempts cfg payload rest
          else raise (RuntimeError (http_error_message code body))
      | Raise e =>
          if attempt <? RETRIES cfg then
            sleep_s <- lift (float_pow (BACKOFF_BASE cfg) attempt) ;;
            time_sleep sleep_s ;;;
            call_llm_attempts cfg payload rest
          else raise (RuntimeError (other_error_message e))
      end
  end.

Definition call_llm (cfg : Config) (model_id : str)
           (messages : list Message) (max_tokens : Z) (temperature : float)
  : M PyVal :=
  let payload := {| model := model_id;
                    messages := messages;
                    temperature := temperature;
                    max_tokens := max_tokens |} in
  emit (Call payload) ;;;
  call_llm_attempts cfg payload (py_range 1 (RETRIES cfg + 1)).

(** ** Map and reduce *)

Definition system_message (text : str) : Message :=
  {| role := utf8 "system"; content := text |}.

Definition user_message (text : str) : Message :=
  {| role := utf8 "user"; content := text |}.

Definition is_pl (lang : str) : bool := str_eqb lang (utf8 "pl").

Definition summarize_parts (cfg : Config) (model_id : str) (text : str)
           (chunk_size : Z) (lang : str) : M (list PyVal) :=
  parts <- lift (chunk_text text chunk_size) ;;
  let system_msg :=
    if is_pl lang then Prompts.part_system_pl else Prompts.part_system_en in
  let user_tpl :=
    if is_pl lang then Prompts.part_user_pl else Prompts.part_user_en in
  for_each parts (fun part =>
    let prompt := format user_tpl part in
    call_llm cfg model_id
             [system_message system_msg; user_message prompt]
             (PART_MAX cfg) (TEMP_SUMMARY cfg)).

(** [sep.join(items)]: every item must be a [str]. *)
Fixpoint py_join (sep : str) (items : list PyVal) : Result str :=
  match items with
  | [] => Ok []
  | PStr s :: rest =>
      match rest with
      | [] => Ok s
      | _ :: _ => rbind (py_join sep rest) (fun t => Ok (s ++ sep ++ t))
      end
  | _ :: _ => Raise TypeError
  end.

(** The branch on [n] at the head of [summarize_final_two_step]. *)
Definition group_size (n : Z) : Z :=
  if n <=? 6 then 3 else if n <=? 12 then 4 else 3.

Definition reduce_messages (lang : str) (items : str) : list Message :=
  if is_pl lang then
    [system_message Prompts.reduce_system_pl;
     user_message (format Prompts.reduce_user_pl items)]
  else
    [system_message Prompts.reduce_system_en;
     user_message (format Prompts.reduce_user_en items)].

Definition final_messages (lang : str) (items : str) : list Message :=
  if is_pl lang then
    [system_message Prompts.final_system_pl;
     user_message (format Prompts.final_user_pl items)]
  else
    [system_message Prompts.final_system_en;
     user_message (format Prompts.final_user_en items)].

Definition summarize_final_two_step (cfg : Config) (model_id : str)
           (partial_summaries : list PyVal) (lang : str) : M PyVal :=
  let n := Z.of_nat (length partial_summaries) in
  let group_size := group_size n in
  starts <- lift (py_range3 0 n group_size) ;;
  reduced <- for_each starts (fun i =>
    let group := py_slice partial_summaries i (i + group_size) in
    items <- lift (py_join newline group) ;;
    call_llm cfg model_id (reduce_messages lang items)
             (PART_MAX cfg) (TEMP_SUMMARY cfg)) ;;
  items <- lift (py_join newline reduced) ;;
  call_llm cfg model_id (final_messages lang items)
           (FINAL_MAX cfg) (TEMP_SUMMARY cfg).

(** ** Artifacts and the stage cache *)

Definition set_file (fs : Path -> option str) (p : Path)
           (text : option str) : Path -> option str :=
  fun q => if str_eqb q p then text else fs q.

(** [path.exists()]. *)
Definition path_exists (p : Path) : M bool :=
  fun w => (Ok (match files w p with Some _ => true | None => false end), w).

(** Reading in text mode turns ["\r\n"] and ["\r"] into ["\n"]. *)
Fixpoint universal_newlines (s : str) : str :=
  match s with
  | [] => []
  | c :: s' =>
      if (c =? 13)%N then
        10%N :: match s' with
                | [] => []
                | d :: s'' =>
                    if (d =? 10)%N then universal_newlines s''
                    else universal_newlines s'
                end
      else c :: universal_newlines s'
  end.

Definition read_text_utf8 (path : Path) : M str :=
  fun w =>
    match files w path with
    | Some text => (Ok (universal_newlines text), w)
    | None => (Raise FileNotFoundError, w)
    end.

(** A lone surrogate has no UTF-8 encoding. *)
Definition is_surrogate (c : N) : bool :=
  ((55296 <=? c) && (c <=? 57343))%N.

(** [path.write_text(text, encoding="utf-8")]: the argument must be a
    [str]; the file is opened, which empties it, before the text is
    encoded. *)
Definition write_text_utf8 (path : Path) (text : PyVal) : M unit :=
  match text with
  | PStr s =>
      fun w =>
        if existsb is_surrogate s then
          (Raise UnicodeEncodeError,
           {| trace := trace w;
              files := set_file (files w) path (Some []);
              stdin := stdin w |})
        else
          (Ok tt,
           {| trace := trace w;
              files := set_file (files w) path (Some s);
              stdin := stdin w |})
  | _ => raise TypeError
  end.

(** Whether the file system lets [path.unlink()] remove the path; it does
    not, for one, when the path is a directory or the permission is
    missing. *)
Variable removable : Path -> bool.

(** [try: path.unlink() except Exception: pass]: a path that can be removed
    is not there afterwards; the failure to remove any other is swallowed,
    and the path stays as it was. *)
Definition unlink_quietly (path : Path) : M unit :=
  fun w =>
    (Ok tt,
     if removable path
     then {| trace := trace w;
             files := set_file (files w) path None;
             stdin := stdin w |}
     else w).

(** [input(prompt)]: the next line typed, or [EOFError]. *)
Definition input : M str :=
  fun w =>
    match stdin w with
    | [] => (Raise EOFError, w)
    | line :: rest =>
        (Ok line, {| trace := trace w; files := files w; stdin := rest |})
    end.

Fixpoint lstrip (s : str) : str :=
  match s with
  | [] => []
  | c :: s' => if is_space c then lstrip s' else s
  end.

(** [s.strip()]. *)
Definition str_strip (s : str) : str := rev (lstrip (rev (lstrip s))).

(** [answer.strip().lower() != "n"]. *)
Definition accepts (answer : str) : bool :=
  negb (str_eqb (str_lower (str_strip answer)) (utf8 "n")).

(** The external collaborators of [main], as black boxes. *)
Variable whisper_transcribe : Path -> Path -> option str -> M unit.
Variable find_biggest_txt : Path -> M Path.

(** Step [3/4] of [main]. *)
Definition transcript_stage (wav_path out_dir transcript_file : Path)
           (lang : str) : M str :=
  let create :=
    whisper_transcribe wav_path out_dir (Some lang) ;;;
    transcript_txt <- find_biggest_txt out_dir ;;
    transcript <- read_text_utf8 transcript_txt ;;
    write_text_utf8 transcript_file (PStr transcript) ;;;
    ret transcript in
  present <- path_exists transcript_file ;;
  if present then
    answer <- input ;;
    let use_cache := accepts answer in
    if use_cache then read_text_utf8 transcript_file
    else unlink_quietly transcript_file ;;; create
  else create.

(** Step [4/4] of [main]. *)
Definition summary_stage (cfg : Config) (summary_model : str)
           (transcript : str) (lang : str) (summary_file : Path)
  : M PyVal :=
  let create :=
    partial <- summarize_parts cfg summary_model transcript
                               (DEFAULT_CHUNK_SIZE cfg) lang ;;
    final_summary <- summarize_final_two_step cfg summary_model partial lang ;;
    write_text_utf8 summary_file final_summary ;;;
    ret final_summary in
  present <- path_exists summary_file ;;
  if present then
    answer <- input ;;
    let use_sum_cache := accepts answer in
    if use_sum_cache then
      final_summary <- read_text_utf8 summary_file ;;
      ret (PStr final_summary)
    else unlink_quietly summary_file ;;; create
  else create.

(** The text to translate is a [str]: [main] has read it from the summary
    file or has just written it there. *)
Definition translate_to_pl (cfg : Config) (model_id : str) (text : str)
  : M PyVal :=
  let prompt :=
    text_lines ["Przetłumacz poniższy tekst na język polski.";
                "Zachowaj strukturę i nie dodawaj nowych informacji.";
                ""]%string
    ++ text ++ newline in
  call_llm cfg model_id
           [system_message (utf8 "Tłumacz profesjonalnie na język polski.");
            user_message prompt]
           (TRANSLATE_MAX cfg) (TEMP_TRANSLATE cfg).

(** The translation step that closes [main]. *)
Definition translation_stage (cfg : Config) (translate_model : str)
           (final_summary : str) (lang : str) (summary_pl_file : Path)
  : M unit :=
  if str_eqb lang (utf8 "en") then
    present <- path_exists summary_pl_file ;;
    (if present then
       answer <- input ;;
       let use_tr_cache := accepts answer in
       if negb use_tr_cache then unlink_quietly summary_pl_file
       else ret tt
     else ret tt) ;;;
    still_present <- path_exists summary_pl_file ;;
    if negb still_present then
      answer <- input ;;
      if accepts answer then
        final_pl <- translate_to_pl cfg translate_model final_summary ;;
        write_text_utf8 summary_pl_file final_pl
      else ret tt
    else ret tt
  else ret tt.

End Pipeline.

(** ** Observations on runs *)

Section Observations.
Context {R : Runtime}.

(** The world after further events. *)
Definition add_events (w : World) (evs : list Event) : World :=
  {| trace := trace w ++ evs; files := files w; stdin := stdin w |}.

(** The invocations of [call_llm] in a trace, in order. *)
Definition calls_of (evs : list Event) : list Payload :=
  flat_map (fun e => match e with Call p => [p] | _ => [] end) evs.

(** The requests sent, in order. *)
Definition requests_of (evs : list Event) : list Payload :=
  flat_map (fun e => match e with Request p => [p] | _ => [] end) evs.

(** The delays slept, in order. *)
Definition sleeps_of (evs : list Event) : list float :=
  flat_map (fun e => match e with Sleep d => [d] | _ => [] end) evs.


(** Whether the handlers of [call_llm] go on to the next attempt. *)
Definition retried (cfg : Config) (attempt : Z) (e : Exn) : bool :=
  match e with
  | HTTPError code _ => is_transient code && (attempt <? RETRIES cfg)
  | _ => attempt <? RETRIES cfg
  end.

(** The error that the handlers raise otherwise. *)
Definition final_error (e : Exn) : Exn :=
  match e with
  | HTTPError code body => RuntimeError (http_error_message code body)
  | _ => RuntimeError (other_error_message e)
  end.

(** The events of a call that sleeps [delays] between its requests. *)
Definition retry_trace (p : Payload) (delays : list float) : list Event :=
  flat_map (fun d => [Request p; Sleep d]) delays ++ [Request p].

(** The delays [delay a] are what [BACKOFF_BASE ** a] gives for the
    attempts [lo <= a < hi], and [time.sleep] accepts them. *)
Definition delays_accepted (cfg : Config) (delay : Z -> float)
           (lo hi : Z) : Prop :=
  forall a, lo <= a < hi ->
    float_pow (BACKOFF_BASE cfg) a = Ok (delay a)
    /\ sleep_accepts (delay a) = true.

(** A request and a sleep for each of the given attempts. *)
Definition backoff (payload : Payload) (delay : Z -> float)
           (attempts : list Z) : list Event :=
  flat_map (fun d => [Request payload; Sleep d]) (map delay attempts).

(** The texts that answer the payloads [ps], sent one after the other from
    request number [k] on. *)
Fixpoint replies_from (reply : nat -> Payload -> str) (k : nat)
         (ps : list Payload) : list str :=
  match ps with
  | [] => []
  | p :: ps' => reply k p :: replies_from reply (S k) ps'
  end.

(** The events of calls that each succeed at the first request. *)
Definition calls_trace (ps : list Payload) : list Event :=
  flat_map (fun p => [Call p; Request p]) ps.

(** [sep.join(items)] on strings. *)
Fixpoint str_join (sep : str) (items : list str) : str :=
  match items with
  | [] => []
  | s :: rest =>
      match rest with
      | [] => s
      | _ :: _ => s ++ sep ++ str_join sep rest
      end
  end.

(** The consecutive groups that the reduce loop slices off the partial
    summaries. *)
Definition reduce_groups {A} (partials : list A) : list (list A) :=
  windows partials (group_size (Z.of_nat (length partials))).

Definition part_messages (lang : str) (part : str) : list Message :=
  [system_message
     (if is_pl lang then Prompts.part_system_pl else Prompts.part_system_en);
   user_message
     (format (if is_pl lang then Prompts.part_user_pl
              else Prompts.part_user_en) part)].

Definition part_payload (cfg : Config) (model_id lang part : str) : Payload :=
  {| model := model_id;
     messages := part_messages lang part;
     temperature := TEMP_SUMMARY cfg;
     max_tokens := PART_MAX cfg |}.

Definition reduce_payload (cfg : Config) (model_id lang : str)
           (group : list str) : Payload :=
  {| model := model_id;
     messages := reduce_messages lang (str_join newline group);
     temperature := TEMP_SUMMARY cfg;
     max_tokens := PART_MAX cfg |}.

Definition final_payload (cfg : Config) (model_id lang : str)
           (reduced : list str) : Payload :=
  {| model := model_id;
     messages := final_messages lang (str_join newline reduced);
     temperature := TEMP_SUMMARY cfg;
     max_tokens := FINAL_MAX cfg |}.

Variable endpoint : nat -> Payload -> Result PyVal.

(** The outcome of the [try] block of [call_llm] when [k] requests were
    sent before it. *)
Definition attempt_outcome (payload : Payload) (k : nat) : Result PyVal :=
  rbind (endpoint k payload) response_content.

(** The endpoint answers every request with a response of the expected
    shape whose content is the text [reply k payload]. *)
Definition always_replies (reply : nat -> Payload -> str) : Prop :=
  forall k payload, attempt_outcome payload k = Ok (PStr (reply k payload)).

(** The map stage followed by the reduce stage, as [main] runs them. *)
Definition summarize (cfg : Config) (summary_model transcript lang : str)
  : M PyVal :=
  bind (summarize_parts endpoint cfg summary_model transcript
                        (DEFAULT_CHUNK_SIZE cfg) lang)
       (fun partial =>
          summarize_final_two_step endpoint cfg summary_model partial lang).

End Observations.

(** *** A runtime for evaluation

    Rationals stand for floats: the powers of the default base 1.5 that the
    client computes are exact in both.  [str(e)] is given for the exceptions
    whose text does not depend on the Python version; the others get the
    empty text, on which no evaluation below relies. *)
Module Exact.
Import QArith.

Definition pow (b : Q) (n : Z) : Result Q := Ok (Qred (Qpower b n)).

Definition text_of (e : Exn) : str :=
  match e with
  | KeyError (KStr k) => utf8 "'" ++ k ++ utf8 "'"
  | KeyError (KInt i) => str_of_int i
  | IndexError => utf8 "list index out of range"
  | RuntimeError msg => msg
  | OtherException text => text
  | _ => []
  end.

Definition runtime : Runtime :=
  {| float := Q;
     float_pow := pow;
     sleep_accepts := Qle_bool 0;
     exc_str := text_of |}.

(** The defaults of the configuration block. *)
Definition default_config : @Config runtime :=
  @Build_Config runtime
    4000        (* DEFAULT_CHUNK_SIZE *)
    500         (* PART_MAX *)
    900         (* FINAL_MAX *)
    900         (* TRANSLATE_MAX *)
    (2 # 10)    (* TEMP_SUMMARY *)
    (1 # 10)    (* TEMP_TRANSLATE *)
    4           (* RETRIES *)
    (15 # 10)   (* BACKOFF_BASE *).

(** An empty world: nothing done, no file, nothing typed. *)
Definition empty_world : @World runtime :=
  {| trace := []; files := fun _ => None; stdin := [] |}.

(** The delay [1.5 ** a]. *)
Definition delay (a : Z) : @float runtime := Qred (Qpower (15 # 10) a).

(** A response of the expected shape with the given content. *)
Definition response (text : str) : @PyVal runtime :=
  PDict [(utf8 "choices",
          PList [PDict [(utf8 "message",
                         PDict [(utf8 "content", PStr text)])]])].

(** An endpoint that is always busy. *)
Definition busy (k : nat) (p : @Payload runtime) : Result (@PyVal runtime) :=
  Raise (HTTPError 503 (utf8 "busy")).

(** An endpoint that is busy once and then knows no such model. *)
Definition busy_then_missing (k : nat) (p : @Payload runtime)
  : Result (@PyVal runtime) :=
          match k with
  | O => Raise (HTTPError 503 (utf8 "busy"))
  | S _ => Raise (HTTPError 404 (utf8 "no such model"))
  end.


(** An endpoint that answers request [k] with the text ["summary k"]. *)
Definition numbered (k : nat) (p : @Payload runtime) : str :=
  utf8 "summary " ++ str_of_int (Z.of_nat k).

Definition summarizer (k : nat) (p : @Payload runtime)
  : Result (@PyVal runtime) :=
  Ok (response (numbered k p)).

End Exact.

(** ** Further observations *)

Section MoreObservations.
Context {R : Runtime}.

(** A value that [sep.join] accepts as an item. *)
Definition is_text_value (v : PyVal) : Prop := exists s, v = PStr s.

(** The request body of [translate_to_pl]. *)
Definition translate_payload (cfg : Config) (model_id text : str) : Payload :=
  {| model := model_id;
     messages :=
       [system_message (utf8 "Tłumacz profesjonalnie na język polski.");
        user_message
          (text_lines ["Przetłumacz poniższy tekst na język polski.";
                       "Zachowaj strukturę i nie dodawaj nowych informacji.";
                       ""]%string
           ++ text ++ newline)];
     temperature := TEMP_TRANSLATE cfg;
     max_tokens := TRANSLATE_MAX cfg |}.

(** The files after [unlink] has been tried on each of the paths. *)
Definition unlinked (removable : Path -> bool) (ps : list Path)
           (fs : Path -> option str) : Path -> option str :=
  fold_left (fun fs p => if removable p then set_file fs p None else fs)
            ps fs.

End MoreObservations.

(** The text holds a carriage return. *)
Definition has_cr (s : str) : bool := existsb (fun c => (c =? 13)%N) s.

(** ** Start-up: the model list and the choice of a model *)

(** What a function that may call [die] comes to: it returns, or the
    message is printed and the interpreter exits with the code. *)
Inductive Outcome (A : Type) :=
| Returns (a : A)
| Exits (msg : str) (code : Z).

Arguments Returns {A} a.
Arguments Exits {A} msg code.

(** [die(msg)], with the default [code=1]. *)
Definition die {A} (msg : str) : Outcome A := Exits msg 1.

(** [[f(x) for x in xs]]: the first exception ends the comprehension. *)
Fixpoint comprehension {A B} (f : A -> Result B) (xs : list A)
  : Result (list B) :=
  match xs with
  | [] => Ok []
  | x :: xs' =>
      rbind (f x) (fun y =>
      rbind (comprehension f xs') (fun ys => Ok (y :: ys)))
  end.

Section Startup.
Context {U : Unicode} {R : Runtime}.

(** [type(v).__name__]. *)
Definition type_name (v : PyVal) : str :=
  match v with
  | PNone => utf8 "NoneType"
  | PBool _ => utf8 "bool"
  | PInt _ => utf8 "int"
  | PFloat _ => utf8 "float"
  | PStr _ => utf8 "str"
  | PList _ => utf8 "list"
  | PDict _ => utf8 "dict"
  end.

(** [data.get(key, default)]: only a dictionary has the method; the
    others raise [AttributeError]. *)
Definition py_get (data : PyVal) (key : str) (default : PyVal)
  : Result PyVal :=
  match data with
  | PDict items =>
      Ok (match dict_get items key with
          | Some v => v
          | None => default
          end)
  | _ => Raise (OtherException
                  (utf8 "'" ++ type_name data
                   ++ utf8 "' object has no attribute 'get'"))
  end.

(** [for m in v]: a list gives its items, a string its characters, a
    dictionary its keys; the other values are not iterable. *)
Definition py_iter (v : PyVal) : Result (list PyVal) :=
  match v with
  | PList items => Ok items
  | PStr s => Ok (map (fun c => PStr [c]) s)
  | PDict items => Ok (map (fun item => PStr (fst item)) items)
  | _ => Raise TypeError
  end.

(** [[m["id"] for m in data.get("data", [])]]. *)
Definition model_ids (data : PyVal) : Result (list PyVal) :=
  rbind (py_get data (utf8 "data") (PList [])) (fun listed =>
  rbind (py_iter listed) (fun ms =>
  comprehension (fun m => py_getitem m (KStr (utf8 "id"))) ms)).

(** [get_models()], given what the request to [/v1/models] comes to: the
    parsed JSON, or the exception of [urlopen], [decode] or
    [json.loads]. *)
Definition get_models (response : Result PyVal) : Outcome (list PyVal) :=
  match rbind response model_ids with
  | Ok ids => Returns ids
  | Raise e =>
      die (utf8 "Nie mogę połączyć się z LM Studio Local Server. Szczegóły: "
           ++ exc_str e)
  end.

(** [bool(default)] for [None] or a string. *)
Definition truthy (default : option str) : bool :=
  match default with
  | Some (_ :: _) => true
  | _ => false
  end.

Definition default_value (default : option str) : PyVal :=
  match default with
  | Some s => PStr s
  | None => PNone
  end.

(** [int(raw)]: the integer, or [ValueError]. *)
Variable py_int : str -> Result Z.

(** [choose_from_list(title, options, default)]; the title and the
    options are only printed before the prompt. *)
Definition choose_from_list (title : str) (options : list PyVal)
           (default : option str) : M PyVal :=
  bind input (fun line =>
  let raw := str_strip line in
  if str_eqb raw [] && truthy default then ret (default_value default)
  else
    match rbind (py_int raw) (fun idx => seq_index options (idx - 1)) with
    | Ok opt => ret opt
    | Raise _ =>
        if truthy default then ret (default_value default)
        else lift (seq_index options 0)
    end).

End Startup.

(** ** The output directory *)

Module Directory.
Section Directory.
Context {R : Runtime}.

(** [out_dir.glob(pattern)] and [p.stat().st_size], as the file system
    answers them, and the paths that it lets [unlink] remove. *)
Variable glob : Path -> str -> M (list Path).
Variable stat_size : Path -> M Z.
Variable removable : Path -> bool.

Definition find_txts (out_dir : Path) : M (list Path) :=
  glob out_dir (utf8 "*.txt").

(** [max(items, key=...)] over items paired with their keys: a later item
    replaces the best one only if its key is greater. *)
Fixpoint py_max {A} (best : A * Z) (rest : list (A * Z)) : A :=
  match rest with
  | [] => fst best
  | item :: rest' =>
      py_max (if snd best <? snd item then item else best) rest'
  end.

Definition find_biggest_txt (out_dir : Path) : M (Outcome Path) :=
  bind (find_txts out_dir) (fun txts =>
  match txts with
  | [] => ret (die (utf8 "Nie znalazłem pliku .txt po transkrypcji."))
  | _ :: _ =>
      bind (for_each txts stat_size) (fun sizes =>
      match combine txts sizes with
      | first :: rest => ret (Returns (py_max first rest))
      | [] => raise ValueError
      end)
  end).

Definition cleanup_sample_files (out_dir : Path) : M unit :=
  bind (glob out_dir (utf8 "sample.wav")) (fun wavs =>
  bind (for_each wavs (unlink_quietly removable)) (fun _ =>
  bind (glob out_dir (utf8 "*.txt")) (fun txts =>
  bind (for_each txts (unlink_quietly removable)) (fun _ =>
  ret tt)))).

End Directory.
End Directory.

(** *** Scenarios for evaluation *)

Module Scenarios.

(** An endpoint that is busy once and answers afterwards. *)
Definition busy_once (k : nat) (p : @Payload Exact.runtime)
  : Result (@PyVal Exact.runtime) :=
  match k with
  | O => Raise (HTTPError 503 (utf8 "busy"))
  | S _ => Ok (Exact.response (utf8 "done"))
  end.

(** An endpoint that answers the first request and then knows no such
    model. *)
Definition missing_later (k : nat) (p : @Payload Exact.runtime)
  : Result (@PyVal Exact.runtime) :=
  match k with
  | O => Exact.summarizer k p
  | S _ => Raise (HTTPError 404 (utf8 "no such model"))
  end.

(** An endpoint that knows no such model. *)
Definition missing (k : nat) (p : @Payload Exact.runtime)
  : Result (@PyVal Exact.runtime) :=
  Raise (HTTPError 404 (utf8 "no such model")).

(** An endpoint whose texts hold a lone surrogate, as [json.loads] builds
    them from the escape [\ud800]. *)
Definition lone_surrogate (k : nat) (p : @Payload Exact.runtime) : str :=
  [55296%N].

Definition garbled (k : nat) (p : @Payload Exact.runtime)
  : Result (@PyVal Exact.runtime) :=
  Ok (Exact.response (lone_surrogate k p)).

(** An endpoint whose texts hold a carriage return. *)
Definition two_lines (k : nat) (p : @Payload Exact.runtime) : str :=
  utf8 "a" ++ [13%N] ++ utf8 "b".

Definition carriage (k : nat) (p : @Payload Exact.runtime)
  : Result (@PyVal Exact.runtime) :=
  Ok (Exact.response (two_lines k p)).

(** A file system that lets every path be removed, and one that keeps what
    is in the output directory. *)
Definition removable (p : Path) : bool := true.

Definition locked (p : Path) : bool :=
  negb (str_eqb (firstn 4 p) (utf8 "out/")).

(** A world with the lines typed and one file. *)
Definition world_with (path : Path) (text : str) (typed : list str)
  : @World Exact.runtime :=
  {| trace := [];
     files := set_file (fun _ => None) path (Some text);
     stdin := typed |}.

Definition typed (lines : list str) : @World Exact.runtime :=
  {| trace := []; files := fun _ => None; stdin := lines |}.

(** A transcriber that writes [audio.txt], and a directory in which that
    file is the biggest. *)
Definition whisper_transcribe (wav_path out_dir : Path) (lang : option str)
  : @M Exact.runtime unit :=
  fun w => (Ok tt, {| trace := trace w;
                      files := set_file (files w) (utf8 "out/audio.txt")
                                        (Some (utf8 "hello"));
                      stdin := stdin w |}).

Definition find_biggest_txt (out_dir : Path) : @M Exact.runtime Path :=
  fun w => (Ok (utf8 "out/audio.txt"), w).

(** [int(raw)] on ASCII digits with an optional sign; [int] accepts more
    (underscores between digits, other decimal digits), on which no
    evaluation relies. *)
Fixpoint digits_value (s : str) (acc : Z) : Result Z :=
  match s with
  | [] => Ok acc
  | c :: s' =>
      if ((48 <=? c) && (c <=? 57))%N
      then digits_value s' (10 * acc + Z.of_N (c - 48))
      else Raise ValueError
  end.

Definition py_int (raw : str) : Result Z :=
  match raw with
  | [] => Raise ValueError
  | c :: digits =>
      if (c =? 45)%N then
        match digits with
        | [] => Raise ValueError
        | _ :: _ => rbind (digits_value digits 0) (fun v => Ok (- v))
        end
      else if (c =? 43)%N then
        match digits with
        | [] => Raise ValueError
        | _ :: _ => digits_value digits 0
        end
      else digits_value raw 0
  end.

(** A directory with a sample and two texts. *)
Definition glob (out_dir : Path) (pattern : str)
  : @M Exact.runtime (list Path) :=
  fun w =>
    (Ok (if str_eqb pattern (utf8 "sample.wav")
         then [utf8 "out/sample.wav"]
         else [utf8 "out/audio.txt"; utf8 "out/transcript.txt";
               utf8 "out/summary_final.txt"]),
     w).

Definition st_size (p : Path) : Z :=
  if str_eqb p (utf8 "out/audio.txt") then 120
  else if str_eqb p (utf8 "out/transcript.txt") then 4000
  else if str_eqb p (utf8 "out/summary_final.txt") then 4000
  else 0.

Definition stat_size (p : Path) : @M Exact.runtime Z :=
  fun w => (Ok (st_size p), w).

(** The defaults, with [RETRIES=0] in the environment. *)
Definition no_attempt_config : @Config Exact.runtime :=
  @Build_Config Exact.runtime
    4000 500 900 900 (TEMP_SUMMARY Exact.default_config)
    (TEMP_TRANSLATE Exact.default_config) 0
    (BACKOFF_BASE Exact.default_config).

End Scenarios.

(** * Properties *)

(** ** Slices and ranges: basic facts *)

Lemma firstn_then_more {A} (a b : nat) (l : list A) :
  firstn a l ++ firstn b (skipn a l) = firstn (a + b) l.
Proof.
  revert l; induction a as [|a IH]; intros l; simpl.
  - reflexivity.
  - destruct l as [|x l]; simpl.
    + now rewrite firstn_nil.
    + now rewrite IH.
Qed.

Lemma py_slice_window {A} (l : list A) (lo n : Z) :
  0 <= lo -> 0 <= n ->
  py_slice l lo (lo + n) = firstn (Z.to_nat n) (skipn (Z.to_nat lo) l).
Proof.
  intros Hlo Hn. unfold py_slice, clamp_index.
  destruct (Z.ltb_spec lo 0); [lia|].
  destruct (Z.ltb_spec (lo + n) 0); [lia|].
  destruct (Z.le_gt_cases lo (Z.of_nat (length l))) as [Hin|Hout].
  - rewrite (Z.min_l lo) by lia.
    destruct (Z.le_gt_cases (lo + n) (Z.of_nat (length l))).
    + rewrite Z.min_l by lia. f_equal. lia.
    + rewrite Z.min_r by lia.
      rewrite !firstn_all2; try reflexivity; rewrite length_skipn; lia.
  - rewrite !Z.min_r by lia. rewrite Z.sub_diag. simpl.
    rewrite skipn_all2 by lia. now rewrite firstn_nil.
Qed.

Lemma range_items_length lo step n : length (range_items lo step n) = n.
Proof. unfold range_items. now rewrite length_map, length_seq. Qed.

Lemma range_items_S lo step n :
  range_items lo step (S n) = range_items lo step n ++ [lo + Z.of_nat n * step].
Proof. unfold range_items. now rewrite seq_S, map_app. Qed.

Lemma range_items_cons lo step n :
  range_items lo step (S n) = lo :: range_items (lo + step) step n.
Proof.
  unfold range_items. simpl. f_equal; [lia|].
  rewrite <- seq_shift, map_map. apply map_ext. intros k. lia.
Qed.

Lemma range_len_pos len size :
  0 < size -> 0 < len ->
  range_len 0 len size = (len - 1) / size + 1.
Proof.
  intros Hs Hl. unfold range_len.
  destruct (Z.ltb_spec 0 size); [|lia].
  destruct (Z.ltb_spec 0 len); [|lia].
  now rewrite Z.sub_0_r.
Qed.

Lemma range_len_empty len size :
  0 < size -> len <= 0 -> range_len 0 len size = 0.
Proof.
  intros Hs Hl. unfold range_len.
  destruct (Z.ltb_spec 0 size); [|lia].
  destruct (Z.ltb_spec 0 len); [lia|reflexivity].
Qed.

(** [range_len] is the ceiling of the quotient. *)
Lemma range_len_ceil len size :
  0 < size -> 0 <= len ->
  range_len 0 len size = (len + size - 1) / size.
Proof.
  intros Hs Hl. destruct (Z.eq_dec len 0) as [->|Hne].
  - rewrite range_len_empty by lia. symmetry. apply Z.div_small. lia.
  - rewrite range_len_pos by lia.
    replace (len + size - 1) with ((len - 1) + 1 * size) by lia.
    now rewrite Z.div_add by lia.
Qed.

Lemma range_len_bounds len size :
  0 < size -> 0 < len ->
  (range_len 0 len size - 1) * size < len <= range_len 0 len size * size.
Proof.
  intros Hs Hl. rewrite range_len_pos by lia.
  pose proof (Z.div_mod (len - 1) size ltac:(lia)) as E.
  pose proof (Z.mod_pos_bound (len - 1) size Hs) as B.
  nia.
Qed.

Lemma concat_windows {A} (l : list A) (s m : nat) :
  concat (map (fun k => firstn s (skipn (k * s) l)) (seq 0 m))
  = firstn (m * s) l.
Proof.
  induction m as [|m IH].
  - reflexivity.
  - rewrite seq_S, map_app, concat_app, IH. simpl.
    rewrite app_nil_r, firstn_then_more. f_equal. lia.
Qed.

Lemma windows_firstn {A} (l : list A) (size : Z) :
  0 < size ->
  windows l size
  = map (fun k => firstn (Z.to_nat size) (skipn (k * Z.to_nat size) l))
        (seq 0 (chunk_count (Z.of_nat (length l)) size)).
Proof.
  intros Hs. unfold windows, range_items, chunk_count. rewrite map_map.
  apply map_ext. intros k.
  rewrite py_slice_window by lia. f_equal. f_equal. lia.
Qed.

Lemma last_window_length len size :
  0 < size -> 0 < len ->
  len - (range_len 0 len size - 1) * size
  = if len mod size =? 0 then size else len mod size.
Proof.
  intros Hs Hl. rewrite range_len_pos by lia.
  pose proof (Z.div_mod len size ltac:(lia)) as E.
  pose proof (Z.mod_pos_bound len size Hs) as B.
  destruct (Z.eqb_spec (len mod size) 0) as [H0|H0].
  - assert ((len - 1) / size = len / size - 1) as ->.
    { symmetry. apply Z.div_unique with (r := size - 1); lia. }
    lia.
  - assert ((len - 1) / size = len / size) as ->.
    { symmetry. apply Z.div_unique with (r := len mod size - 1); lia. }
    lia.
Qed.

(** The pieces cover the list in order; all but the last have [size]
    elements and the last has the remainder. *)
Lemma windows_partition {A} (l : list A) (size : Z) :
  0 < size ->
  let len := Z.of_nat (length l) in
  concat (windows l size) = l
  /\ Z.of_nat (length (windows l size)) = (len + size - 1) / size
  /\ (forall i c, nth_error (windows l size) i = Some c ->
                  (S i < length (windows l size))%nat ->
                  Z.of_nat (length c) = size)
  /\ (forall c, nth_error (windows l size) (length (windows l size) - 1)
                = Some c ->
                1 <= Z.of_nat (length c) <= size
                /\ Z.of_nat (length c)
                   = if len mod size =? 0 then size else len mod size)
  /\ (windows l size = [] <-> l = []).
Proof.
  intros Hs len. rewrite (windows_firstn l size Hs).
  set (s := Z.to_nat size).
  set (m := chunk_count (Z.of_nat (length l)) size).
  assert (Hcount : Z.of_nat m = range_len 0 len size).
  { unfold m, chunk_count. rewrite Z2Nat.id; [reflexivity|].
    destruct l as [|x t].
    - rewrite range_len_empty by (simpl; lia). lia.
    - rewrite range_len_pos by (simpl; lia).
      pose proof (Z.div_pos (Z.of_nat (length (x :: t)) - 1) size).
      simpl length in *. lia. }
  assert (Hm0 : l = [] -> m = 0%nat).
  { intros ->. unfold m, chunk_count.
    now rewrite range_len_empty by (simpl; lia). }
  assert (Hm : l <> [] ->
               (Z.of_nat m - 1) * size < len <= Z.of_nat m * size
               /\ (0 < m)%nat /\ 0 < len).
  { intros Hne. assert (0 < len).
    { subst len. destruct l; [congruence | simpl; lia]. }
    pose proof (range_len_bounds len size Hs H) as B.
    rewrite <- Hcount in B. split; [exact B | lia]. }
  assert (Hnth : forall i c,
             nth_error (map (fun k => firstn s (skipn (k * s) l)) (seq 0 m)) i
             = Some c ->
             (i < m)%nat /\ length c = Nat.min s (length l - i * s)).
  { intros i c E. rewrite nth_error_map, nth_error_seq in E.
    destruct (Nat.ltb_spec i m); [|discriminate].
    simpl in E. injection E as <-. split; [assumption|].
    now rewrite length_firstn, length_skipn. }
  rewrite length_map, length_seq.
  split; [|split; [|split; [|split]]].
  - rewrite concat_windows. apply firstn_all2.
    destruct l as [|x t]; [simpl; lia|].
    destruct Hm as [B _]; [discriminate|]. subst s len. nia.
  - rewrite Hcount. apply range_len_ceil; lia.
  - intros i c E Hi. apply Hnth in E as [_ ->].
    destruct l as [|x t]; [rewrite Hm0 in Hi by reflexivity; lia|].
    destruct Hm as [B _]; [discriminate|]. subst s len. nia.
  - intros c E. apply Hnth in E as [Hi E].
    destruct l as [|x t]; [rewrite Hm0 in Hi by reflexivity; lia|].
    destruct Hm as (B & Bm & Bl); [discriminate|].
    assert (Elen : Z.of_nat (length c) = len - (Z.of_nat m - 1) * size).
    { rewrite E. subst s len. nia. }
    split; [lia|].
    rewrite Elen, Hcount. now apply last_window_length.
  - split.
    + intros E. destruct l as [|x t]; [reflexivity|].
      destruct Hm as (_ & B & _); [discriminate|].
      apply (f_equal (@length _)) in E.
      rewrite length_map, length_seq in E. simpl in E. lia.
    + intros E. now rewrite (Hm0 E).
Qed.

Lemma chunk_text_windows (text : str) (size : Z) :
  size <> 0 -> chunk_text text size = Ok (windows text size).
Proof.
  intros Hs. unfold chunk_text, py_range3.
  now destruct (Z.eqb_spec size 0).
Qed.

(** C3: for a positive size, [chunk_text] returns chunks whose concatenation
    is the text; every chunk but the last has exactly [size] characters, the
    last has between 1 and [size], and there is no chunk exactly when the
    text is empty. *)
Theorem chunk_text_partition (text : str) (size : Z) :
  0 < size ->
  exists chunks,
    chunk_text text size = Ok chunks
    /\ concat chunks = text
    /\ (forall i c, nth_error chunks i = Some c ->
                    (S i < length chunks)%nat -> Z.of_nat (length c) = size)
    /\ (forall c, nth_error chunks (length chunks - 1) = Some c ->
                  1 <= Z.of_nat (length c) <= size)
    /\ (chunks = [] <-> text = []).
Proof.
  intros Hs. exists (windows text size).
  destruct (windows_partition text size Hs) as (Hc & _ & Hfull & Hlast & He).
  split; [apply chunk_text_windows; lia|].
  repeat split; try assumption; try (now apply He).
  - now apply Hlast.
  - now apply Hlast.
Qed.

Lemma chunk_text_partition_witness :
  0 < 3
  /\ exists chunks,
    chunk_text (utf8 "abcdefghij") 3 = Ok chunks
    /\ concat chunks = utf8 "abcdefghij"
    /\ (forall i c, nth_error chunks i = Some c ->
                    (S i < length chunks)%nat -> Z.of_nat (length c) = 3)
    /\ (forall c, nth_error chunks (length chunks - 1) = Some c ->
                  1 <= Z.of_nat (length c) <= 3)
    /\ (chunks = [] <-> utf8 "abcdefghij" = []).
Proof.
  split; [lia|]. apply (chunk_text_partition (utf8 "abcdefghij") 3). lia.
Defined.

(** ** The language gate: the pattern counts whole words *)

Lemma str_eqb_eq (a b : str) : str_eqb a b = true <-> a = b.
Proof.
  unfold str_eqb. destruct (list_eq_dec N.eq_dec a b); split;
    congruence.
Qed.

Lemma str_in_In (w : str) (l : list str) : str_in w l = true <-> In w l.
Proof.
  unfold str_in. rewrite existsb_exists. split.
  - intros (x & Hx & E). apply str_eqb_eq in E. now subst.
  - intros H. exists w. split; [assumption | now apply str_eqb_eq].
Qed.

Section WholeWords.
Context {U : Unicode}.

Lemma word_prefix_after_word s : word_prefix s ++ after_word s = s.
Proof.
  induction s as [|c s IH]; simpl; [reflexivity|].
  destruct (is_word c); simpl; [now rewrite IH | reflexivity].
Qed.

Lemma word_prefix_all_word s : forallb is_word (word_prefix s) = true.
Proof.
  induction s as [|c s IH]; simpl; [reflexivity|].
  destruct (is_word c) eqn:E; simpl; [now rewrite E | reflexivity].
Qed.

Lemma after_word_head s : word_side (hd_error (after_word s)) = false.
Proof.
  induction s as [|c s IH]; simpl; [reflexivity|].
  destruct (is_word c) eqn:E; simpl; assumption.
Qed.

Lemma after_word_length s : (length (after_word s) <= length s)%nat.
Proof.
  induction s as [|c s IH]; simpl; [lia|].
  destruct (is_word c); simpl; lia.
Qed.

Lemma after_word_stable s :
  word_side (hd_error s) = false -> after_word s = s.
Proof.
  destruct s as [|c s]; simpl; [reflexivity|]. now intros ->.
Qed.

Lemma word_prefix_app w t :
  forallb is_word w = true -> word_side (hd_error t) = false ->
  word_prefix (w ++ t) = w.
Proof.
  induction w as [|c w IH]; simpl; intros Hw Ht.
  - destruct t as [|d t]; simpl in *; [reflexivity | now rewrite Ht].
  - apply andb_true_iff in Hw as [-> Hw]. now rewrite IH.
Qed.

Lemma words_from_split cur s :
  words_from cur s
  = match cur ++ word_prefix s with [] => [] | w => [w] end
    ++ words_from [] (after_word s).
Proof.
  revert cur; induction s as [|c s IH]; intros cur; simpl.
  - rewrite !app_nil_r. destruct cur; reflexivity.
  - destruct (is_word c) eqn:E.
    + rewrite IH, <- app_assoc. reflexivity.
    + rewrite !app_nil_r. simpl. rewrite E. destruct cur; reflexivity.
Qed.

Lemma words_word_start c s :
  is_word c = true ->
  words (c :: s) = word_prefix (c :: s) :: words (after_word s).
Proof.
  intros E. unfold words. rewrite words_from_split. simpl. now rewrite E.
Qed.

Lemma words_skip c s : is_word c = false -> words (c :: s) = words s.
Proof. intros E. unfold words. simpl. now rewrite E. Qed.

Lemma starts_with_app w s :
  starts_with w s = true <-> exists t, s = w ++ t.
Proof.
  revert s; induction w as [|a w IH]; intros s; simpl.
  - split; [intros _; now exists s | reflexivity].
  - destruct s as [|b s].
    + split; [discriminate | intros (t & E); discriminate].
    + rewrite andb_true_iff, N.eqb_eq, IH. split.
      * intros (-> & t & ->). now exists t.
      * intros (t & E). injection E as -> ->. split; [reflexivity|now exists t].
Qed.

Lemma last_word_side w prev :
  w <> [] -> forallb is_word w = true ->
  word_side (last (map Some w) prev) = true.
Proof.
  induction w as [|a w IH]; [congruence|]. intros _ Hw.
  simpl in Hw. apply andb_true_iff in Hw as [Ha Hw].
  destruct w as [|b w]; [exact Ha|].
  change (word_side (last (map Some (b :: w)) prev) = true).
  apply IH; [discriminate | assumption].
Qed.

(** An alternative matches at a position exactly when it is the whole
    word that starts there. *)
Lemma alt_matches_whole_word prev s w :
  w <> [] -> forallb is_word w = true ->
  (alt_matches prev s w = true <-> w = word_prefix s).
Proof.
  intros Hne Hw. unfold alt_matches, boundary.
  rewrite (last_word_side w prev Hne Hw). rewrite andb_true_iff.
  split.
  - intros [Hs Hb]. apply starts_with_app in Hs as (t & ->).
    rewrite skipn_app, skipn_all, Nat.sub_diag in Hb. simpl in Hb.
    symmetry. apply word_prefix_app; [assumption|].
    now destruct (word_side (hd_error t)).
  - intros ->. split.
    + apply starts_with_app. exists (after_word s).
      symmetry. apply word_prefix_after_word.
    + rewrite <- (word_prefix_after_word s) at 2.
      rewrite skipn_app, skipn_all, Nat.sub_diag. simpl.
      now rewrite after_word_head.
Qed.

Lemma find_whole_word alts prev s :
  wellformed alts ->
  find (alt_matches prev s) alts
  = if str_in (word_prefix s) alts then Some (word_prefix s) else None.
Proof.
  induction 1 as [|w alts [Hne Hw] _ IH]; simpl; [reflexivity|].
  destruct (alt_matches prev s w) eqn:E.
  - apply alt_matches_whole_word in E; [|assumption..]. subst w.
    assert (str_eqb (word_prefix s) (word_prefix s) = true) as ->
        by now apply str_eqb_eq.
    reflexivity.
  - destruct (str_eqb (word_prefix s) w) eqn:E'.
    + apply str_eqb_eq in E'. symmetry in E'.
      apply (alt_matches_whole_word prev s w Hne Hw) in E'. congruence.
    + exact IH.
Qed.

Lemma match_here_no_start alts prev c s :
  wellformed alts -> is_word c = false ->
  match_here alts prev (c :: s) = None.
Proof.
  intros Hwf Hc. unfold match_here.
  destruct (boundary prev (hd_error (c :: s))); [|reflexivity].
  rewrite find_whole_word by assumption. simpl. rewrite Hc.
  destruct (str_in [] alts) eqn:E; [|reflexivity].
  apply str_in_In in E. unfold wellformed in Hwf.
  rewrite Forall_forall in Hwf. now destruct (Hwf _ E).
Qed.

Lemma last_default {A} (l : list A) (d d' : A) :
  l <> [] -> last l d = last l d'.
Proof.
  induction l as [|a l IH]; [congruence|]. intros _.
  destruct l as [|b l]; [reflexivity|].
  change (last (b :: l) d = last (b :: l) d'). apply IH. discriminate.
Qed.

(** Passing over the rest of a match. *)
Lemma scan_skip alts u prev r :
  scan alts prev (u ++ r) (length u) = scan alts (last (map Some u) prev) r O.
Proof.
  revert prev; induction u as [|a u IH]; intros prev.
  - destruct r; reflexivity.
  - cbn [app length scan]. rewrite IH. destruct u as [|b u]; [reflexivity|].
    f_equal. cbn [map]. symmetry.
    change (last (Some a :: Some b :: map Some u) prev)
      with (last (Some b :: map Some u) prev).
    apply last_default. discriminate.
Qed.

Lemma scan_counts_words alts :
  wellformed alts ->
  forall n s prev, (length s <= n)%nat ->
    length (scan alts prev s O) = count_in alts (words_ahead prev s).
Proof.
  intros Hwf. induction n as [|n IH]; intros s prev Hn.
  - destruct s; [|simpl in Hn; lia].
    unfold words_ahead. simpl. now destruct (word_side prev).
  - destruct s as [|c s].
    { unfold words_ahead. simpl. now destruct (word_side prev). }
    simpl in Hn. assert (Hs : (length s <= n)%nat) by lia.
    unfold words_ahead. cbn [scan].
    destruct (is_word c) eqn:Hc.
    + (* a word character *)
      destruct (word_side prev) eqn:Hp.
      * (* inside a word: no boundary here *)
        unfold match_here, boundary. simpl hd_error. cbn [word_side].
        rewrite Hp, Hc. simpl xorb. cbv iota.
        rewrite (IH s (Some c) Hs). unfold words_ahead. simpl.
        now rewrite Hc.
      * (* the start of a word *)
        unfold match_here, boundary. simpl hd_error. cbn [word_side].
        rewrite Hp, Hc. simpl xorb. cbv iota.
        rewrite find_whole_word by assumption.
        rewrite (words_word_start c s Hc).
        unfold count_in. cbn [filter].
        destruct (str_in (word_prefix (c :: s)) alts) eqn:Hin.
        -- cbn [length]. f_equal.
           assert (Es : s = word_prefix s ++ after_word s)
             by (symmetry; apply word_prefix_after_word).
           assert (El : (length (word_prefix (c :: s)) - 1
                         = length (word_prefix s))%nat).
           { simpl. rewrite Hc. simpl. lia. }
           rewrite El. rewrite Es at 1. rewrite scan_skip.
           rewrite IH by (pose proof (after_word_length s); lia).
           unfold words_ahead.
           assert (word_side (last (map Some (word_prefix s)) (Some c)) = true)
             as ->.
           { destruct (word_prefix s) eqn:Ew; [exact Hc|].
             apply last_word_side; [discriminate|].
             rewrite <- Ew. apply word_prefix_all_word. }
           rewrite after_word_stable by apply after_word_head.
           reflexivity.
        -- rewrite (IH s (Some c) Hs). unfold words_ahead. simpl.
           now rewrite Hc.
    + (* not a word character: no alternative starts here *)
      rewrite match_here_no_start by assumption.
      rewrite (IH s (Some c) Hs). unfold words_ahead. cbn [word_side].
      rewrite Hc.
      assert (after_word (c :: s) = c :: s) as -> by (simpl; now rewrite Hc).
      rewrite (words_skip c s Hc). now destruct (word_side prev).
Qed.

(** [re.findall] with a pattern [\b(w1|...|wn)\b] finds one match per
    whole word of the text that is among the alternatives. *)
Lemma findall_counts_whole_words alts text :
  wellformed alts ->
  Z.of_nat (length (findall alts text)) = whole_word_matches alts text.
Proof.
  intros Hwf. unfold findall, whole_word_matches.
  now rewrite (scan_counts_words alts Hwf (length text) text None (le_n _)).
Qed.

Lemma letters_are_words_wellformed :
  letters_are_words = true -> wellformed PL_WORDS /\ wellformed EN_WORDS.
Proof.
  unfold letters_are_words. rewrite forallb_app, andb_true_iff.
  rewrite !forallb_forall. intros [Hp He].
  split; apply Forall_forall; intros w Hw; (split; [|auto]).
  - intros ->. revert Hw. clear. vm_compute. intuition discriminate.
  - intros ->. revert Hw. clear. vm_compute. intuition discriminate.
Qed.

Lemma detect_lang_from_text_scores sample :
  letters_are_words = true ->
  detect_lang_from_text sample
  = if Z.max 2 (secondary_score sample) <=? primary_score sample
    then utf8 "pl" else utf8 "en".
Proof.
  intros H. apply letters_are_words_wellformed in H as [Hp He].
  unfold detect_lang_from_text, primary_score, secondary_score.
  rewrite !findall_counts_whole_words by assumption.
  now rewrite (Z.mul_comm (count_chars PL_CHARS sample) 2).
Qed.

End WholeWords.

Section LanguageGate.
Context {U : Unicode}.

Lemma count_in_none alts ws :
  (forall w, In w ws -> str_in w alts = false) -> count_in alts ws = 0%nat.
Proof.
  unfold count_in. induction ws as [|w ws IH]; intros H; simpl.
  - reflexivity.
  - rewrite (H w) by now left. apply IH. intros v Hv. apply H. now right.
Qed.

(** No English stop word is a Polish stop word or a run of diacritics. *)
Lemma english_word_not_primary w :
  str_in w EN_WORDS = true ->
  str_in w PL_WORDS || forallb (fun c => char_in c PL_CHARS) w = false.
Proof.
  intros H. apply str_in_In in H. revert H. vm_compute.
  intros H. repeat (destruct H as [<- | H]; [reflexivity|]).
  destruct H.
Qed.

Lemma only_primary_secondary_score sample :
  only_primary sample = true -> secondary_score sample = 0.
Proof.
  unfold only_primary, secondary_score, whole_word_matches.
  rewrite forallb_forall. intros H.
  fold (count_in EN_WORDS (words (str_lower sample))).
  rewrite count_in_none; [reflexivity|].
  intros w Hw. specialize (H w Hw).
  destruct (str_in w EN_WORDS) eqn:E; [|reflexivity].
  apply english_word_not_primary in E. congruence.
Qed.

Lemma only_secondary_primary_score sample :
  only_secondary sample = true -> primary_score sample = 0.
Proof.
  unfold only_secondary, primary_score, whole_word_matches.
  rewrite andb_true_iff, forallb_forall, Z.eqb_eq. intros [H ->].
  fold (count_in PL_WORDS (words (str_lower sample))).
  rewrite count_in_none; [reflexivity|].
  intros w Hw. specialize (H w Hw).
  apply english_word_not_primary in H.
  now apply orb_false_iff in H as [-> _].
Qed.

End LanguageGate.

(** C7: [detect_lang_from_text] is a total function of the sample that
    returns one of the tags ["pl"] and ["en"], the same tag for the same
    sample, and ["pl"] exactly when the primary score, twice the number of
    diacritic characters plus the number of whole-word Polish stop words, is
    at least the larger of 2 and the secondary score, the number of
    whole-word English stop words. *)
Theorem detect_lang_from_text_total_and_scored {U : Unicode} (sample : str) :
  letters_are_words = true ->
  (detect_lang_from_text sample = utf8 "pl"
   \/ detect_lang_from_text sample = utf8 "en")
  /\ (forall sample', sample' = sample ->
        detect_lang_from_text sample' = detect_lang_from_text sample)
  /\ (detect_lang_from_text sample = utf8 "pl"
      <-> Z.max 2 (secondary_score sample) <= primary_score sample).
Proof.
  intros H. rewrite (detect_lang_from_text_scores sample H).
  repeat split.
  - destruct (Z.max 2 (secondary_score sample) <=? primary_score sample);
      [now left | now right].
  - intros sample' ->. now rewrite (detect_lang_from_text_scores sample H).
  - destruct (Z.leb_spec (Z.max 2 (secondary_score sample))
                         (primary_score sample));
      [trivial | discriminate].
  - intros Hle. apply Z.leb_le in Hle. now rewrite Hle.
Qed.

Lemma detect_lang_from_text_total_and_scored_witness :
  @letters_are_words Latin.tables = true
  /\ @primary_score Latin.tables (utf8 "Nie jest, że tak") = 6
  /\ @secondary_score Latin.tables (utf8 "Nie jest, że tak") = 0
  /\ @detect_lang_from_text Latin.tables (utf8 "Nie jest, że tak") = utf8 "pl".
Proof.
  split; [reflexivity|]. split; [reflexivity|]. split; [reflexivity|].
  apply (proj2 (proj2 (@detect_lang_from_text_total_and_scored
                         Latin.tables (utf8 "Nie jest, że tak") eq_refl))).
  vm_compute. discriminate.
Defined.

(** C1, as stated, fails: the sample ["i"] holds one Polish stop word and
    nothing else, and is classified as English, its score of 1 being under
    the floor of 2. *)
Lemma single_stop_word_classified_en :
  @only_primary Latin.tables (utf8 "i") = true
  /\ @detect_lang_from_text Latin.tables (utf8 "i") = utf8 "en"
  /\ @detect_lang_from_text Latin.tables (utf8 "i") <> utf8 "pl".
Proof. repeat split. discriminate. Qed.

(** C1, amended: a sample of Polish stop words and diacritics only is
    classified as ["pl"] exactly when its primary score reaches 2 (one
    diacritic character or two stop words are enough); a sample of English
    stop words only is classified as ["en"]. *)
Theorem stop_word_samples_classified {U : Unicode} (sample : str) :
  letters_are_words = true ->
  (only_primary sample = true ->
     (detect_lang_from_text sample = utf8 "pl" <-> 2 <= primary_score sample))
  /\ (only_secondary sample = true -> detect_lang_from_text sample = utf8 "en").
Proof.
  intros H. rewrite (detect_lang_from_text_scores sample H). split.
  - intros Hp. rewrite (only_primary_secondary_score sample Hp).
    change (Z.max 2 0) with 2.
    destruct (Z.leb_spec 2 (primary_score sample)); split;
      (trivial || discriminate || lia).
  - intros Hs. rewrite (only_secondary_primary_score sample Hs).
    destruct (Z.leb_spec (Z.max 2 (secondary_score sample)) 0);
      [lia | reflexivity].
Qed.

Lemma stop_word_samples_classified_witness :
  @letters_are_words Latin.tables = true
  /\ @only_primary Latin.tables (utf8 "nie jest") = true
  /\ @detect_lang_from_text Latin.tables (utf8 "nie jest") = utf8 "pl"
  /\ @only_secondary Latin.tables (utf8 "the and") = true
  /\ @detect_lang_from_text Latin.tables (utf8 "the and") = utf8 "en".
Proof.
  split; [reflexivity|]. split; [reflexivity|]. split; [|split].
  - apply (proj1 (@stop_word_samples_classified
                    Latin.tables (utf8 "nie jest") eq_refl) eq_refl).
    vm_compute. discriminate.
  - reflexivity.
  - apply (proj2 (@stop_word_samples_classified
                    Latin.tables (utf8 "the and") eq_refl) eq_refl).
Defined.

(** ** The completion client *)

Section Client.
Context {R : Runtime}.
Variable endpoint : nat -> Payload -> Result PyVal.

Lemma add_events_nil w : add_events w [] = w.
Proof. destruct w. unfold add_events. simpl. now rewrite app_nil_r. Qed.

Lemma add_events_app w a b :
  add_events (add_events w a) b = add_events w (a ++ b).
Proof. unfold add_events. simpl. now rewrite app_assoc. Qed.

Lemma requests_sent_add w evs :
  requests_sent (add_events w evs)
  = (requests_sent w + length (requests_of evs))%nat.
Proof.
  unfold requests_sent, add_events. simpl.
  rewrite filter_app, length_app. f_equal.
  induction evs as [|[p|p|d] evs IH]; simpl; lia.
Qed.

Lemma calls_of_app a b : calls_of (a ++ b) = calls_of a ++ calls_of b.
Proof. apply flat_map_app. Qed.

Lemma requests_of_app a b :
  requests_of (a ++ b) = requests_of a ++ requests_of b.
Proof. apply flat_map_app. Qed.

Lemma sleeps_of_app a b : sleeps_of (a ++ b) = sleeps_of a ++ sleeps_of b.
Proof. apply flat_map_app. Qed.

Lemma retry_trace_requests p delays :
  requests_of (retry_trace p delays) = repeat p (S (length delays)).
Proof.
  unfold retry_trace. rewrite requests_of_app.
  induction delays as [|d ds IH]; simpl; [reflexivity|].
  simpl in IH. now rewrite IH.
Qed.

Lemma retry_trace_sleeps p delays : sleeps_of (retry_trace p delays) = delays.
Proof.
  unfold retry_trace. rewrite sleeps_of_app. simpl. rewrite app_nil_r.
  induction delays as [|d ds IH]; simpl; [reflexivity|]. now rewrite IH.
Qed.

(** One turn of the loop. *)
Lemma call_llm_attempts_step cfg payload attempt rest w :
  call_llm_attempts endpoint cfg payload (attempt :: rest) w
  = match attempt_outcome endpoint payload (requests_sent w) with
    | Ok text => (Ok text, add_events w [Request payload])
    | Raise e =>
        if retried cfg attempt e then
          match float_pow (BACKOFF_BASE cfg) attempt with
          | Ok d =>
              if sleep_accepts d then
                call_llm_attempts endpoint cfg payload rest
                  (add_events w [Request payload; Sleep d])
              else (Raise ValueError, add_events w [Request payload])
          | Raise e' => (Raise e', add_events w [Request payload])
          end
        else (Raise (final_error e), add_events w [Request payload])
    end.
Proof.
  change [Request payload; Sleep ?d] with ([Request payload] ++ [Sleep d]).
  assert (Hmore : forall d,
             add_events w ([Request payload] ++ [Sleep d])
             = add_events (add_events w [Request payload]) [Sleep d])
    by (intros; now rewrite add_events_app).
  cbn [call_llm_attempts]. unfold bind at 1, try, bind at 1, _post_chat.
  unfold attempt_outcome, lift.
  fold (add_events w [Request payload]).
  destruct (endpoint (requests_sent w) payload) as [out|e]; cbn [rbind].
  - destruct (response_content out) as [text|e]; [reflexivity|].
    destruct e; cbn [retried final_error];
      match goal with
      | |- context [if ?b then _ else _] => destruct b; [|reflexivity]
      end;
      unfold bind, time_sleep;
      destruct (float_pow (BACKOFF_BASE cfg) attempt) as [d|e'];
      try reflexivity;
      destruct (sleep_accepts d); try reflexivity;
      rewrite Hmore; reflexivity.
  - destruct e; cbn [retried final_error];
      match goal with
      | |- context [if ?b then _ else _] => destruct b; [|reflexivity]
      end;
      unfold bind, time_sleep;
      destruct (float_pow (BACKOFF_BASE cfg) attempt) as [d|e'];
      try reflexivity;
      destruct (sleep_accepts d); try reflexivity;
      rewrite Hmore; reflexivity.
Qed.

Lemma range_len_unit lo hi : lo <= hi -> range_len lo hi 1 = hi - lo.
Proof.
  intros H. unfold range_len. simpl.
  destruct (Z.ltb_spec lo hi); [|lia].
  rewrite Z.div_1_r. lia.
Qed.

Lemma py_range_snoc hi : 1 <= hi -> py_range 1 (hi + 1) = py_range 1 hi ++ [hi].
Proof.
  intros H. unfold py_range. rewrite !range_len_unit by lia.
  replace (Z.to_nat (hi + 1 - 1)) with (S (Z.to_nat (hi - 1))) by lia.
  rewrite range_items_S. f_equal. f_equal. lia.
Qed.

Lemma py_range_length lo hi :
  lo <= hi -> length (py_range lo hi) = Z.to_nat (hi - lo).
Proof.
  intros H. unfold py_range.
  now rewrite range_items_length, range_len_unit.
Qed.

Lemma range_items_In lo n a :
  In a (range_items lo 1 n) <-> lo <= a < lo + Z.of_nat n.
Proof.
  unfold range_items. rewrite in_map_iff. split.
  - intros (k & <- & Hk). apply in_seq in Hk. lia.
  - intros H. exists (Z.to_nat (a - lo)). split; [lia|].
    apply in_seq. lia.
Qed.

Section Retries.
Variable cfg : Config.
Variable payload : Payload.

(** The delay slept after each attempt that is not the last. *)
Variable delay : Z -> float.

Local Abbreviation delays_accepted := (delays_accepted cfg delay).
Local Abbreviation backoff := (backoff payload delay).

(** A run of attempts that all fail and are retried. *)
Lemma call_llm_attempts_retried n : forall a rest w,
  (forall i, (i < n)%nat -> exists e,
      attempt_outcome endpoint payload (requests_sent w + i) = Raise e
      /\ retried cfg (a + Z.of_nat i) e = true) ->
  delays_accepted a (a + Z.of_nat n) ->
  call_llm_attempts endpoint cfg payload (range_items a 1 n ++ rest) w
  = call_llm_attempts endpoint cfg payload rest
      (add_events w (backoff (range_items a 1 n))).
Proof.
  induction n as [|n IH]; intros a rest w Hfail Hdel.
  - unfold backoff. simpl. now rewrite add_events_nil.
  - rewrite range_items_cons. cbn [app].
    rewrite call_llm_attempts_step.
    destruct (Hfail O ltac:(lia)) as (e & He & Hr).
    rewrite Nat.add_0_r in He. rewrite Z.add_0_r in Hr.
    rewrite He, Hr.
    destruct (Hdel a ltac:(lia)) as [-> ->].
    rewrite IH.
    + rewrite add_events_app. reflexivity.
    + intros i Hi. destruct (Hfail (S i) ltac:(lia)) as (e' & He' & Hr').
      exists e'. split.
      * rewrite requests_sent_add. simpl.
        now replace (requests_sent w + 1 + i)%nat
          with (requests_sent w + S i)%nat by lia.
      * now replace (a + 1 + Z.of_nat i) with (a + Z.of_nat (S i)) by lia.
    + intros b Hb. apply Hdel. lia.
Qed.


End Retries.

Lemma call_llm_unfold cfg model_id messages max_tokens temperature w :
  call_llm endpoint cfg model_id messages max_tokens temperature w
  = call_llm_attempts endpoint cfg
      {| model := model_id; messages := messages;
         temperature := temperature; max_tokens := max_tokens |}
      (py_range 1 (RETRIES cfg + 1))
      (add_events w [Call {| model := model_id; messages := messages;
                             temperature := temperature;
                             max_tokens := max_tokens |}]).
Proof. reflexivity. Qed.

(** With an attempt count below 1 the loop has no turn: the call sends
    nothing and returns [None]. *)
Lemma call_llm_no_attempt cfg model_id messages max_tokens temperature w :
  RETRIES cfg < 1 ->
  call_llm endpoint cfg model_id messages max_tokens temperature w
  = (Ok PNone,
     add_events w [Call {| model := model_id; messages := messages;
                           temperature := temperature;
                           max_tokens := max_tokens |}]).
Proof.
  intros H. rewrite call_llm_unfold. unfold py_range, range_len.
  cbn [Z.ltb Z.compare]. destruct (Z.ltb_spec 1 (RETRIES cfg + 1)); [lia|].
  reflexivity.
Qed.

Lemma is_transient_spec code :
  is_transient code = false <-> ~ In code [429; 500; 503; 504].
Proof.
  unfold is_transient. simpl. rewrite !orb_false_iff, !Z.eqb_neq.
  intuition congruence.
Qed.


(** C2: against an endpoint that answers every request with HTTP 503,
    [call_llm] sends exactly [RETRIES] requests, sleeps
    [BACKOFF_BASE ** attempt] after attempt 1 to [RETRIES - 1], and then
    raises an error that carries the status and the body of the last
    response. *)
Theorem call_llm_always_503
        (cfg : Config) (delay : Z -> float) (body : nat -> Payload -> str)
        (model_id : str) (messages : list Message) (max_tokens : Z)
        (temperature : float) (w : World) :
  1 <= RETRIES cfg ->
  delays_accepted cfg delay 1 (RETRIES cfg) ->
  (forall k p, endpoint k p = Raise (HTTPError 503 (body k p))) ->
  let payload := {| model := model_id; messages := messages;
                    temperature := temperature;
                    max_tokens := max_tokens |} in
  let delays := map delay (py_range 1 (RETRIES cfg)) in
  let last := (requests_sent w + Z.to_nat (RETRIES cfg) - 1)%nat in
  let w' := add_events w (Call payload :: retry_trace payload delays) in
  call_llm endpoint cfg model_id messages max_tokens temperature w
  = (Raise (RuntimeError (http_error_message 503 (body last payload))), w')
  /\ requests_of (trace w')
     = requests_of (trace w) ++ repeat payload (Z.to_nat (RETRIES cfg))
  /\ sleeps_of (trace w') = sleeps_of (trace w) ++ delays
  /\ Forall2 (fun attempt d => float_pow (BACKOFF_BASE cfg) attempt = Ok d)
             (py_range 1 (RETRIES cfg)) delays.
Proof.
  intros HR Hdel H503 payload delays last w'.
  assert (Hlen : length (py_range 1 (RETRIES cfg))
                 = Z.to_nat (RETRIES cfg - 1))
    by (apply py_range_length; lia).
  repeat split.
  - rewrite call_llm_unfold. fold payload.
    rewrite py_range_snoc by lia. unfold py_range at 1.
    rewrite call_llm_attempts_retried with (delay := delay).
    + rewrite call_llm_attempts_step, add_events_app.
      unfold attempt_outcome. rewrite H503. cbn [rbind retried].
      rewrite Z.ltb_irrefl, andb_false_r. cbn [final_error].
      rewrite add_events_app.
      match goal with
      | |- context [body ?k payload] =>
          assert (Hk : k = last); [|rewrite Hk; reflexivity]
      end.
      rewrite requests_sent_add, requests_of_app. unfold backoff.
      assert (E : forall ds, length (requests_of
                 (flat_map (fun d => [Request payload; Sleep d]) ds))
                   = length ds)
        by (induction ds; simpl; auto).
      rewrite length_app, E, length_map, range_items_length,
        range_len_unit by lia.
      subst last. simpl. lia.
    + intros i Hi. eexists. unfold attempt_outcome. rewrite H503.
      split; [reflexivity|]. cbn [retried]. apply andb_true_iff.
      split; [reflexivity|]. apply Z.ltb_lt.
      rewrite range_len_unit in Hi by lia. lia.
    + intros a Ha. apply Hdel. rewrite range_len_unit in Ha by lia. lia.
  - subst w'. unfold add_events. cbn [trace].
    rewrite requests_of_app. f_equal.
    change (Call payload :: retry_trace payload delays)
      with ([Call payload] ++ retry_trace payload delays).
    rewrite requests_of_app, retry_trace_requests. simpl. f_equal.
    subst delays. rewrite length_map, Hlen.
    replace (Z.to_nat (RETRIES cfg)) with (S (Z.to_nat (RETRIES cfg - 1)))
      by lia.
    reflexivity.
  - subst w'. unfold add_events. cbn [trace].
    rewrite sleeps_of_app. f_equal.
    change (Call payload :: retry_trace payload delays)
      with ([Call payload] ++ retry_trace payload delays).
    now rewrite sleeps_of_app, retry_trace_sleeps.
  - subst delays.
    assert (G : forall l, Forall (fun a => 1 <= a < RETRIES cfg) l ->
              Forall2 (fun attempt d =>
                         float_pow (BACKOFF_BASE cfg) attempt = Ok d)
                      l (map delay l)).
    { induction 1 as [|a l Ha _ IH]; simpl; constructor; [|assumption].
      now destruct (Hdel a Ha). }
    apply G, Forall_forall. intros a Ha. unfold py_range in Ha.
    apply range_items_In in Ha. rewrite range_len_unit in Ha by lia. lia.
Qed.

Lemma range_items_app lo step a : forall b,
  range_items lo step (a + b)
  = range_items lo step a ++ range_items (lo + Z.of_nat a * step) step b.
Proof.
  revert lo; induction a as [|a IH]; intros lo b.
  - change (range_items lo step 0) with (@nil Z). cbn [app Nat.add].
    f_equal. lia.
  - change (S a + b)%nat with (S (a + b)).
    rewrite !range_items_cons, IH. cbn [app]. do 3 f_equal. lia.
Qed.

Lemma requests_sent_call w p :
  requests_sent (add_events w [Call p]) = requests_sent w.
Proof. rewrite requests_sent_add. simpl. lia. Qed.

Lemma py_range_split (k : nat) hi :
  Z.of_nat k < hi ->
  py_range 1 (hi + 1)
  = py_range 1 (Z.of_nat k + 1)
    ++ (Z.of_nat k + 1)
    :: range_items (Z.of_nat k + 2) 1 (Z.to_nat hi - k - 1).
Proof.
  intros H. unfold py_range. rewrite !range_len_unit by lia.
  replace (Z.to_nat (hi + 1 - 1))
    with (k + S (Z.to_nat hi - k - 1))%nat by lia.
  rewrite range_items_app, range_items_cons.
  replace (Z.to_nat (Z.of_nat k + 1 - 1)) with k by lia.
  do 2 f_equal; [lia|]. f_equal. lia.
Qed.

(** C6: when a response carries an HTTP status outside 429, 500, 503 and
    504, [call_llm] raises at once an error that holds the status and the
    body: the request that drew this response is its last event, with no
    sleep and no request after it. *)
Theorem call_llm_fails_fast
        (cfg : Config) (delay : Z -> float)
        (model_id : str) (messages : list Message) (max_tokens : Z)
        (temperature : float) (w : World)
        (k : nat) (code : Z) (body : str) :
  let payload := {| model := model_id; messages := messages;
                    temperature := temperature;
                    max_tokens := max_tokens |} in
  Z.of_nat k < RETRIES cfg ->
  (forall i, (i < k)%nat -> exists e,
      attempt_outcome endpoint payload (requests_sent w + i) = Raise e
      /\ retried cfg (1 + Z.of_nat i) e = true) ->
  delays_accepted cfg delay 1 (1 + Z.of_nat k) ->
  endpoint (requests_sent w + k) payload = Raise (HTTPError code body) ->
  ~ In code [429; 500; 503; 504] ->
  call_llm endpoint cfg model_id messages max_tokens temperature w
  = (Raise (RuntimeError (http_error_message code body)),
     add_events w (Call payload
                     :: retry_trace payload
                          (map delay (py_range 1 (Z.of_nat k + 1))))).
Proof.
  intros payload Hk Hfail Hdel Hresp Hcode.
  rewrite call_llm_unfold. fold payload.
  rewrite (py_range_split k) by assumption.
  unfold py_range. rewrite range_len_unit by lia.
  replace (Z.to_nat (Z.of_nat k + 1 - 1)) with k by lia.
  rewrite call_llm_attempts_retried with (delay := delay).
  - rewrite call_llm_attempts_step, add_events_app.
    rewrite requests_sent_add, requests_of_app, length_app. unfold backoff.
    assert (E : forall ds, length (requests_of
               (flat_map (fun d => [Request payload; Sleep d]) ds))
                 = length ds)
      by (induction ds; simpl; auto).
    rewrite E, length_map, range_items_length. simpl length.
    rewrite Nat.add_0_l.
    unfold attempt_outcome. rewrite Hresp. cbn [rbind retried].
    apply is_transient_spec in Hcode. rewrite Hcode. cbn [andb final_error].
    now rewrite add_events_app.
  - intros i Hi. rewrite requests_sent_call. now apply Hfail.
  - exact Hdel.
Qed.


End Client.

(** ** Map and reduce *)

Section MapReduce.
Context {R : Runtime}.
Variable endpoint : nat -> Payload -> Result PyVal.

(** A call whose first request is answered returns the content at once. *)
Lemma call_llm_first_reply cfg model_id messages max_tokens temperature w text :
  1 <= RETRIES cfg ->
  let payload := {| model := model_id; messages := messages;
                    temperature := temperature;
                    max_tokens := max_tokens |} in
  attempt_outcome endpoint payload (requests_sent w) = Ok text ->
  call_llm endpoint cfg model_id messages max_tokens temperature w
  = (Ok text, add_events w [Call payload; Request payload]).
Proof.
  intros HR payload Hok. rewrite call_llm_unfold. fold payload.
  unfold py_range. rewrite range_len_unit by lia.
  replace (Z.to_nat (RETRIES cfg + 1 - 1))
    with (S (Z.to_nat (RETRIES cfg) - 1)) by lia.
  rewrite range_items_cons, call_llm_attempts_step.
  rewrite requests_sent_call, Hok. now rewrite add_events_app.
Qed.

Lemma calls_trace_requests ps : requests_of (calls_trace ps) = ps.
Proof. induction ps as [|p ps IH]; simpl; [reflexivity | now rewrite IH]. Qed.

Lemma calls_trace_calls ps : calls_of (calls_trace ps) = ps.
Proof. induction ps as [|p ps IH]; simpl; [reflexivity | now rewrite IH]. Qed.

Lemma calls_trace_app a b : calls_trace (a ++ b) = calls_trace a ++ calls_trace b.
Proof. apply flat_map_app. Qed.

(** A loop whose body is one call per element, on an endpoint that always
    replies. *)
Lemma for_each_calls {A} cfg reply (pay : A -> Payload) (body : A -> M PyVal) :
  1 <= RETRIES cfg ->
  always_replies endpoint reply ->
  (forall x w,
      body x w
      = call_llm endpoint cfg (model (pay x)) (messages (pay x))
                 (max_tokens (pay x)) (temperature (pay x)) w) ->
  forall xs w,
    for_each xs body w
    = (Ok (map PStr (replies_from reply (requests_sent w) (map pay xs))),
       add_events w (calls_trace (map pay xs))).
Proof.
  intros HR Hrep Hbody. induction xs as [|x xs IH]; intros w.
  - simpl. unfold ret. now rewrite add_events_nil.
  - cbn [for_each]. unfold bind at 1. rewrite Hbody.
    rewrite (call_llm_first_reply cfg _ _ _ _ w
               (PStr (reply (requests_sent w) (pay x)))) by
        (try assumption; destruct (pay x); apply Hrep).
    unfold bind at 1. rewrite IH. unfold ret.
    rewrite add_events_app, requests_sent_add. simpl.
    replace (requests_sent w + 1)%nat with (S (requests_sent w)) by lia.
    destruct (pay x); reflexivity.
Qed.

Lemma py_slice_map {A B} (f : A -> B) (l : list A) lo hi :
  py_slice (map f l) lo hi = map f (py_slice l lo hi).
Proof.
  unfold py_slice. rewrite length_map.
  now rewrite <- firstn_map, <- skipn_map.
Qed.

Lemma py_join_strs sep (items : list str) :
  py_join sep (map PStr items) = Ok (str_join sep items).
Proof.
  induction items as [|s items IH]; [reflexivity|].
  cbn [map py_join str_join]. destruct items as [|t items]; [reflexivity|].
  cbn [map] in *. now rewrite IH.
Qed.

Lemma group_size_pos n : 0 < group_size n.
Proof. unfold group_size. destruct (n <=? 6), (n <=? 12); lia. Qed.

(** The reduce stage on an endpoint that always replies: one call per group,
    then the final call on the joined answers. *)
Lemma summarize_final_two_step_run cfg reply model_id lang texts w :
  1 <= RETRIES cfg ->
  always_replies endpoint reply ->
  let payloads := map (reduce_payload cfg model_id lang) (reduce_groups texts) in
  let reduced := replies_from reply (requests_sent w) payloads in
  let final := final_payload cfg model_id lang reduced in
  summarize_final_two_step endpoint cfg model_id (map PStr texts) lang w
  = (Ok (PStr (reply (requests_sent w + length payloads)%nat final)),
     add_events w (calls_trace (payloads ++ [final]))).
Proof.
  intros HR Hrep payloads reduced final.
  unfold summarize_final_two_step. rewrite length_map.
  set (n := Z.of_nat (length texts)).
  unfold py_range3.
  destruct (Z.eqb_spec (group_size n) 0) as [E|_];
    [pose proof (group_size_pos n); lia|].
  unfold bind at 1, lift at 1. unfold bind at 1.
  rewrite (for_each_calls cfg reply
             (fun i => reduce_payload cfg model_id lang
                         (py_slice texts i (i + group_size n)))).
  - rewrite <- map_map with (g := reduce_payload cfg model_id lang).
    change (map (fun i => py_slice texts i (i + group_size n))
                (range_items 0 (group_size n)
                             (Z.to_nat (range_len 0 n (group_size n)))))
      with (reduce_groups texts).
    fold payloads. fold reduced.
    unfold bind at 1, lift at 1. rewrite py_join_strs.
    rewrite (call_llm_first_reply cfg _ _ _ _ _
               (PStr (reply (requests_sent w + length payloads)%nat final))).
    + rewrite add_events_app, calls_trace_app. reflexivity.
    + assumption.
    + rewrite requests_sent_add, calls_trace_requests. apply Hrep.
  - assumption.
  - assumption.
  - intros i w0. unfold bind, lift.
    now rewrite py_slice_map, py_join_strs.
Qed.

(** The map stage on an endpoint that always replies: one call per chunk. *)
Lemma summarize_parts_run cfg reply model_id text chunk_size lang w :
  1 <= RETRIES cfg ->
  always_replies endpoint reply ->
  chunk_size <> 0 ->
  let payloads := map (part_payload cfg model_id lang) (windows text chunk_size) in
  summarize_parts endpoint cfg model_id text chunk_size lang w
  = (Ok (map PStr (replies_from reply (requests_sent w) payloads)),
     add_events w (calls_trace payloads)).
Proof.
  intros HR Hrep Hsize payloads. unfold summarize_parts.
  rewrite chunk_text_windows by assumption.
  unfold bind at 1, lift at 1.
  now rewrite (for_each_calls cfg reply (part_payload cfg model_id lang)).
Qed.

(** C4: on [n] partial summaries the reduce stage takes groups of 3 when
    [n <= 6], of 4 when [7 <= n <= 12] and of 3 when [n > 12]; it calls the
    client once for each of the [ceil(n / group_size)] consecutive groups,
    the last of which has [n mod group_size] members, or [group_size] when
    that is zero, and then once for the final summary; one partial summary
    makes one group of one. *)
Theorem reduce_stage_grouping
        (cfg : Config) (reply : nat -> Payload -> str)
        (model_id lang : str) (texts : list str) (w : World) :
  1 <= RETRIES cfg ->
  always_replies endpoint reply ->
  let n := Z.of_nat (length texts) in
  let groups := reduce_groups texts in
  let payloads := map (reduce_payload cfg model_id lang) groups in
  let reduced := replies_from reply (requests_sent w) payloads in
  let final := final_payload cfg model_id lang reduced in
  let run :=
    summarize_final_two_step endpoint cfg model_id (map PStr texts) lang w in
  (n <= 6 -> group_size n = 3)
  /\ (7 <= n <= 12 -> group_size n = 4)
  /\ (12 < n -> group_size n = 3)
  /\ fst run = Ok (PStr (reply (requests_sent w + length groups)%nat final))
  /\ calls_of (trace (snd run)) = calls_of (trace w) ++ payloads ++ [final]
  /\ concat groups = texts
  /\ Z.of_nat (length groups) = (n + group_size n - 1) / group_size n
  /\ (forall i g, nth_error groups i = Some g ->
                  (S i < length groups)%nat ->
                  Z.of_nat (length g) = group_size n)
  /\ (forall g, nth_error groups (length groups - 1) = Some g ->
                Z.of_nat (length g)
                = if n mod group_size n =? 0 then group_size n
                  else n mod group_size n)
  /\ (n = 1 -> groups = [texts]).
Proof.
  intros HR Hrep n groups payloads reduced final run.
  pose proof (summarize_final_two_step_run cfg reply model_id lang texts w
                HR Hrep) as Hrun.
  cbv zeta in Hrun. fold groups payloads reduced final run in Hrun.
  destruct (windows_partition texts (group_size n) (group_size_pos n))
    as (Hcat & Hlen & Hfull & Hlast & _).
  fold groups in Hcat, Hlen, Hfull, Hlast. fold n in Hlen, Hlast.
  split; [|split; [|split; [|split; [|split; [|split; [|split;
    [|split; [|split]]]]]]]].
  - intros H. unfold group_size. destruct (Z.leb_spec n 6); [reflexivity|lia].
  - intros H. unfold group_size. destruct (Z.leb_spec n 6); [lia|].
    destruct (Z.leb_spec n 12); [reflexivity|lia].
  - intros H. unfold group_size. destruct (Z.leb_spec n 6); [lia|].
    destruct (Z.leb_spec n 12); [lia|reflexivity].
  - rewrite Hrun. cbn [fst]. subst payloads. now rewrite length_map.
  - rewrite Hrun. cbn [snd]. unfold add_events. cbn [trace].
    now rewrite calls_of_app, calls_trace_calls.
  - exact Hcat.
  - exact Hlen.
  - exact Hfull.
  - intros g Hg. now apply Hlast.
  - intros Hn. subst groups n.
    destruct texts as [|t [|t' ts]]; simpl in Hn; try lia. reflexivity.
Qed.

(** The events of the attempts of one call: no further call, and requests
    that all carry its payload. *)
Lemma call_llm_attempts_events cfg payload attempts : forall w,
  exists evs m,
    snd (call_llm_attempts endpoint cfg payload attempts w) = add_events w evs
    /\ calls_of evs = []
    /\ requests_of evs = repeat payload m.
Proof.
  induction attempts as [|a rest IH]; intros w.
  - exists [], O. simpl. now rewrite add_events_nil.
  - rewrite call_llm_attempts_step.
    assert (Hone : exists evs m,
               add_events w [Request payload] = add_events w evs
               /\ calls_of evs = [] /\ requests_of evs = repeat payload m)
      by (exists [Request payload], 1%nat; auto).
    destruct (attempt_outcome endpoint payload (requests_sent w)) as [v|e];
      [exact Hone|].
    destruct (retried cfg a e); [|exact Hone].
    destruct (float_pow (BACKOFF_BASE cfg) a) as [d|e']; [|exact Hone].
    destruct (sleep_accepts d); [|exact Hone].
    destruct (IH (add_events w [Request payload; Sleep d]))
      as (evs & m & -> & Hc & Hr).
    exists ([Request payload; Sleep d] ++ evs), (S m).
    rewrite add_events_app, calls_of_app, requests_of_app, Hc, Hr.
    auto.
Qed.


Lemma py_slice_length {A} (l : list A) (lo hi : Z) :
  0 <= lo <= hi ->
  Z.of_nat (length (py_slice l lo hi))
  = Z.min hi (Z.of_nat (length l)) - Z.min lo (Z.of_nat (length l)).
Proof.
  intros H. replace hi with (lo + (hi - lo)) at 1 by lia.
  rewrite py_slice_window by lia.
  rewrite length_firstn, length_skipn. lia.
Qed.

(** C8: a transcript of 9000 characters with chunks of 4000 gives three
    chunks of 4000, 4000 and 1000 characters and one call per chunk, in
    order; the three answers make one group of three, reduced by one call,
    and one final call follows, whose text is the result. *)
Theorem nine_thousand_characters
        (cfg : Config) (reply : nat -> Payload -> str)
        (summary_model lang transcript : str) (w : World) :
  1 <= RETRIES cfg ->
  always_replies endpoint reply ->
  DEFAULT_CHUNK_SIZE cfg = 4000 ->
  Z.of_nat (length transcript) = 9000 ->
  let k := requests_sent w in
  let c1 := py_slice transcript 0 4000 in
  let c2 := py_slice transcript 4000 8000 in
  let c3 := py_slice transcript 8000 12000 in
  let p1 := part_payload cfg summary_model lang c1 in
  let p2 := part_payload cfg summary_model lang c2 in
  let p3 := part_payload cfg summary_model lang c3 in
  let partial := [reply k p1; reply (k + 1)%nat p2; reply (k + 2)%nat p3] in
  let group := reduce_payload cfg summary_model lang partial in
  let reduced := [reply (k + 3)%nat group] in
  let final := final_payload cfg summary_model lang reduced in
  chunk_text transcript 4000 = Ok [c1; c2; c3]
  /\ map (fun c => Z.of_nat (length c)) [c1; c2; c3] = [4000; 4000; 1000]
  /\ group_size 3 = 3
  /\ reduce_groups partial = [partial]
  /\ summarize endpoint cfg summary_model transcript lang w
     = (Ok (PStr (reply (k + 4)%nat final)),
        add_events w (calls_trace [p1; p2; p3; group; final])).
Proof.
  intros HR Hrep Hsize Hlen k c1 c2 c3 p1 p2 p3 partial group reduced final.
  assert (Hw : windows transcript 4000 = [c1; c2; c3]).
  { unfold windows. rewrite Hlen. reflexivity. }
  split; [|split; [|split; [|split]]].
  - rewrite chunk_text_windows by lia. now rewrite Hw.
  - subst c1 c2 c3. cbn [map].
    rewrite !py_slice_length, Hlen by lia. reflexivity.
  - reflexivity.
  - reflexivity.
  - unfold summarize. unfold bind.
    rewrite (summarize_parts_run cfg reply) by (try assumption; lia).
    rewrite Hsize, Hw. cbn [map replies_from]. fold k p1 p2 p3.
    replace (S k) with (k + 1)%nat by lia.
    replace (S (k + 1)) with (k + 2)%nat by lia.
    change [PStr (reply k p1); PStr (reply (k + 1)%nat p2);
            PStr (reply (k + 2)%nat p3)] with (map PStr partial).
    rewrite (summarize_final_two_step_run cfg reply) by assumption.
    change (reduce_groups partial) with [partial].
    cbn [map replies_from length].
    rewrite !requests_sent_add, !calls_trace_requests. cbn [length].
    fold k. fold group.
    replace (k + 3 + 1)%nat with (k + 4)%nat by lia.
    fold reduced. fold final.
    now rewrite add_events_app, <- calls_trace_app.
Qed.

End MapReduce.

(** ** The stage cache *)

(** Reading in text mode leaves no carriage return, so that reading a
    text twice is reading it once. *)
Lemma universal_newlines_no_cr s :
  has_cr s = false -> universal_newlines s = s.
Proof.
  induction s as [|c s IH]; [reflexivity|]. unfold has_cr. simpl.
  rewrite orb_false_iff. intros [Hc Hs].
  rewrite Hc. f_equal. now apply IH.
Qed.

(** The translation of newlines, two characters ahead. *)
Lemma universal_newlines_clean n : forall s,
  (length s <= n)%nat -> has_cr (universal_newlines s) = false.
Proof.
  induction n as [|n IH]; intros s Hn.
  - destruct s; [reflexivity | simpl in Hn; lia].
  - destruct s as [|c s]; [reflexivity|]. simpl in Hn.
    cbn [universal_newlines].
    destruct (N.eqb_spec c 13) as [->|Hc].
    + destruct s as [|d s]; [reflexivity|].
      unfold has_cr. cbn [existsb]. change (10 =? 13)%N with false.
      cbn [orb].
      destruct (d =? 10)%N.
      * apply IH. simpl in Hn. lia.
      * apply IH. simpl in *. lia.
    + unfold has_cr. cbn [existsb].
      destruct (N.eqb_spec c 13) as [E|_]; [congruence|].
      apply IH. lia.
Qed.

Lemma universal_newlines_has_no_cr (s : str) :
  has_cr (universal_newlines s) = false.
Proof. apply (universal_newlines_clean (length s)). lia. Qed.

Lemma universal_newlines_idempotent (s : str) :
  universal_newlines (universal_newlines s) = universal_newlines s.
Proof. apply universal_newlines_no_cr, universal_newlines_has_no_cr. Qed.

Section StageCache.
Context {U : Unicode} {R : Runtime}.
Variable endpoint : nat -> Payload -> Result PyVal.
Variable removable : Path -> bool.
Variable whisper_transcribe : Path -> Path -> option str -> M unit.
Variable find_biggest_txt : Path -> M Path.

Lemma str_eqb_refl (s : str) : str_eqb s s = true.
Proof. now apply str_eqb_eq. Qed.

Lemma set_file_same fs p text : set_file fs p text p = text.
Proof. unfold set_file. now rewrite str_eqb_refl. Qed.

(** A successful write leaves the text in the file. *)
Lemma write_text_utf8_ok path v w w' :
  write_text_utf8 path v w = (Ok tt, w') ->
  exists s, v = PStr s /\ files w' path = Some s.
Proof.
  destruct v; try discriminate. simpl.
  destruct (existsb is_surrogate s); [discriminate|].
  intros [= <-]. exists s. simpl. now rewrite set_file_same.
Qed.

Lemma summary_stage_reuse cfg summary_model transcript lang summary_file
      w text answer rest :
  files w summary_file = Some text ->
  stdin w = answer :: rest ->
  accepts answer = true ->
  summary_stage endpoint removable cfg summary_model transcript lang
                summary_file w
  = (Ok (PStr (universal_newlines text)),
     {| trace := trace w; files := files w; stdin := rest |}).
Proof.
  intros Hf Hin Hacc.
  unfold summary_stage, bind, path_exists, input, read_text_utf8, ret.
  rewrite Hf, Hin, Hacc. cbn [files]. now rewrite Hf.
Qed.

(** Without the artifact the stage runs the map and reduce stages and
    writes what they return. *)
Lemma summary_stage_creates cfg summary_model transcript lang summary_file w :
  files w summary_file = None ->
  summary_stage endpoint removable cfg summary_model transcript lang
                summary_file w
  = bind (summarize endpoint cfg summary_model transcript lang)
         (fun final_summary =>
            bind (write_text_utf8 summary_file final_summary)
                 (fun _ => ret final_summary)) w.
Proof.
  intros Hf. unfold summary_stage, summarize, bind at 1, path_exists.
  rewrite Hf. unfold bind.
  destruct (summarize_parts _ _ _ _ _ _ w) as [[partial|e] w2]; reflexivity.
Qed.

(** A completed run of the stage returns a text and leaves an artifact that
    reads back as that text with its newlines translated; a run that found
    no artifact leaves the very text that it returns. *)
Lemma summary_stage_persists cfg summary_model transcript lang summary_file
      w0 v1 w1 :
  summary_stage endpoint removable cfg summary_model transcript lang
                summary_file w0
  = (Ok v1, w1) ->
  exists s1 text,
    v1 = PStr s1
    /\ files w1 summary_file = Some text
    /\ universal_newlines text = universal_newlines s1
    /\ (files w0 summary_file = None -> text = s1).
Proof.
  unfold summary_stage.
  set (create :=
         bind (summarize_parts endpoint cfg summary_model transcript
                               (DEFAULT_CHUNK_SIZE cfg) lang)
              (fun partial =>
                 bind (summarize_final_two_step endpoint cfg summary_model
                                                partial lang)
                      (fun final_summary =>
                         bind (write_text_utf8 summary_file final_summary)
                              (fun _ => ret final_summary)))).
  assert (Hcreate : forall w,
             create w = (Ok v1, w1) ->
             exists s1, v1 = PStr s1 /\ files w1 summary_file = Some s1).
  { intros w. unfold create, bind.
    destruct (summarize_parts _ _ _ _ _ _ w) as [[partial|e] w2];
      [|discriminate].
    destruct (summarize_final_two_step _ _ _ _ _ w2) as [[final|e] w3];
      [|discriminate].
    destruct (write_text_utf8 summary_file final w3) as [[[]|e] w4] eqn:Hw;
      [|discriminate].
    unfold ret. intros [= <- <-].
    apply write_text_utf8_ok in Hw as (s & -> & Hs).
    exists s. auto. }
  assert (Hfresh : forall w,
             create w = (Ok v1, w1) ->
             exists s1 text,
               v1 = PStr s1
               /\ files w1 summary_file = Some text
               /\ universal_newlines text = universal_newlines s1
               /\ (files w0 summary_file = None -> text = s1)).
  { intros w Hw. destruct (Hcreate w Hw) as (s1 & -> & Hs).
    exists s1, s1. auto. }
  unfold bind at 1, path_exists.
  destruct (files w0 summary_file) as [text|] eqn:Hf; [|apply Hfresh].
  unfold bind at 1, input.
  destruct (stdin w0) as [|answer rest]; [discriminate|].
  destruct (accepts answer).
  - unfold bind, read_text_utf8, ret. cbn [files]. rewrite Hf.
    intros [= <- <-]. exists (universal_newlines text), text. cbn [files].
    split; [reflexivity|]. split; [assumption|].
    split; [now rewrite universal_newlines_idempotent | discriminate].
  - unfold bind at 1, unlink_quietly. apply Hfresh.
Qed.

Lemma transcript_stage_reuse wav_path out_dir transcript_file lang
      w text answer rest :
  files w transcript_file = Some text ->
  stdin w = answer :: rest ->
  accepts answer = true ->
  transcript_stage removable whisper_transcribe find_biggest_txt
                   wav_path out_dir transcript_file lang w
  = (Ok (universal_newlines text),
     {| trace := trace w; files := files w; stdin := rest |}).
Proof.
  intros Hf Hin Hacc.
  unfold transcript_stage, bind, path_exists, input, read_text_utf8.
  rewrite Hf, Hin, Hacc. cbn [files]. now rewrite Hf.
Qed.

(** The transcript that a completed run returns has been read in text
    mode: the artifact that the run leaves reads back as that transcript,
    and a run that found no artifact leaves the transcript itself. *)
Lemma transcript_stage_persists wav_path out_dir transcript_file lang
      w0 t1 w1 :
  transcript_stage removable whisper_transcribe find_biggest_txt
                   wav_path out_dir transcript_file lang w0
  = (Ok t1, w1) ->
  exists text,
    files w1 transcript_file = Some text
    /\ universal_newlines text = t1
    /\ (files w0 transcript_file = None -> text = t1).
Proof.
  unfold transcript_stage.
  set (create :=
         bind (whisper_transcribe wav_path out_dir (Some lang))
              (fun _ =>
                 bind (find_biggest_txt out_dir)
                      (fun transcript_txt =>
                         bind (read_text_utf8 transcript_txt)
                              (fun transcript =>
                                 bind (write_text_utf8 transcript_file
                                                       (PStr transcript))
                                      (fun _ => ret transcript))))).
  assert (Hcreate : forall w,
             create w = (Ok t1, w1) ->
             exists text, files w1 transcript_file = Some text
                          /\ universal_newlines text = t1
                          /\ (files w0 transcript_file = None -> text = t1)).
  { intros w. unfold create, bind.
    destruct (whisper_transcribe _ _ _ w) as [[[]|e] w2]; [|discriminate].
    destruct (find_biggest_txt out_dir w2) as [[txt|e] w3]; [|discriminate].
    unfold read_text_utf8 at 1.
    destruct (files w3 txt) as [raw|]; [|discriminate].
    destruct (write_text_utf8 transcript_file
                              (PStr (universal_newlines raw)) w3)
      as [[[]|e] w5] eqn:Hw; [|discriminate].
    unfold ret. intros [= <- <-].
    apply write_text_utf8_ok in Hw as (s & [= <-] & Hs).
    exists (universal_newlines raw). split; [assumption|].
    split; [apply universal_newlines_idempotent | reflexivity]. }
  unfold bind at 1, path_exists.
  destruct (files w0 transcript_file) as [text|] eqn:Hf; [|apply Hcreate].
  unfold bind at 1, input.
  destruct (stdin w0) as [|answer rest]; [discriminate|].
  destruct (accepts answer).
  - unfold read_text_utf8. cbn [files]. rewrite Hf.
    intros [= <- <-]. exists text. cbn [files].
    split; [assumption|]. split; [reflexivity | discriminate].
  - unfold bind at 1, unlink_quietly. apply Hcreate.
Qed.

Lemma translation_stage_reuse cfg translate_model final_summary lang
      summary_pl_file w text answer rest :
  files w summary_pl_file = Some text ->
  stdin w = answer :: rest ->
  accepts answer = true ->
  translation_stage endpoint removable cfg translate_model final_summary lang
                    summary_pl_file w
  = (Ok tt,
     if str_eqb lang (utf8 "en")
     then {| trace := trace w; files := files w; stdin := rest |}
     else w).
Proof.
  intros Hf Hin Hacc. unfold translation_stage.
  destruct (str_eqb lang (utf8 "en")); [|reflexivity].
  unfold bind, path_exists, input, ret.
  rewrite Hf, Hin, Hacc. cbn [negb files]. now rewrite Hf.
Qed.

(** C5, amended: when a stage finds its artifact and the user accepts to
    reuse it, the stage leaves the trace and the files as they were, so
    that no call and no request is made, and the transcript and summary
    stages return the content of the artifact as it is read in text mode,
    with every ["\r\n"] and ["\r"] turned into ["\n"]: the content itself
    exactly when it holds no carriage return.  After a first, completed run
    that returned a text, and that left this very text as the artifact
    when it found none, the second run returns that text with its newlines
    translated; for the transcript, which the first run has itself read in
    text mode, that is the text of the first run, unchanged. *)
Theorem stage_cache_reuse
        (cfg : Config) (summary_model translate_model transcript lang : str)
        (wav_path out_dir transcript_file summary_file summary_pl_file : Path)
        (final_summary : str) (w : World) (answer : str) (rest : list str) :
  stdin w = answer :: rest ->
  accepts answer = true ->
  let w' := {| trace := trace w; files := files w; stdin := rest |} in
  (forall text,
      files w summary_file = Some text ->
      summary_stage endpoint removable cfg summary_model transcript lang
                    summary_file w
      = (Ok (PStr (universal_newlines text)), w')
      /\ (universal_newlines text = text <-> has_cr text = false))
  /\ (forall w0 v1 w1,
         summary_stage endpoint removable cfg summary_model transcript lang
                       summary_file w0
         = (Ok v1, w1) ->
         files w = files w1 ->
         exists s1,
           v1 = PStr s1
           /\ (files w0 summary_file = None ->
               files w1 summary_file = Some s1)
           /\ summary_stage endpoint removable cfg summary_model transcript
                            lang summary_file w
              = (Ok (PStr (universal_newlines s1)), w'))
  /\ (forall text,
         files w transcript_file = Some text ->
         transcript_stage removable whisper_transcribe find_biggest_txt
                          wav_path out_dir transcript_file lang w
         = (Ok (universal_newlines text), w')
         /\ (universal_newlines text = text <-> has_cr text = false))
  /\ (forall w0 t1 w1,
         transcript_stage removable whisper_transcribe find_biggest_txt
                          wav_path out_dir transcript_file lang w0
         = (Ok t1, w1) ->
         files w = files w1 ->
         (files w0 transcript_file = None ->
          files w1 transcript_file = Some t1)
         /\ transcript_stage removable whisper_transcribe find_biggest_txt
                             wav_path out_dir transcript_file lang w
            = (Ok t1, w'))
  /\ (forall text,
         files w summary_pl_file = Some text ->
         translation_stage endpoint removable cfg translate_model
                           final_summary lang summary_pl_file w
         = (Ok tt, if str_eqb lang (utf8 "en") then w' else w))
  /\ trace w' = trace w /\ files w' = files w.
Proof.
  intros Hin Hacc w'.
  assert (Hcr : forall text,
             universal_newlines text = text <-> has_cr text = false).
  { intros text. split; [|apply universal_newlines_no_cr].
    intros E. rewrite <- E. apply universal_newlines_has_no_cr. }
  split; [|split; [|split; [|split; [|split]]]].
  - intros text Hf. split; [|apply Hcr].
    now apply summary_stage_reuse with (answer := answer).
  - intros w0 v1 w1 Hrun Hfiles.
    apply summary_stage_persists in Hrun as (s1 & text & -> & Hf & Hn & Hnew).
    exists s1. split; [reflexivity|]. split.
    + intros H0. now rewrite <- (Hnew H0).
    + rewrite <- Hn.
      apply summary_stage_reuse with (answer := answer); try assumption.
      now rewrite Hfiles.
  - intros text Hf. split; [|apply Hcr].
    now apply transcript_stage_reuse with (answer := answer).
  - intros w0 t1 w1 Hrun Hfiles.
    apply transcript_stage_persists in Hrun as (text & Hf & Hn & Hnew).
    split.
    + intros H0. now rewrite <- (Hnew H0).
    + rewrite <- Hn.
      apply transcript_stage_reuse with (answer := answer); try assumption.
      now rewrite Hfiles.
  - intros text Hf.
    now apply translation_stage_reuse with (text := text) (answer := answer).
  - split; reflexivity.
Qed.

End StageCache.

(** ** The theorems at work on concrete runs *)

Lemma default_delays_accepted hi :
  hi <= 4 -> delays_accepted Exact.default_config Exact.delay 1 hi.
Proof.
  intros H a Ha.
  assert (Hcases : a = 1 \/ a = 2 \/ a = 3) by lia.
  destruct Hcases as [E|[E|E]]; subst a; split; reflexivity.
Qed.

Lemma call_llm_always_503_witness :
  1 <= RETRIES Exact.default_config
  /\ call_llm Exact.busy Exact.default_config (utf8 "m") [] 600
              (TEMP_SUMMARY Exact.default_config) Exact.empty_world
     = (Raise (RuntimeError (utf8 "LM Studio HTTP 503: busy")),
        let p := {| model := utf8 "m"; messages := [];
                    temperature := TEMP_SUMMARY Exact.default_config;
                    max_tokens := 600 |} in
        add_events Exact.empty_world
          [Call p; Request p; Sleep (Exact.delay 1);
           Request p; Sleep (Exact.delay 2);
           Request p; Sleep (Exact.delay 3); Request p]).
Proof.
  assert (HR : 1 <= RETRIES Exact.default_config) by (simpl; lia).
  split; [exact HR|].
  exact (proj1 (@call_llm_always_503
                  Exact.runtime Exact.busy Exact.default_config Exact.delay
                  (fun _ _ => utf8 "busy") (utf8 "m") [] 600
                  (TEMP_SUMMARY Exact.default_config) Exact.empty_world
                  HR (default_delays_accepted 4 ltac:(lia))
                  (fun _ _ => eq_refl))).
Defined.

Lemma call_llm_fails_fast_witness :
  ~ In 404 [429; 500; 503; 504]
  /\ call_llm Exact.busy_then_missing Exact.default_config (utf8 "m") [] 600
              (TEMP_SUMMARY Exact.default_config) Exact.empty_world
     = (Raise (RuntimeError (utf8 "LM Studio HTTP 404: no such model")),
        let p := {| model := utf8 "m"; messages := [];
                    temperature := TEMP_SUMMARY Exact.default_config;
                    max_tokens := 600 |} in
        add_events Exact.empty_world
          [Call p; Request p; Sleep (Exact.delay 1); Request p]).
Proof.
  assert (Hcode : ~ In 404 [429; 500; 503; 504])
    by (simpl; intuition discriminate).
  split; [exact Hcode|].
  refine (@call_llm_fails_fast
            Exact.runtime Exact.busy_then_missing Exact.default_config
            Exact.delay (utf8 "m") [] 600
            (TEMP_SUMMARY Exact.default_config) Exact.empty_world
            1%nat 404 (utf8 "no such model") _ _ _ eq_refl Hcode).
  - simpl. lia.
  - intros i Hi. assert (i = O) as -> by lia.
    exists (HTTPError 503 (utf8 "busy")). split; reflexivity.
  - apply default_delays_accepted. simpl. lia.
Defined.


Lemma summarizer_always_replies :
  always_replies Exact.summarizer Exact.numbered.
Proof. intros k p. reflexivity. Qed.

Lemma reduce_stage_grouping_witness :
  1 <= RETRIES Exact.default_config
  /\ always_replies Exact.summarizer Exact.numbered
  /\ map (@length str)
         (reduce_groups (map utf8 ["a"; "b"; "c"; "d"; "e"; "f"; "g"]%string))
     = [4; 3]%nat
  /\ fst (summarize_final_two_step
            Exact.summarizer Exact.default_config (utf8 "m")
            (map PStr (map utf8 ["a"; "b"; "c"; "d"; "e"; "f"; "g"]%string))
            (utf8 "en") Exact.empty_world)
     = Ok (PStr (utf8 "summary 2")).
Proof.
  assert (HR : 1 <= RETRIES Exact.default_config) by (simpl; lia).
  split; [exact HR|]. split; [exact summarizer_always_replies|].
  split; [reflexivity|].
  rewrite (proj1 (proj2 (proj2 (proj2
             (@reduce_stage_grouping
                Exact.runtime Exact.summarizer Exact.default_config
                Exact.numbered (utf8 "m") (utf8 "en")
                (map utf8 ["a"; "b"; "c"; "d"; "e"; "f"; "g"]%string)
                Exact.empty_world HR summarizer_always_replies))))).
  do 2 f_equal; vm_compute; reflexivity.
Defined.

Lemma nine_thousand_characters_witness :
  Z.of_nat (length (repeat 97%N (Z.to_nat 9000))) = 9000
  /\ fst (summarize Exact.summarizer Exact.default_config (utf8 "m")
                    (repeat 97%N (Z.to_nat 9000)) (utf8 "en")
                    Exact.empty_world)
     = Ok (PStr (utf8 "summary 4"))
  /\ length (requests_of
               (trace (snd (summarize Exact.summarizer Exact.default_config
                                      (utf8 "m") (repeat 97%N (Z.to_nat 9000))
                                      (utf8 "en") Exact.empty_world))))
     = 5%nat.
Proof.
  assert (Hlen : Z.of_nat (length (repeat 97%N (Z.to_nat 9000))) = 9000)
    by (rewrite repeat_length; lia).
  split; [exact Hlen|].
  assert (HR : 1 <= RETRIES Exact.default_config) by (simpl; lia).
  pose proof (proj2 (proj2 (proj2 (proj2
           (@nine_thousand_characters
              Exact.runtime Exact.summarizer Exact.default_config
              Exact.numbered (utf8 "m") (utf8 "en")
              (repeat 97%N (Z.to_nat 9000)) Exact.empty_world
              HR summarizer_always_replies eq_refl Hlen))))) as E.
  cbv zeta in E. rewrite E. split.
  - cbn [fst]. do 2 f_equal; vm_compute; reflexivity.
  - reflexivity.
Defined.

Lemma stage_cache_reuse_witness :
  let cfg := Exact.default_config in
  let summary_file := utf8 "summary_final.txt" in
  let first :=
    @summary_stage Latin.tables Exact.runtime Exact.summarizer
                   Scenarios.removable cfg
                   (utf8 "m") (utf8 "hello") (utf8 "en") summary_file
                   Exact.empty_world in
  let w := {| trace := trace (snd first);
              files := files (snd first);
              stdin := [utf8 "T"] |} in
  @accepts Latin.tables (utf8 "T") = true
  /\ fst first = Ok (PStr (utf8 "summary 2"))
  /\ files (snd first) summary_file = Some (utf8 "summary 2")
  /\ @summary_stage Latin.tables Exact.runtime Exact.summarizer
                    Scenarios.removable cfg
                    (utf8 "m") (utf8 "hello") (utf8 "en") summary_file w
     = (Ok (PStr (utf8 "summary 2")),
        {| trace := trace w; files := files w; stdin := [] |}).
Proof.
  intros cfg summary_file first w.
  assert (Hacc : @accepts Latin.tables (utf8 "T") = true) by reflexivity.
  assert (Hfst : fst first = Ok (PStr (utf8 "summary 2")))
    by (vm_compute; reflexivity).
  assert (Hrun : first = (Ok (PStr (utf8 "summary 2")), snd first))
    by (rewrite <- Hfst; apply surjective_pairing).
  split; [exact Hacc|]. split; [exact Hfst|].
  destruct (proj1 (proj2 (@stage_cache_reuse
                     Latin.tables Exact.runtime Exact.summarizer
                     Scenarios.removable
                     (fun _ _ _ => ret tt) (fun p => ret p)
                     cfg (utf8 "m") (utf8 "m") (utf8 "hello") (utf8 "en")
                     (utf8 "audio.wav") (utf8 "out") (utf8 "transcript.txt")
                     summary_file (utf8 "summary_final_pl.txt") (utf8 "")
                     w (utf8 "T") [] eq_refl Hacc))
                  Exact.empty_world _ _ Hrun eq_refl)
    as (s1 & Hs1 & Hfile & Hsecond).
  injection Hs1 as <-.
  split; [exact (Hfile eq_refl)|].
  exact Hsecond.
Defined.

(** C5, as stated, fails: the summary ["a\rb"] is returned by the first run
    and left as the artifact, and the second run, which takes the
    artifact, returns ["a\nb"]. *)
Lemma summary_rerun_translates_newlines :
  let cfg := Exact.default_config in
  let summary_file := utf8 "summary_final.txt" in
  let first :=
    @summary_stage Latin.tables Exact.runtime Scenarios.carriage
                   Scenarios.removable cfg
                   (utf8 "m") (utf8 "hello") (utf8 "en") summary_file
                   Exact.empty_world in
  let w := {| trace := trace (snd first);
              files := files (snd first);
              stdin := [utf8 "T"] |} in
  let second :=
    @summary_stage Latin.tables Exact.runtime Scenarios.carriage
                   Scenarios.removable cfg
                   (utf8 "m") (utf8 "hello") (utf8 "en") summary_file w in
  @accepts Latin.tables (utf8 "T") = true
  /\ fst first = Ok (PStr [97; 13; 98]%N)
  /\ files (snd first) summary_file = Some [97; 13; 98]%N
  /\ fst second = Ok (PStr [97; 10; 98]%N)
  /\ fst second <> Ok (PStr [97; 13; 98]%N)
  /\ trace (snd second) = trace w.
Proof.
  intros cfg summary_file first w second.
  assert (H2 : fst second = Ok (PStr [97; 10; 98]%N))
    by (vm_compute; reflexivity).
  split; [reflexivity|].
  split; [vm_compute; reflexivity|].
  split; [vm_compute; reflexivity|].
  split; [exact H2|].
  split; [rewrite H2; discriminate|].
  vm_compute. reflexivity.
Qed.

(** ** More on the completion client *)

Section ClientBounds.
Context {R : Runtime}.
Variable endpoint : nat -> Payload -> Result PyVal.

(** The attempts from [a] to [RETRIES]: a request, then a sleep and a
    request for every attempt that is retried. *)
Lemma call_llm_attempts_shape cfg payload n : forall a w,
  a + Z.of_nat (S n) = RETRIES cfg + 1 ->
  exists delays,
    snd (call_llm_attempts endpoint cfg payload (range_items a 1 (S n)) w)
    = add_events w (retry_trace payload delays)
    /\ (length delays <= n)%nat
    /\ (forall i d, nth_error delays i = Some d ->
                    float_pow (BACKOFF_BASE cfg) (a + Z.of_nat i) = Ok d
                    /\ sleep_accepts d = true).
Proof.
  induction n as [|n IH]; intros a w Ha.
  - assert (Hone : exists delays,
               add_events w [Request payload]
               = add_events w (retry_trace payload delays)
               /\ (length delays <= 0)%nat
               /\ (forall i d, nth_error delays i = Some d ->
                      float_pow (BACKOFF_BASE cfg) (a + Z.of_nat i) = Ok d
                      /\ sleep_accepts d = true)).
    { exists []. split; [reflexivity|]. split; [simpl; lia|].
      intros [|i] d; discriminate. }
    rewrite range_items_cons, call_llm_attempts_step.
    destruct (attempt_outcome endpoint payload (requests_sent w)) as [v|e];
      [exact Hone|].
    destruct (retried cfg a e) eqn:Hr; [|exact Hone].
    exfalso.
    assert (Hlt : a < RETRIES cfg).
    { destruct e; cbn [retried] in Hr;
        try apply andb_true_iff in Hr as [_ Hr]; now apply Z.ltb_lt in Hr. }
    lia.
  - assert (Hone : exists delays,
               add_events w [Request payload]
               = add_events w (retry_trace payload delays)
               /\ (length delays <= S n)%nat
               /\ (forall i d, nth_error delays i = Some d ->
                      float_pow (BACKOFF_BASE cfg) (a + Z.of_nat i) = Ok d
                      /\ sleep_accepts d = true)).
    { exists []. split; [reflexivity|]. split; [simpl; lia|].
      intros [|i] d; discriminate. }
    rewrite range_items_cons, call_llm_attempts_step.
    destruct (attempt_outcome endpoint payload (requests_sent w)) as [v|e];
      [exact Hone|].
    destruct (retried cfg a e) eqn:Hr; [|exact Hone].
    destruct (float_pow (BACKOFF_BASE cfg) a) as [d|e'] eqn:Hpow;
      [|exact Hone].
    destruct (sleep_accepts d) eqn:Hsleep; [|exact Hone].
    destruct (IH (a + 1) (add_events w [Request payload; Sleep d])
                 ltac:(lia))
      as (delays & -> & Hlen & Hd).
    exists (d :: delays). rewrite add_events_app. split; [reflexivity|].
    split; [simpl; lia|].
    intros [|i] d' Hi.
    + injection Hi as <-. rewrite Z.add_0_r. auto.
    + replace (a + Z.of_nat (S i)) with (a + 1 + Z.of_nat i) by lia.
      now apply Hd.
Qed.

(** X1: whatever the endpoint answers, a call of [call_llm] starts no other
    call and leaves the files and the console input untouched.  With
    [RETRIES] below 1 it sends nothing.  Otherwise its events are a request,
    followed by a sleep and a request for every retry: at most [RETRIES]
    requests, all of them with the same payload, exactly one sleep between
    two consecutive requests and none before the first or after the last;
    the [i]-th sleep lasts [BACKOFF_BASE ** i]. *)
Theorem call_llm_request_bound
        (cfg : Config) (model_id : str) (messages : list Message)
        (max_tokens : Z) (temperature : float) (w : World) :
  let payload := {| model := model_id; messages := messages;
                    temperature := temperature;
                    max_tokens := max_tokens |} in
  let run := call_llm endpoint cfg model_id messages max_tokens temperature w in
  exists evs m,
    trace (snd run) = trace w ++ Call payload :: evs
    /\ calls_of evs = []
    /\ requests_of evs = repeat payload m
    /\ Z.of_nat m <= Z.max 0 (RETRIES cfg)
    /\ length (sleeps_of evs) = (m - 1)%nat
    /\ files (snd run) = files w
    /\ stdin (snd run) = stdin w
    /\ ((RETRIES cfg < 1 /\ evs = [])
        \/ (1 <= RETRIES cfg
            /\ exists delays,
                 evs = retry_trace payload delays
                 /\ m = S (length delays)
                 /\ forall i d,
                      nth_error delays i = Some d ->
                      float_pow (BACKOFF_BASE cfg) (1 + Z.of_nat i) = Ok d
                      /\ sleep_accepts d = true)).
Proof.
  intros payload run. subst run. rewrite call_llm_unfold. fold payload.
  unfold py_range.
  destruct (Z.le_gt_cases 1 (RETRIES cfg)) as [Hge|Hlt].
  - rewrite range_len_unit by lia.
    replace (Z.to_nat (RETRIES cfg + 1 - 1))
      with (S (Z.to_nat (RETRIES cfg - 1))) by lia.
    destruct (call_llm_attempts_shape cfg payload
                (Z.to_nat (RETRIES cfg - 1)) 1
                (add_events w [Call payload]) ltac:(lia))
      as (delays & -> & Hlen & Hd).
    exists (retry_trace payload delays), (S (length delays)).
    rewrite add_events_app. cbn [add_events trace files stdin app].
    rewrite retry_trace_requests, retry_trace_sleeps.
    split; [reflexivity|]. split.
    { unfold retry_trace. rewrite calls_of_app. cbn.
      clear. induction delays as [|d ds IH]; [reflexivity|]. exact IH. }
    split; [reflexivity|]. split; [lia|]. split; [lia|].
    split; [reflexivity|]. split; [reflexivity|].
    right. split; [exact Hge|]. exists delays. auto.
  - assert (range_len 1 (RETRIES cfg + 1) 1 = 0) as ->.
    { unfold range_len. simpl. destruct (Z.ltb_spec 1 (RETRIES cfg + 1)); lia. }
    exists [], O. simpl.
    repeat (split; [first [reflexivity | lia]|]).
    left. split; [lia|reflexivity].
Qed.

(** X2: when the first [k < RETRIES] attempts fail with errors that are
    retried and the next attempt draws a response of the expected shape,
    [call_llm] returns the content of that response after [k + 1] requests
    and [k] sleeps of [BACKOFF_BASE ** 1], ..., [BACKOFF_BASE ** k]. *)
Theorem call_llm_succeeds_after_retries
        (cfg : Config) (delay : Z -> float)
        (model_id : str) (messages : list Message) (max_tokens : Z)
        (temperature : float) (w : World) (k : nat) (text : PyVal) :
  let payload := {| model := model_id; messages := messages;
                    temperature := temperature;
                    max_tokens := max_tokens |} in
  Z.of_nat k < RETRIES cfg ->
  (forall i, (i < k)%nat -> exists e,
      attempt_outcome endpoint payload (requests_sent w + i) = Raise e
      /\ retried cfg (1 + Z.of_nat i) e = true) ->
  delays_accepted cfg delay 1 (1 + Z.of_nat k) ->
  attempt_outcome endpoint payload (requests_sent w + k) = Ok text ->
  call_llm endpoint cfg model_id messages max_tokens temperature w
  = (Ok text,
     add_events w (Call payload
                     :: retry_trace payload
                          (map delay (py_range 1 (Z.of_nat k + 1))))).
Proof.
  intros payload Hk Hfail Hdel Hresp.
  rewrite call_llm_unfold. fold payload.
  rewrite (py_range_split k) by assumption.
  unfold py_range. rewrite range_len_unit by lia.
  replace (Z.to_nat (Z.of_nat k + 1 - 1)) with k by lia.
  rewrite call_llm_attempts_retried with (delay := delay).
  - rewrite call_llm_attempts_step, add_events_app.
    rewrite requests_sent_add, requests_of_app, length_app. unfold backoff.
    assert (E : forall ds, length (requests_of
               (flat_map (fun d => [Request payload; Sleep d]) ds))
                 = length ds)
      by (induction ds; simpl; auto).
    rewrite E, length_map, range_items_length. simpl length.
    rewrite Nat.add_0_l, Hresp.
    now rewrite add_events_app.
  - intros i Hi. rewrite requests_sent_call. now apply Hfail.
  - exact Hdel.
Qed.

Lemma seq_index_zero {A} (l : list A) :
  seq_index l 0 = match l with [] => Raise IndexError | x :: _ => Ok x end.
Proof.
  unfold seq_index. destruct l as [|x l]; [reflexivity|].
  cbn [Z.ltb Z.compare orb length].
  destruct (Z.leb_spec (Z.of_nat (S (length l))) 0); [lia|]. reflexivity.
Qed.

(** X3: the subscripts [out["choices"][0]["message"]["content"]] succeed
    exactly on a dictionary whose ["choices"] is a list with a dictionary
    as its first item, whose ["message"] is a dictionary with a key
    ["content"]; the value under that key is returned, whatever its type. *)
Theorem response_content_shape (out v : PyVal) :
  response_content out = Ok v
  <-> exists items fields rest message,
        out = PDict items
        /\ dict_get items (utf8 "choices") = Some (PList (PDict fields :: rest))
        /\ dict_get fields (utf8 "message") = Some (PDict message)
        /\ dict_get message (utf8 "content") = Some v.
Proof.
  split.
  - unfold response_content. intros H.
    destruct out as [| | | | |l|items]; try discriminate.
    cbn [py_getitem] in H.
    destruct (dict_get items (utf8 "choices")) as [choices|] eqn:E1;
      [|discriminate].
    cbn [rbind] in H.
    destruct choices as [| | | |s|l|d]; try discriminate.
    + cbn [py_getitem] in H.
      destruct (seq_index s 0); cbn [rbind py_getitem] in H; discriminate.
    + cbn [py_getitem] in H. rewrite seq_index_zero in H.
      destruct l as [|choice rest]; [discriminate|]. cbn [rbind] in H.
      destruct choice as [| | | | |l'|fields]; try discriminate.
      cbn [py_getitem] in H.
      destruct (dict_get fields (utf8 "message")) as [message|] eqn:E2;
        [|discriminate].
      cbn [rbind] in H.
      destruct message as [| | | | |l'|msg]; try discriminate.
      cbn [py_getitem] in H.
      destruct (dict_get msg (utf8 "content")) as [c|] eqn:E3;
        [|discriminate].
      injection H as <-.
      exists items, fields, rest, msg. auto.
  - intros (items & fields & rest & message & -> & E1 & E2 & E3).
    unfold response_content. cbn [py_getitem]. rewrite E1. cbn [rbind py_getitem].
    rewrite seq_index_zero. cbn [rbind py_getitem]. rewrite E2.
    cbn [rbind py_getitem]. now rewrite E3.
Qed.

End ClientBounds.

(** ** More on the chunker, the map stage and the reduce stage *)

Lemma chunk_text_negative_size (text : str) (size : Z) :
  size < 0 -> chunk_text text size = Ok [].
Proof.
  intros H. rewrite chunk_text_windows by lia. unfold windows, range_len.
  destruct (Z.ltb_spec 0 size); [lia|].
  destruct (Z.ltb_spec (Z.of_nat (length text)) 0); [lia|]. reflexivity.
Qed.

Lemma chunk_text_empty (size : Z) : size <> 0 -> chunk_text [] size = Ok [].
Proof.
  intros H. rewrite chunk_text_windows by assumption.
  unfold windows, range_len. simpl length.
  now destruct (0 <? size).
Qed.

(** X4: the sizes outside the positive ones: [chunk_text] raises
    [ValueError] for size 0 (the step of [range]), returns no chunk at all
    for a negative size, whatever the text, and returns the text as its only
    chunk when the text is not empty and not longer than the size. *)
Theorem chunk_text_edge_sizes (text : str) (size : Z) :
  (size = 0 -> chunk_text text size = Raise ValueError)
  /\ (size < 0 -> chunk_text text size = Ok [])
  /\ (0 < Z.of_nat (length text) <= size -> chunk_text text size = Ok [text]).
Proof.
  split; [|split].
  - intros ->. reflexivity.
  - apply chunk_text_negative_size.
  - intros H. rewrite chunk_text_windows by lia. unfold windows.
    assert (range_len 0 (Z.of_nat (length text)) size = 1) as ->.
    { rewrite range_len_pos by lia. now rewrite Z.div_small by lia. }
    change (Z.to_nat 1) with 1%nat. unfold range_items. cbn [seq map].
    rewrite py_slice_window by lia.
    replace (Z.to_nat (0 + Z.of_nat 0 * size)) with O by lia.
    rewrite skipn_O, firstn_all2 by lia. reflexivity.
Qed.

Section MapStage.
Context {R : Runtime}.
Variable endpoint : nat -> Payload -> Result PyVal.

Lemma replies_from_nth_error reply ps : forall k i p,
  nth_error ps i = Some p ->
  nth_error (replies_from reply k ps) i = Some (reply (k + i)%nat p).
Proof.
  induction ps as [|q ps IH]; intros k i p H.
  - destruct i; discriminate.
  - destruct i as [|i]; simpl in *.
    + injection H as ->. now rewrite Nat.add_0_r.
    + rewrite (IH (S k) i p H). do 2 f_equal. lia.
Qed.

Lemma replies_from_len reply ps : forall k,
  length (replies_from reply k ps) = length ps.
Proof.
  induction ps as [|q ps IH]; intros k; simpl; [reflexivity|].
  now rewrite IH.
Qed.

(** X5: when every request is answered with text, [summarize_parts]
    returns one partial summary per chunk, in the order of the chunks: the
    [i]-th is the answer to the [i]-th request of the stage, whose payload
    holds the [i]-th chunk, and the stage makes one call of one request per
    chunk and nothing else. *)
Theorem summarize_parts_keeps_order
        (cfg : Config) (reply : nat -> Payload -> str)
        (model_id text : str) (chunk_size : Z) (lang : str) (w : World) :
  1 <= RETRIES cfg ->
  always_replies endpoint reply ->
  chunk_size <> 0 ->
  let chunks := windows text chunk_size in
  let run := summarize_parts endpoint cfg model_id text chunk_size lang w in
  exists partials,
    fst run = Ok (map PStr partials)
    /\ length partials = length chunks
    /\ (forall i chunk,
           nth_error chunks i = Some chunk ->
           nth_error partials i
           = Some (reply (requests_sent w + i)%nat
                         (part_payload cfg model_id lang chunk)))
    /\ trace (snd run)
       = trace w ++ calls_trace (map (part_payload cfg model_id lang) chunks).
Proof.
  intros HR Hrep Hsize chunks run. subst run.
  rewrite (summarize_parts_run endpoint cfg reply) by assumption.
  fold chunks. cbn [fst snd].
  exists (replies_from reply (requests_sent w)
                       (map (part_payload cfg model_id lang) chunks)).
  split; [reflexivity|]. split; [|split].
  - now rewrite replies_from_len, length_map.
  - intros i chunk Hi. apply replies_from_nth_error.
    rewrite nth_error_map. subst chunks. unfold str in *. now rewrite Hi.
  - reflexivity.
Qed.

(** A loop of calls that are answered as long as they fall among the
    requests numbered from [requests_sent w] to below [stop]. *)
Lemma for_each_calls_until {A} cfg reply (pay : A -> Payload)
      (body : A -> M PyVal) (stop : nat) :
  1 <= RETRIES cfg ->
  (forall k p, (k < stop)%nat ->
               attempt_outcome endpoint p k = Ok (PStr (reply k p))) ->
  (forall x w,
      body x w
      = call_llm endpoint cfg (model (pay x)) (messages (pay x))
                 (max_tokens (pay x)) (temperature (pay x)) w) ->
  forall xs w,
    (requests_sent w + length xs <= stop)%nat ->
    for_each xs body w
    = (Ok (map PStr (replies_from reply (requests_sent w) (map pay xs))),
       add_events w (calls_trace (map pay xs))).
Proof.
  intros HR Hrep Hbody. induction xs as [|x xs IH]; intros w Hstop.
  - simpl. unfold ret. now rewrite add_events_nil.
  - cbn [for_each]. unfold bind at 1. rewrite Hbody.
    simpl length in Hstop.
    rewrite (call_llm_first_reply endpoint cfg _ _ _ _ w
               (PStr (reply (requests_sent w) (pay x)))) by
        (try assumption; destruct (pay x); apply Hrep; lia).
    unfold bind at 1. rewrite IH.
    + unfold ret. rewrite add_events_app, requests_sent_add. simpl.
      replace (requests_sent w + 1)%nat with (S (requests_sent w)) by lia.
      destruct (pay x); reflexivity.
    + rewrite requests_sent_add. simpl. lia.
Qed.

(** A loop stops at the first element whose body raises. *)
Lemma for_each_raise {A B} (body : A -> M B) pre x post w rs w1 e w2 :
  for_each pre body w = (Ok rs, w1) ->
  body x w1 = (Raise e, w2) ->
  for_each (pre ++ x :: post) body w = (Raise e, w2).
Proof.
  revert w rs. induction pre as [|y pre IH]; intros w rs Hpre Hx.
  - simpl in Hpre. unfold ret in Hpre. injection Hpre as <- <-.
    cbn [app for_each]. unfold bind. now rewrite Hx.
  - cbn [app for_each] in *. unfold bind at 1 in Hpre. unfold bind at 1.
    destruct (body y w) as [[v|e'] w']; [|discriminate].
    unfold bind at 1 in Hpre. unfold bind at 1.
    destruct (for_each pre body w') as [[vs|e'] w''] eqn:E; [|discriminate].
    unfold ret in Hpre. injection Hpre as _ ->.
    now rewrite (IH w' vs E Hx).
Qed.

(** X6: the map stage stops at the first chunk whose request draws an
    HTTP status outside 429, 500, 503 and 504: the partial summaries of the
    chunks before it are dropped, the error with the status and the body is
    raised, and no request is sent for the chunks after it. *)
Theorem summarize_parts_stops_at_failure
        (cfg : Config) (reply : nat -> Payload -> str)
        (model_id text : str) (chunk_size : Z) (lang : str) (w : World)
        (pre : list str) (chunk : str) (post : list str)
        (code : Z) (body : str) :
  1 <= RETRIES cfg ->
  chunk_text text chunk_size = Ok (pre ++ chunk :: post) ->
  (forall k p, (k < requests_sent w + length pre)%nat ->
               attempt_outcome endpoint p k = Ok (PStr (reply k p))) ->
  endpoint (requests_sent w + length pre)%nat
           (part_payload cfg model_id lang chunk)
  = Raise (HTTPError code body) ->
  ~ In code [429; 500; 503; 504] ->
  let sent := map (part_payload cfg model_id lang) pre in
  let failed := part_payload cfg model_id lang chunk in
  summarize_parts endpoint cfg model_id text chunk_size lang w
  = (Raise (RuntimeError (http_error_message code body)),
     add_events w (calls_trace sent ++ [Call failed; Request failed])).
Proof.
  intros HR Hchunks Hrep Hfail Hcode sent failed.
  unfold summarize_parts. rewrite Hchunks. unfold bind at 1, lift at 1.
  eapply for_each_raise.
  - apply (for_each_calls_until cfg reply (part_payload cfg model_id lang))
      with (stop := (requests_sent w + length pre)%nat);
      try assumption; try (intros; reflexivity); lia.
  - fold sent.
    rewrite call_llm_unfold.
    change {| model := model_id;
              messages := _;
              temperature := TEMP_SUMMARY cfg;
              max_tokens := PART_MAX cfg |} with failed.
    unfold py_range. rewrite range_len_unit by lia.
    replace (Z.to_nat (RETRIES cfg + 1 - 1))
      with (S (Z.to_nat (RETRIES cfg) - 1)) by lia.
    rewrite range_items_cons, call_llm_attempts_step.
    rewrite requests_sent_call, requests_sent_add, calls_trace_requests.
    unfold sent. rewrite length_map.
    unfold attempt_outcome. fold failed in Hfail. rewrite Hfail.
    cbn [rbind retried]. apply is_transient_spec in Hcode. rewrite Hcode.
    cbn [andb final_error]. now rewrite !add_events_app.
Qed.

End MapStage.

(** X7: every group of the reduce stage holds at least one and at most
    four partial summaries, and no more than the group size chosen for their
    number. *)
Theorem reduce_groups_bounded {A} (partials : list A) (group : list A) :
  In group (reduce_groups partials) ->
  (1 <= length group <= 4)%nat
  /\ Z.of_nat (length group) <= group_size (Z.of_nat (length partials)).
Proof.
  intros Hin. unfold reduce_groups in *.
  set (n := Z.of_nat (length partials)) in *.
  destruct (windows_partition partials (group_size n) (group_size_pos n))
    as (_ & _ & Hfull & Hlast & _).
  assert (Hgs : group_size n = 3 \/ group_size n = 4).
  { unfold group_size. destruct (n <=? 6), (n <=? 12); auto. }
  apply In_nth_error in Hin as (i & Hi).
  assert (Hlt : (i < length (windows partials (group_size n)))%nat)
    by (apply nth_error_Some; congruence).
  destruct (Nat.eq_dec (S i) (length (windows partials (group_size n))))
    as [E|E].
  - replace i with (length (windows partials (group_size n)) - 1)%nat in Hi
      by lia.
    destruct (Hlast group Hi) as [B _]. lia.
  - pose proof (Hfull i group Hi ltac:(lia)). lia.
Qed.

Section ReduceStage.
Context {R : Runtime}.
Variable endpoint : nat -> Payload -> Result PyVal.

Lemma py_join_ok sep items t :
  py_join sep items = Ok t -> Forall is_text_value items.
Proof.
  revert t. induction items as [|v items IH]; intros t H; [constructor|].
  destruct v; try discriminate. cbn [py_join] in H.
  constructor; [now exists s|].
  destruct items as [|v' items']; [constructor|].
  destruct (py_join sep (v' :: items')) as [t'|e] eqn:E; [|discriminate].
  now apply (IH t').
Qed.

(** A loop that returns has run its body to the end on every element. *)
Lemma for_each_ok {A B} (body : A -> M B) : forall xs w ys w',
  for_each xs body w = (Ok ys, w') ->
  forall x, In x xs -> exists w1 y w2, body x w1 = (Ok y, w2).
Proof.
  induction xs as [|x0 xs IH]; intros w ys w' H x Hx; [destruct Hx|].
  cbn [for_each] in H. unfold bind at 1 in H.
  destruct (body x0 w) as [[y|e] w1] eqn:E0; [|discriminate].
  unfold bind at 1 in H.
  destruct (for_each xs body w1) as [[ys'|e] w2] eqn:E1; [|discriminate].
  destruct Hx as [<-|Hx].
  - now exists w, y, w1.
  - now apply (IH w1 ys' w2 E1).
Qed.

(** X8: [summarize_final_two_step] returns only if every partial summary
    is a [str]: a partial summary of another type, such as the [None] of a
    response whose content is [null], makes the join of its group raise. *)
Theorem summarize_final_two_step_needs_texts
        (cfg : Config) (model_id : str) (partial_summaries : list PyVal)
        (lang : str) (w : World) (final_summary : PyVal) (w' : World) :
  summarize_final_two_step endpoint cfg model_id partial_summaries lang w
  = (Ok final_summary, w') ->
  forall partial, In partial partial_summaries -> exists s, partial = PStr s.
Proof.
  unfold summarize_final_two_step.
  set (n := Z.of_nat (length partial_summaries)).
  intros H.
  unfold py_range3 in H.
  destruct (Z.eqb_spec (group_size n) 0) as [E|_];
    [pose proof (group_size_pos n); lia|].
  unfold bind at 1, lift at 1 in H. unfold bind at 1 in H.
  match type of H with
  | context [for_each ?xs ?body w] =>
      destruct (for_each xs body w) as [[reduced|e] w1] eqn:Hloop;
        [|discriminate];
      pose proof (for_each_ok body xs w reduced w1 Hloop) as Hall
  end.
  clear H Hloop.
  assert (Hgroups : forall g, In g (windows partial_summaries (group_size n))
                              -> Forall is_text_value g).
  { intros g Hg. unfold windows in Hg. apply in_map_iff in Hg as (i & <- & Hi).
    destruct (Hall i Hi) as (w2 & y & w3 & Hbody).
    unfold bind at 1, lift at 1 in Hbody.
    destruct (py_join newline
                (py_slice partial_summaries i (i + group_size n)))
      as [t|e] eqn:Hj; [|discriminate].
    eapply py_join_ok, Hj. }
  destruct (windows_partition partial_summaries (group_size n)
                              (group_size_pos n)) as (Hcat & _).
  intros partial Hin. rewrite <- Hcat in Hin.
  apply in_concat in Hin as (g & Hg & Hp).
  specialize (Hgroups g Hg). rewrite Forall_forall in Hgroups.
  exact (Hgroups partial Hp).
Qed.

(** X9: with an empty transcript (and a chunk size other than 0), or with
    a negative chunk size, the map and reduce stages of [main] come to a
    single call of [call_llm], on the final prompt filled with the empty
    string. *)
Theorem summarize_without_chunks
        (cfg : Config) (summary_model transcript lang : str) (w : World) :
  (transcript = [] /\ DEFAULT_CHUNK_SIZE cfg <> 0)
  \/ DEFAULT_CHUNK_SIZE cfg < 0 ->
  summarize endpoint cfg summary_model transcript lang w
  = call_llm endpoint cfg summary_model (final_messages lang [])
             (FINAL_MAX cfg) (TEMP_SUMMARY cfg) w.
Proof.
  intros H.
  assert (Hchunks : chunk_text transcript (DEFAULT_CHUNK_SIZE cfg) = Ok []).
  { destruct H as [[-> Hne]|Hneg].
    - now apply chunk_text_empty.
    - now apply chunk_text_negative_size. }
  unfold summarize, summarize_parts. rewrite Hchunks. reflexivity.
Qed.

(** What the stages do to the world: they add events and nothing else. *)
Lemma for_each_adds_events {A B} (body : A -> M B) :
  (forall x w, exists evs, snd (body x w) = add_events w evs) ->
  forall xs w, exists evs, snd (for_each xs body w) = add_events w evs.
Proof.
  intros Hbody. induction xs as [|x xs IH]; intros w.
  - exists []. simpl. now rewrite add_events_nil.
  - cbn [for_each]. unfold bind at 1.
    destruct (Hbody x w) as (evs1 & H1).
    destruct (body x w) as [[y|e] w1]; cbn [snd] in H1; subst w1;
      [|now exists evs1].
    unfold bind at 1.
    destruct (IH (add_events w evs1)) as (evs2 & H2).
    destruct (for_each xs body (add_events w evs1)) as [[ys|e] w2];
      cbn [snd] in H2; subst w2; unfold ret; cbn [snd];
      exists (evs1 ++ evs2); now rewrite add_events_app.
Qed.

Lemma call_llm_adds_events cfg model_id messages max_tokens temperature w :
  exists evs,
    snd (call_llm endpoint cfg model_id messages max_tokens temperature w)
    = add_events w evs.
Proof.
  rewrite call_llm_unfold.
  match goal with
  | |- context [call_llm_attempts endpoint cfg ?p ?l ?w0] =>
      destruct (call_llm_attempts_events endpoint cfg p l w0)
        as (evs & m & -> & _)
  end.
  eexists. now rewrite add_events_app.
Qed.

Lemma summarize_parts_adds_events cfg model_id text chunk_size lang w :
  exists evs,
    snd (summarize_parts endpoint cfg model_id text chunk_size lang w)
    = add_events w evs.
Proof.
  unfold summarize_parts. unfold bind at 1, lift at 1.
  destruct (chunk_text text chunk_size) as [parts|e].
  - apply for_each_adds_events. intros part w0. apply call_llm_adds_events.
  - exists []. simpl. now rewrite add_events_nil.
Qed.

Lemma summarize_final_two_step_adds_events cfg model_id partials lang w :
  exists evs,
    snd (summarize_final_two_step endpoint cfg model_id partials lang w)
    = add_events w evs.
Proof.
  unfold summarize_final_two_step. unfold bind at 1, lift at 1.
  destruct (py_range3 _ _ _) as [starts|e];
    [|exists []; simpl; now rewrite add_events_nil].
  unfold bind at 1.
  match goal with
  | |- context [for_each starts ?body w] =>
      destruct (for_each_adds_events body) with (xs := starts) (w := w)
        as (evs1 & H1);
      [|destruct (for_each starts body w) as [[reduced|e] w1]]
  end.
  - intros i w0. unfold bind at 1, lift at 1.
    destruct (py_join _ _) as [items|e];
      [apply call_llm_adds_events
      |exists []; simpl; now rewrite add_events_nil].
  - cbn [snd] in H1. subst w1. unfold bind at 1, lift at 1.
    destruct (py_join newline reduced) as [items|e].
    + destruct (call_llm_adds_events cfg model_id (final_messages lang items)
                  (FINAL_MAX cfg) (TEMP_SUMMARY cfg) (add_events w evs1))
        as (evs2 & ->).
      exists (evs1 ++ evs2). now rewrite add_events_app.
    + now exists evs1.
  - cbn [snd] in H1. now exists evs1.
Qed.

Lemma summarize_adds_events cfg summary_model transcript lang w :
  exists evs,
    snd (summarize endpoint cfg summary_model transcript lang w)
    = add_events w evs.
Proof.
  unfold summarize, bind.
  destruct (summarize_parts_adds_events cfg summary_model transcript
              (DEFAULT_CHUNK_SIZE cfg) lang w) as (evs1 & H1).
  destruct (summarize_parts _ _ _ _ _ _ w) as [[partial|e] w1];
    cbn [snd] in H1; subst w1; [|now exists evs1].
  destruct (summarize_final_two_step_adds_events cfg summary_model partial
              lang (add_events w evs1)) as (evs2 & ->).
  exists (evs1 ++ evs2). now rewrite add_events_app.
Qed.

End ReduceStage.

Section NoAttempt.
Context {R : Runtime}.
Variable endpoint : nat -> Payload -> Result PyVal.

Lemma for_each_no_attempt cfg model_id lang (chunks : list str) : forall w,
  RETRIES cfg < 1 ->
  for_each chunks
           (fun part =>
              call_llm endpoint cfg model_id (part_messages lang part)
                       (PART_MAX cfg) (TEMP_SUMMARY cfg)) w
  = (Ok (map (fun _ => PNone) chunks),
     add_events w (map (fun part => Call (part_payload cfg model_id lang part))
                       chunks)).
Proof.
  intros w HR. revert w. induction chunks as [|c chunks IH]; intros w.
  - cbn. unfold ret, add_events. rewrite app_nil_r. now destruct w.
  - cbn [for_each]. unfold bind at 1.
    rewrite call_llm_no_attempt by assumption.
    unfold bind at 1. rewrite IH. unfold ret. cbn [map].
    rewrite add_events_app. reflexivity.
Qed.

(** X10: with [RETRIES] below 1 every call of [call_llm] returns [None]
    without a request, so for a transcript that is not empty (and a positive
    chunk size) the map stage makes one such call per chunk and the reduce
    stage raises [TypeError] on joining its first group: no request is
    sent. *)
Theorem summarize_without_attempts
        (cfg : Config) (summary_model transcript lang : str) (w : World) :
  RETRIES cfg < 1 ->
  0 < DEFAULT_CHUNK_SIZE cfg ->
  transcript <> [] ->
  let chunks := windows transcript (DEFAULT_CHUNK_SIZE cfg) in
  summarize endpoint cfg summary_model transcript lang w
  = (Raise TypeError,
     add_events w (map (fun part =>
                          Call (part_payload cfg summary_model lang part))
                       chunks))
  /\ chunks <> [].
Proof.
  intros HR Hsize Htext chunks.
  assert (Hchunks : chunks <> []).
  { subst chunks. intros E.
    apply (proj2 (proj2 (proj2 (proj2
             (windows_partition transcript _ Hsize))))) in E.
    contradiction. }
  split; [|exact Hchunks].
  unfold summarize, summarize_parts.
  rewrite chunk_text_windows by lia. fold chunks.
  unfold bind at 1. unfold bind at 1, lift.
  change (fun part : str =>
            call_llm endpoint cfg summary_model
              [system_message
                 (if is_pl lang then Prompts.part_system_pl
                  else Prompts.part_system_en);
               user_message
                 (format (if is_pl lang then Prompts.part_user_pl
                          else Prompts.part_user_en) part)]
              (PART_MAX cfg) (TEMP_SUMMARY cfg))
    with (fun part : str =>
            call_llm endpoint cfg summary_model (part_messages lang part)
                     (PART_MAX cfg) (TEMP_SUMMARY cfg)).
  rewrite for_each_no_attempt by assumption.
  unfold summarize_final_two_step. rewrite length_map.
  unfold py_range3, lift.
  match goal with
  | |- context [group_size ?len] => set (n := len)
  end.
  assert (Hn : 0 < n).
  { subst n. destruct chunks; [congruence | simpl; lia]. }
  assert (Hg : 0 < group_size n) by apply group_size_pos.
  destruct (Z.eqb_spec (group_size n) 0); [lia|].
  assert (Hlen : exists m, Z.to_nat (range_len 0 n (group_size n)) = S m).
  { rewrite range_len_pos by lia.
    pose proof (Z.div_pos (n - 1) (group_size n) ltac:(lia) Hg).
    exists (Z.to_nat ((n - 1) / group_size n)). lia. }
  destruct Hlen as [m ->]. rewrite range_items_cons.
  assert (Hjoin : forall nones : list PyVal,
             nones = map (fun _ => PNone) chunks ->
             py_join newline (py_slice nones 0 (0 + group_size n))
             = Raise TypeError).
  { intros nones ->. rewrite py_slice_window by lia. cbn [Z.to_nat skipn].
    destruct chunks as [|c rest]; [congruence|].
    destruct (Z.to_nat (group_size n)) eqn:E; [lia|]. reflexivity. }
  assert (Hcons : forall (x : Z) xs (body : Z -> M PyVal),
             for_each (x :: xs) body
             = bind (body x)
                    (fun y => bind (for_each xs body)
                                   (fun ys => ret (y :: ys))))
    by reflexivity.
  unfold bind at 1. rewrite Hcons. unfold bind.
  rewrite Hjoin by reflexivity. reflexivity.
Qed.

End NoAttempt.

(** ** More on artifacts and the stages of [main] *)

Section Artifacts.
Context {U : Unicode} {R : Runtime}.
Variable endpoint : nat -> Payload -> Result PyVal.
Variable removable : Path -> bool.

Lemma set_file_other fs p text q : q <> p -> set_file fs p text q = fs q.
Proof.
  intros H. unfold set_file.
  destruct (str_eqb q p) eqn:E; [apply str_eqb_eq in E; congruence|].
  reflexivity.
Qed.

(** X11: writing a text without lone surrogates with [write_text_utf8] and
    reading the file back with [read_text_utf8] gives the text with every
    ["\r\n"] and ["\r"] turned into ["\n"], hence the text itself exactly
    when it holds no carriage return; no other file, and nothing else of
    the world, is changed. *)
Theorem write_then_read_text (path : Path) (text : str) (w : World) :
  existsb is_surrogate text = false ->
  let written := snd (write_text_utf8 path (PStr text) w) in
  fst (write_text_utf8 path (PStr text) w) = Ok tt
  /\ read_text_utf8 path written = (Ok (universal_newlines text), written)
  /\ (read_text_utf8 path written = (Ok text, written)
      <-> has_cr text = false)
  /\ (forall other, other <> path -> files written other = files w other)
  /\ trace written = trace w
  /\ stdin written = stdin w.
Proof.
  intros Hs written. subst written. cbn [write_text_utf8]. rewrite Hs.
  cbn [fst snd]. unfold read_text_utf8. cbn [files trace stdin].
  rewrite set_file_same.
  split; [reflexivity|]. split; [reflexivity|]. split; [|split; [|split]].
  - split.
    + intros [= E]. rewrite <- E. apply universal_newlines_has_no_cr.
    + intros Hcr. now rewrite universal_newlines_no_cr.
  - intros other Ho. now apply set_file_other.
  - reflexivity.
  - reflexivity.
Qed.

(** X12: when the final summary holds a lone surrogate, step [4/4] of
    [main] raises [UnicodeEncodeError] after the requests of the
    summarisation, and leaves an empty [summary_final.txt]; a later run that
    takes this file gets the empty summary. *)
Theorem summary_stage_leaves_empty_artifact
        (cfg : Config) (summary_model transcript lang : str)
        (summary_file : Path) (w : World) (final_summary : str) (w1 : World) :
  files w summary_file = None ->
  summarize endpoint cfg summary_model transcript lang w
  = (Ok (PStr final_summary), w1) ->
  existsb is_surrogate final_summary = true ->
  let failed :=
    summary_stage endpoint removable cfg summary_model transcript lang
                  summary_file w in
  fst failed = Raise UnicodeEncodeError
  /\ files (snd failed) summary_file = Some []
  /\ trace (snd failed) = trace w1
  /\ (forall next answer rest,
         files next = files (snd failed) ->
         stdin next = answer :: rest ->
         accepts answer = true ->
         fst (summary_stage endpoint removable cfg summary_model transcript
                            lang summary_file next)
         = Ok (PStr [])).
Proof.
  intros Hf Hrun Hs failed.
  assert (E : failed
              = (Raise UnicodeEncodeError,
                 {| trace := trace w1;
                    files := set_file (files w1) summary_file (Some []);
                    stdin := stdin w1 |})).
  { subst failed. rewrite summary_stage_creates by assumption.
    unfold bind at 1. rewrite Hrun. unfold bind at 1.
    cbn [write_text_utf8]. now rewrite Hs. }
  rewrite E. cbn [fst snd files trace].
  split; [reflexivity|]. split; [apply set_file_same|].
  split; [reflexivity|].
  intros next answer rest Hfiles Hin Hacc.
  rewrite (summary_stage_reuse endpoint removable cfg summary_model
             transcript lang summary_file next [] answer rest);
    try assumption.
  - reflexivity.
  - rewrite Hfiles. apply set_file_same.
Qed.

(** X13: when the user declines the existing [summary_final.txt] and the
    summarisation then fails, step [4/4] of [main] raises the error of the
    summarisation.  The file that was declined is gone if the file system
    let it be removed; if not, the failure to remove it has been swallowed
    and the file is still there, unchanged. *)
Theorem summary_stage_declined_then_failed
        (cfg : Config) (summary_model transcript lang : str)
        (summary_file : Path) (w : World) (old : str)
        (answer : str) (rest : list str) (e : Exn) (w1 : World) :
  files w summary_file = Some old ->
  stdin w = answer :: rest ->
  accepts answer = false ->
  summarize endpoint cfg summary_model transcript lang
            {| trace := trace w;
               files := if removable summary_file
                        then set_file (files w) summary_file None
                        else files w;
               stdin := rest |}
  = (Raise e, w1) ->
  summary_stage endpoint removable cfg summary_model transcript lang
                summary_file w
  = (Raise e, w1)
  /\ files w1 summary_file
     = if removable summary_file then None else Some old.
Proof.
  intros Hf Hin Hacc Hrun.
  set (declined := {| trace := trace w;
                      files := if removable summary_file
                               then set_file (files w) summary_file None
                               else files w;
                      stdin := rest |}) in *.
  destruct (summarize_adds_events endpoint cfg summary_model transcript lang
                                  declined) as (evs & Hevs).
  rewrite Hrun in Hevs. cbn [snd] in Hevs.
  split.
  - unfold summary_stage. unfold bind at 1, path_exists. rewrite Hf.
    unfold bind at 1, input. rewrite Hin, Hacc.
    unfold bind at 1, unlink_quietly. cbn [trace files stdin].
    assert (Hw : (if removable summary_file
                  then {| trace := trace w;
                          files := set_file (files w) summary_file None;
                          stdin := rest |}
                  else {| trace := trace w; files := files w;
                          stdin := rest |})
                 = declined)
      by (unfold declined; destruct (removable summary_file); reflexivity).
    rewrite Hw.
    unfold summarize in Hrun. unfold bind in Hrun. unfold bind.
    destruct (summarize_parts _ _ _ _ _ _ _) as [[partial|e1] w2];
      [|exact Hrun].
    now rewrite Hrun.
  - rewrite Hevs. unfold declined. cbn [add_events files].
    destruct (removable summary_file); [apply set_file_same | exact Hf].
Qed.

(** X14: the translation step of [main] does nothing for a language other
    than ["en"].  For ["en"] without [summary_final_pl.txt] it asks once and,
    on the answer ["n"], sends nothing and writes nothing.  With the file
    and the answer ["n"] to the first question, it removes the file if the
    file system lets it, asks the second question and, on ["n"] again, sends
    nothing and writes nothing; if the file cannot be removed, it stays, and
    the step ends without the second question. *)
Theorem translation_stage_declined
        (cfg : Config) (translate_model final_summary lang : str)
        (summary_pl_file : Path) (w : World) :
  let run :=
    translation_stage endpoint removable cfg translate_model final_summary
                      lang summary_pl_file in
  (str_eqb lang (utf8 "en") = false -> run w = (Ok tt, w))
  /\ (forall answer rest,
         str_eqb lang (utf8 "en") = true ->
         files w summary_pl_file = None ->
         stdin w = answer :: rest ->
         accepts answer = false ->
         run w = (Ok tt, {| trace := trace w; files := files w;
                            stdin := rest |}))
  /\ (forall old first second rest,
         str_eqb lang (utf8 "en") = true ->
         files w summary_pl_file = Some old ->
         removable summary_pl_file = true ->
         stdin w = first :: second :: rest ->
         accepts first = false ->
         accepts second = false ->
         run w = (Ok tt, {| trace := trace w;
                            files := set_file (files w) summary_pl_file None;
                            stdin := rest |}))
  /\ (forall old first rest,
         str_eqb lang (utf8 "en") = true ->
         files w summary_pl_file = Some old ->
         removable summary_pl_file = false ->
         stdin w = first :: rest ->
         accepts first = false ->
         run w = (Ok tt, {| trace := trace w; files := files w;
                            stdin := rest |})).
Proof.
  intros run. subst run. unfold translation_stage. split; [|split; [|split]].
  - intros ->. reflexivity.
  - intros answer rest -> Hf Hin Hacc.
    unfold bind, path_exists, input, ret. rewrite Hf. cbn [negb].
    rewrite Hf. cbn [negb]. rewrite Hin, Hacc. reflexivity.
  - intros old first second rest -> Hf Hrm Hin H1 H2.
    unfold bind, path_exists, input, ret, unlink_quietly.
    rewrite Hf, Hin, H1, Hrm. cbn [negb files stdin trace].
    rewrite set_file_same. cbn [negb stdin]. rewrite H2. reflexivity.
  - intros old first rest -> Hf Hrm Hin H1.
    unfold bind, path_exists, input, ret, unlink_quietly.
    rewrite Hf, Hin, H1, Hrm. cbn [negb files stdin trace].
    rewrite Hf. reflexivity.
Qed.

(** X15: for ["en"], without [summary_final_pl.txt] and with an answer
    other than ["n"], the translation step makes one call of [call_llm] on
    the translation prompt and, when the first request is answered with a
    text without lone surrogates, writes that text to
    [summary_final_pl.txt]. *)
Theorem translation_stage_translates
        (cfg : Config) (translate_model final_summary : str)
        (summary_pl_file : Path) (w : World)
        (answer : str) (rest : list str) (final_pl : str) :
  1 <= RETRIES cfg ->
  files w summary_pl_file = None ->
  stdin w = answer :: rest ->
  accepts answer = true ->
  attempt_outcome endpoint
                  (translate_payload cfg translate_model final_summary)
                  (requests_sent w)
  = Ok (PStr final_pl) ->
  existsb is_surrogate final_pl = false ->
  let payload := translate_payload cfg translate_model final_summary in
  translation_stage endpoint removable cfg translate_model final_summary
                    (utf8 "en") summary_pl_file w
  = (Ok tt,
     {| trace := trace w ++ [Call payload; Request payload];
        files := set_file (files w) summary_pl_file (Some final_pl);
        stdin := rest |}).
Proof.
  intros HR Hf Hin Hacc Hout Hs payload.
  unfold translation_stage.
  assert (str_eqb (utf8 "en") (utf8 "en") = true) as -> by reflexivity.
  unfold bind at 1, path_exists. rewrite Hf.
  unfold bind at 1, ret. unfold bind at 1. cbn [files]. rewrite Hf. cbn [negb].
  unfold bind at 1, input. rewrite Hin, Hacc.
  unfold bind at 1, translate_to_pl.
  rewrite (call_llm_first_reply endpoint cfg _ _ _ _ _ (PStr final_pl) HR).
  - cbn [write_text_utf8]. rewrite Hs. reflexivity.
  - exact Hout.
Qed.

Variable whisper_transcribe : Path -> Path -> option str -> M unit.
Variable find_biggest_txt : Path -> M Path.

(** X16: a transcript that step [3/4] of [main] has returned is returned
    again, unchanged, by a later run that finds the same [transcript.txt]
    and takes it: the transcript was itself read in text mode, so reading
    it back does not alter it. *)
Theorem transcript_stage_rerun_same
        (wav_path out_dir transcript_file : Path) (lang : str)
        (w0 w1 : World) (t1 : str)
        (next : World) (answer : str) (rest : list str) :
  transcript_stage removable whisper_transcribe find_biggest_txt
                   wav_path out_dir transcript_file lang w0
  = (Ok t1, w1) ->
  files next transcript_file = files w1 transcript_file ->
  stdin next = answer :: rest ->
  accepts answer = true ->
  transcript_stage removable whisper_transcribe find_biggest_txt
                   wav_path out_dir transcript_file lang next
  = (Ok t1, {| trace := trace next; files := files next; stdin := rest |}).
Proof.
  intros Hrun Hfiles Hin Hacc.
  apply transcript_stage_persists in Hrun as (text & Hf & <- & _).
  apply (transcript_stage_reuse removable whisper_transcribe find_biggest_txt
           wav_path out_dir transcript_file lang next text answer rest);
    try assumption.
  now rewrite Hfiles.
Qed.

End Artifacts.

(** ** Start-up *)

Lemma seq_index_In {A} (l : list A) (i : Z) (x : A) :
  seq_index l i = Ok x -> In x l.
Proof.
  unfold seq_index.
  destruct (_ || _); [discriminate|].
  destruct (nth_error l _) eqn:E; [|discriminate].
  intros [= <-]. eapply nth_error_In; eassumption.
Qed.

Lemma seq_index_nth {A} (l : list A) (i : Z) :
  - Z.of_nat (length l) <= i < Z.of_nat (length l) ->
  exists x,
    nth_error l (Z.to_nat (i mod Z.of_nat (length l))) = Some x
    /\ seq_index l i = Ok x.
Proof.
  intros Hi. unfold seq_index.
  set (len := Z.of_nat (length l)) in *.
  assert (Hj : (if i <? 0 then i + len else i) = i mod len).
  { destruct (Z.ltb_spec i 0).
    - apply Z.mod_unique with (q := -1); lia.
    - symmetry. apply Z.mod_small. lia. }
  rewrite Hj.
  assert (0 <= i mod len < len) by (apply Z.mod_pos_bound; lia).
  destruct (Z.ltb_spec (i mod len) 0); [lia|].
  destruct (Z.leb_spec len (i mod len)); [lia|]. cbn [orb].
  destruct (nth_error l (Z.to_nat (i mod len))) as [x|] eqn:E.
  - now exists x.
  - apply nth_error_None in E. subst len. lia.
Qed.

Lemma seq_index_raises {A} (l : list A) (i : Z) (e : Exn) :
  seq_index l i = Raise e ->
  e = IndexError /\ ~ (- Z.of_nat (length l) <= i < Z.of_nat (length l)).
Proof.
  intros E. split.
  - unfold seq_index in E. destruct (_ || _); [congruence|].
    destruct (nth_error l _); congruence.
  - intros Hi. destruct (seq_index_nth l i Hi) as (x & _ & Hx). congruence.
Qed.

Lemma seq_index_range {A} (l : list A) (i : Z) (x : A) :
  seq_index l i = Ok x ->
  - Z.of_nat (length l) <= i < Z.of_nat (length l).
Proof.
  unfold seq_index.
  destruct (Z.ltb_spec i 0);
    match goal with
    | |- context [?j <? 0] => destruct (Z.ltb_spec j 0)
    end;
    match goal with
    | |- context [?n <=? ?j] => destruct (Z.leb_spec n j)
    end; cbn [orb]; try discriminate; intros _; lia.
Qed.

Section StartupFacts.
Context {U : Unicode} {R : Runtime}.
Variable py_int : str -> Result Z.

(** X17: [choose_from_list] reads one line and changes nothing else.  It
    returns one of the options or the default, the default only if it is
    not empty; it raises only [EOFError], when there is no line to read, or
    [IndexError], when there is no option and no usable default. *)
Theorem choose_from_list_outcomes
        (title : str) (options : list PyVal) (default : option str)
        (w : World) :
  let run := choose_from_list py_int title options default w in
  trace (snd run) = trace w
  /\ files (snd run) = files w
  /\ match fst run with
     | Ok choice =>
         (exists line, stdin w = line :: stdin (snd run))
         /\ (In choice options
             \/ exists d, default = Some d /\ d <> [] /\ choice = PStr d)
     | Raise e =>
         (e = EOFError /\ stdin w = [] /\ snd run = w)
         \/ (e = IndexError /\ options = [] /\ truthy default = false
             /\ exists line, stdin w = line :: stdin (snd run))
     end.
Proof.
  intros run. subst run. unfold choose_from_list, bind, input.
  destruct (stdin w) as [|line rest] eqn:Hin.
  - cbn [fst snd]. repeat split. left. repeat split.
  - assert (Hdef : truthy default = true ->
                   exists d, default = Some d /\ d <> []
                             /\ default_value default = PStr d).
    { destruct default as [[|c d]|]; try discriminate.
      intros _. exists (c :: d). repeat split. discriminate. }
    destruct (str_eqb (str_strip line) [] && truthy default) eqn:Hraw.
    + apply andb_prop in Hraw as [_ Ht]. apply Hdef in Ht as (d & -> & Hd & E).
      cbn. repeat split; [now exists line|].
      right. exists d. repeat split. exact Hd.
    + destruct (rbind (py_int (str_strip line)) _) as [opt|e] eqn:Hidx.
      * cbn. repeat split; [now exists line|]. left.
        destruct (py_int (str_strip line)) as [idx|]; [|discriminate].
        cbn in Hidx. eapply seq_index_In; eassumption.
      * destruct (truthy default) eqn:Ht.
        -- destruct (Hdef eq_refl) as (d & -> & Hd & E).
           cbn. repeat split; [now exists line|].
           right. exists d. repeat split. exact Hd.
        -- unfold lift. cbn [fst snd trace files stdin].
           destruct (seq_index options 0) as [opt|e0] eqn:H0.
           ++ repeat split; [now exists line|]. left.
              eapply seq_index_In; eassumption.
           ++ repeat split. right.
              apply seq_index_raises in H0 as [-> Hlen].
              repeat split; [|now exists line].
              destruct options; [reflexivity | simpl in Hlen; lia].
Qed.

(** X18: an answer that is not blank and that [int] reads as [idx], with
    [1 - len(options) <= idx <= len(options)], selects [options[idx - 1]]
    by Python's indexing: the numbers 1 to [len(options)] select the option
    printed with that number, 0 selects the last option and a negative
    number counts further back from the end. *)
Theorem choose_from_list_by_number
        (title : str) (options : list PyVal) (default : option str)
        (w : World) (line : str) (rest : list str) (idx : Z) :
  stdin w = line :: rest ->
  str_strip line <> [] ->
  py_int (str_strip line) = Ok idx ->
  1 - Z.of_nat (length options) <= idx <= Z.of_nat (length options) ->
  exists choice,
    nth_error options
              (Z.to_nat ((idx - 1) mod Z.of_nat (length options)))
    = Some choice
    /\ choose_from_list py_int title options default w
       = (Ok choice, {| trace := trace w; files := files w; stdin := rest |})
    /\ (idx = 0 -> nth_error options (length options - 1) = Some choice).
Proof.
  intros Hin Hraw Hidx Hrange.
  destruct (seq_index_nth options (idx - 1) ltac:(lia))
    as (choice & Hnth & Hsel).
  exists choice. split; [exact Hnth|]. split.
  - unfold choose_from_list, bind, input. rewrite Hin.
    destruct (str_eqb (str_strip line) []) eqn:He;
      [apply str_eqb_eq in He; congruence|].
    cbn [andb]. rewrite Hidx. cbn [rbind]. now rewrite Hsel.
  - intros ->. rewrite <- Hnth. f_equal.
    replace ((0 - 1) mod Z.of_nat (length options))
      with (Z.of_nat (length options) - 1).
    + lia.
    + apply Z.mod_unique with (q := -1); lia.
Qed.

(** X19: on Enter with a usable default, and on any answer that is not
    the number of an option in the sense of X18, [choose_from_list] returns
    the default when it is not [None] or empty, and otherwise the first
    option, raising [IndexError] when there is none. *)
Theorem choose_from_list_fallback
        (title : str) (options : list PyVal) (default : option str)
        (w : World) (line : str) (rest : list str) :
  stdin w = line :: rest ->
  (str_strip line = [] /\ truthy default = true)
  \/ (forall idx, py_int (str_strip line) = Ok idx ->
                  ~ (1 - Z.of_nat (length options) <= idx
                     <= Z.of_nat (length options))) ->
  choose_from_list py_int title options default w
  = (if truthy default then Ok (default_value default)
     else match options with
          | first :: _ => Ok first
          | [] => Raise IndexError
          end,
     {| trace := trace w; files := files w; stdin := rest |}).
Proof.
  intros Hin Hcase. unfold choose_from_list, bind, input. rewrite Hin.
  assert (Hfirst : seq_index options 0
                   = match options with
                     | first :: _ => Ok first
                     | [] => Raise IndexError
                     end).
  { destruct options; reflexivity. }
  destruct Hcase as [[He Ht]|Hbad].
  - rewrite He, Ht. reflexivity.
  - destruct (str_eqb (str_strip line) [] && truthy default) eqn:Hempty.
    + apply andb_prop in Hempty as [_ ->]. reflexivity.
    + assert (Hfail : exists e,
                 rbind (py_int (str_strip line))
                       (fun idx => seq_index options (idx - 1)) = Raise e).
      { destruct (py_int (str_strip line)) as [idx|e] eqn:Hidx.
        - cbn [rbind]. specialize (Hbad idx eq_refl).
          destruct (seq_index options (idx - 1)) as [x|e] eqn:E.
          + exfalso. apply Hbad. apply seq_index_range in E. lia.
          + now exists e.
        - now exists e. }
      destruct Hfail as [e ->].
      destruct (truthy default); [reflexivity|].
      unfold lift. now rewrite Hfirst.
Qed.

(** X20: [get_models] returns exactly when the response is a dictionary
    whose ["data"], if present, is a list of dictionaries with a key ["id"]
    (the values under that key are returned, in order), or an empty string
    or an empty dictionary (no model is returned); without ["data"] it
    returns no model.  On any other response it exits. *)
Theorem get_models_accepts (response : Result PyVal) (ids : list PyVal) :
  (get_models response = Returns ids
   <-> exists items,
         response = Ok (PDict items)
         /\ match dict_get items (utf8 "data") with
            | None => ids = []
            | Some (PList ms) =>
                Forall2 (fun m id =>
                           exists fields,
                             m = PDict fields
                             /\ dict_get fields (utf8 "id") = Some id)
                        ms ids
            | Some (PStr []) => ids = []
            | Some (PDict []) => ids = []
            | Some _ => False
            end)
  /\ (forall msg code, get_models response = Exits msg code -> code = 1).
Proof.
  split; [|unfold get_models, die;
           destruct (rbind response model_ids); intros msg code [=]; auto].
  assert (Hcomp : forall ms,
             comprehension (fun m => py_getitem m (KStr (utf8 "id"))) ms
             = Ok ids
             <-> Forall2 (fun m id =>
                            exists fields,
                              m = PDict fields
                              /\ dict_get fields (utf8 "id") = Some id)
                         ms ids).
  { intros ms. revert ids. induction ms as [|m ms IH]; intros ids.
    - cbn. split.
      + intros [= <-]. constructor.
      + intros H. inversion H. reflexivity.
    - cbn [comprehension]. split.
      + destruct (py_getitem m _) as [id|] eqn:Hm; [|discriminate].
        cbn [rbind].
        destruct (comprehension _ ms) as [rest|] eqn:Hrest; [|discriminate].
        cbn [rbind]. intros [= <-]. constructor.
        * destruct m; try discriminate. cbn in Hm.
          destruct (dict_get items _) eqn:Hg; [|discriminate].
          injection Hm as ->. now exists items.
        * now apply IH.
      + intros H. inversion H as [|? id ? rest (fields & -> & Hid) Hrest];
          subst.
        cbn [py_getitem]. rewrite Hid. cbn [rbind].
        apply IH in Hrest. rewrite Hrest. reflexivity. }
  assert (Hstr : forall s,
             comprehension (fun m => py_getitem m (KStr (utf8 "id")))
                           (map (fun c => PStr [c]) s) = Ok ids
             <-> s = [] /\ ids = []).
  { intros [|c s]; cbn.
    - split; [intros [= <-]; auto | intros [_ ->]; reflexivity].
    - split; [discriminate | intros [? _]; discriminate]. }
  assert (Hkeys : forall items : list (str * PyVal),
             comprehension (fun m => py_getitem m (KStr (utf8 "id")))
                           (map (fun item => PStr (fst item)) items) = Ok ids
             <-> items = [] /\ ids = []).
  { intros [|item items]; cbn.
    - split; [intros [= <-]; auto | intros [_ ->]; reflexivity].
    - split; [discriminate | intros [? _]; discriminate]. }
  unfold get_models, die. split.
  - destruct response as [data|e]; [|discriminate]. cbn [rbind].
    destruct (model_ids data) as [found|e] eqn:Hids; [|discriminate].
    intros [= ->]. unfold model_ids in Hids.
    destruct data; try discriminate. exists items. split; [reflexivity|].
    cbn [py_get rbind] in Hids.
    destruct (dict_get items (utf8 "data")) as [listed|].
    + destruct listed; try discriminate; cbn [py_iter rbind] in Hids.
      * apply Hstr in Hids as [-> ->]. reflexivity.
      * now apply Hcomp.
      * apply Hkeys in Hids as [-> ->]. reflexivity.
    + cbn in Hids. congruence.
  - intros (items & -> & Hshape). cbn [rbind]. unfold model_ids.
    cbn [py_get rbind].
    destruct (dict_get items (utf8 "data")) as [listed|].
    + destruct listed; try contradiction; cbn [py_iter rbind].
      * destruct s; [|contradiction]. subst. reflexivity.
      * apply Hcomp in Hshape. now rewrite Hshape.
      * destruct items0; [|contradiction]. subst. reflexivity.
    + subst. reflexivity.
Qed.

End StartupFacts.

(** ** The output directory *)

Section DirectoryFacts.
Context {U : Unicode} {R : Runtime}.
Variable glob : Path -> str -> M (list Path).
Variable stat_size : Path -> M Z.
Variable removable : Path -> bool.

Lemma for_each_unlink (ps : list Path) : forall w,
  for_each ps (unlink_quietly removable) w
  = (Ok (map (fun _ => tt) ps),
     {| trace := trace w;
        files := unlinked removable ps (files w);
        stdin := stdin w |}).
Proof.
  induction ps as [|p ps IH]; intros w.
  - destruct w; reflexivity.
  - cbn [for_each]. unfold bind at 1, unlink_quietly at 1.
    unfold bind at 1. rewrite IH. unfold unlinked. cbn [fold_left].
    destruct (removable p); reflexivity.
Qed.

Lemma unlinked_spec (ps : list Path) : forall fs q,
  unlinked removable ps fs q
  = if str_in q ps && removable q then None else fs q.
Proof.
  unfold unlinked.
  induction ps as [|p ps IH]; intros fs q; [reflexivity|].
  cbn [fold_left]. rewrite IH. unfold str_in. cbn [existsb].
  destruct (str_eqb q p) eqn:E; cbn [orb].
  - apply str_eqb_eq in E. subst p.
    destruct (removable q).
    + rewrite andb_true_r. unfold set_file. rewrite str_eqb_refl.
      now destruct (existsb (str_eqb q) ps).
    + now rewrite !andb_false_r.
  - destruct (existsb (str_eqb q) ps && removable q); [reflexivity|].
    destruct (removable p); [|reflexivity].
    unfold set_file. now rewrite E.
Qed.

Lemma unlinked_app (ps qs : list Path) fs :
  unlinked removable (ps ++ qs) fs
  = unlinked removable qs (unlinked removable ps fs).
Proof. apply fold_left_app. Qed.

(** What [cleanup_sample_files] comes to. *)
Lemma cleanup_sample_files_run
      (out_dir : Path) (w : World) (wavs txts : list Path) :
  glob out_dir (utf8 "sample.wav") w = (Ok wavs, w) ->
  (let w1 := {| trace := trace w;
                files := unlinked removable wavs (files w);
                stdin := stdin w |} in
   glob out_dir (utf8 "*.txt") w1 = (Ok txts, w1)) ->
  Directory.cleanup_sample_files glob removable out_dir w
  = (Ok tt,
     {| trace := trace w;
        files := unlinked removable (wavs ++ txts) (files w);
        stdin := stdin w |}).
Proof.
  intros Hwav Htxt. unfold Directory.cleanup_sample_files.
  unfold bind at 1. rewrite Hwav.
  unfold bind at 1. rewrite for_each_unlink.
  unfold bind at 1. cbv zeta in Htxt. rewrite Htxt.
  unfold bind at 1. rewrite for_each_unlink. cbn [trace files stdin].
  unfold ret. now rewrite unlinked_app.
Qed.

(** X21: [cleanup_sample_files] tries to remove every path that the
    patterns ["sample.wav"] and ["*.txt"] list in the output directory, and
    returns whether or not it could: the listed paths that the file system
    lets it remove are gone, the listed paths that it does not (a directory
    named [notes.txt], say) stay as they were, as does every path that is
    not listed; nothing is sent and nothing is read from the console. *)
Theorem cleanup_sample_files_removes
        (out_dir : Path) (w : World) (wavs txts : list Path) :
  glob out_dir (utf8 "sample.wav") w = (Ok wavs, w) ->
  (let w1 := {| trace := trace w;
                files := unlinked removable wavs (files w);
                stdin := stdin w |} in
   glob out_dir (utf8 "*.txt") w1 = (Ok txts, w1)) ->
  let run := Directory.cleanup_sample_files glob removable out_dir w in
  fst run = Ok tt
  /\ trace (snd run) = trace w
  /\ stdin (snd run) = stdin w
  /\ (forall p, In p (wavs ++ txts) -> removable p = true ->
                files (snd run) p = None)
  /\ (forall p, In p (wavs ++ txts) -> removable p = false ->
                files (snd run) p = files w p)
  /\ (forall p, ~ In p (wavs ++ txts) -> files (snd run) p = files w p).
Proof.
  intros Hwav Htxt run. subst run.
  rewrite (cleanup_sample_files_run out_dir w wavs txts Hwav Htxt).
  cbn [fst snd trace files stdin].
  split; [reflexivity|]. split; [reflexivity|]. split; [reflexivity|].
  split; [|split]; intros p Hp; try intros Hrm; rewrite unlinked_spec.
  - apply str_in_In in Hp. now rewrite Hp, Hrm.
  - now rewrite Hrm, andb_false_r.
  - destruct (str_in p (wavs ++ txts)) eqn:Hin; [|reflexivity].
    exfalso. apply Hp. apply str_in_In. exact Hin.
Qed.

Variable whisper_transcribe : Path -> Path -> option str -> M unit.
Variable find_biggest_txt : Path -> M Path.

(** X22: [main] runs [cleanup_sample_files] whenever it detects the
    language from a sample.  If the file system lets [transcript.txt] be
    removed (and the pattern ["*.txt"] lists it when it exists), the file is
    gone afterwards, so step [3/4] asks nothing and transcribes afresh: an
    existing transcript is not offered for reuse in such a run.  If the
    file cannot be removed, it stays as it was. *)
Theorem cleanup_sample_files_forgets_transcript
        (out_dir wav_path transcript_file : Path) (lang : str)
        (w : World) (wavs txts : list Path) :
  glob out_dir (utf8 "sample.wav") w = (Ok wavs, w) ->
  (let w1 := {| trace := trace w;
                files := unlinked removable wavs (files w);
                stdin := stdin w |} in
   glob out_dir (utf8 "*.txt") w1 = (Ok txts, w1)
   /\ (files w1 transcript_file <> None -> In transcript_file txts)) ->
  let cleaned :=
    snd (Directory.cleanup_sample_files glob removable out_dir w) in
  (removable transcript_file = true ->
   files cleaned transcript_file = None
   /\ transcript_stage removable whisper_transcribe find_biggest_txt
                       wav_path out_dir transcript_file lang cleaned
      = bind (whisper_transcribe wav_path out_dir (Some lang))
             (fun _ =>
                bind (find_biggest_txt out_dir)
                     (fun transcript_txt =>
                        bind (read_text_utf8 transcript_txt)
                             (fun transcript =>
                                bind (write_text_utf8 transcript_file
                                                      (PStr transcript))
                                     (fun _ => ret transcript))))
             cleaned)
  /\ (removable transcript_file = false ->
      files cleaned transcript_file = files w transcript_file).
Proof.
  intros Hwav [Htxt Hlisted] cleaned. subst cleaned.
  rewrite (cleanup_sample_files_run out_dir w wavs txts Hwav Htxt).
  cbn [snd]. split.
  - intros Hrm.
    assert (Hgone : unlinked removable (wavs ++ txts) (files w)
                             transcript_file = None).
    { rewrite unlinked_spec, Hrm, andb_true_r.
      destruct (str_in transcript_file (wavs ++ txts)) eqn:Hin;
        [reflexivity|].
      cbn [files] in Hlisted. rewrite unlinked_spec, Hrm, andb_true_r in Hlisted.
      destruct (files w transcript_file) as [old|] eqn:Hold; [|reflexivity].
      exfalso. apply Bool.not_true_iff_false in Hin. apply Hin.
      apply str_in_In. apply in_or_app.
      destruct (str_in transcript_file wavs) eqn:Hw.
      - left. now apply str_in_In.
      - right. apply Hlisted. discriminate. }
    cbn [files]. split; [exact Hgone|].
    unfold transcript_stage. unfold bind at 1, path_exists. cbn [files].
    now rewrite Hgone.
  - intros Hrm. cbn [files]. now rewrite unlinked_spec, Hrm, andb_false_r.
Qed.

Lemma for_each_stat (size : Path -> Z) (w : World) (ps : list Path) :
  (forall p, In p ps -> stat_size p w = (Ok (size p), w)) ->
  for_each ps stat_size w = (Ok (map size ps), w).
Proof.
  induction ps as [|p ps IH]; intros H; [reflexivity|].
  cbn [for_each]. unfold bind at 1. rewrite (H p (or_introl eq_refl)).
  unfold bind at 1. rewrite IH by (intros q Hq; apply H; now right).
  reflexivity.
Qed.

Lemma py_max_first_largest {A} (key : A -> Z) (rest : list A) :
  forall seen_before best seen_after,
    (forall q, In q seen_before -> key q < key best) ->
    (forall q, In q seen_after -> key q <= key best) ->
    exists pre p post,
      seen_before ++ best :: seen_after ++ rest = pre ++ p :: post
      /\ Directory.py_max (best, key best) (map (fun q => (q, key q)) rest)
         = p
      /\ (forall q, In q pre -> key q < key p)
      /\ (forall q, In q post -> key q <= key p).
Proof.
  induction rest as [|x rest IH]; intros seen_before best seen_after Hb Ha.
  - exists seen_before, best, seen_after. rewrite app_nil_r. auto.
  - cbn [map Directory.py_max fst snd].
    destruct (Z.ltb_spec (key best) (key x)) as [Hlt|Hge].
    + destruct (IH (seen_before ++ best :: seen_after) x [])
        as (pre & p & post & E & Hp & Hpre & Hpost).
      * intros q Hq. apply in_app_or in Hq as [Hq|[<-|Hq]].
        -- specialize (Hb q Hq). lia.
        -- exact Hlt.
        -- specialize (Ha q Hq). lia.
      * intros q [].
      * exists pre, p, post. split; [|auto].
        rewrite <- E. cbn [app]. rewrite <- !app_assoc. reflexivity.
    + destruct (IH seen_before best (seen_after ++ [x]))
        as (pre & p & post & E & Hp & Hpre & Hpost).
      * exact Hb.
      * intros q Hq. apply in_app_or in Hq as [Hq|[<-|[]]]; auto.
      * exists pre, p, post. split; [|auto].
        rewrite <- E. rewrite <- !app_assoc. reflexivity.
Qed.

(** X23: [find_biggest_txt] returns the first of the listed [*.txt] files
    that no other exceeds in size (every file listed before it is strictly
    smaller), exits with code 1 when none is listed, and changes nothing. *)
Theorem find_biggest_txt_first_largest
        (out_dir : Path) (w : World) (txts : list Path) (size : Path -> Z) :
  glob out_dir (utf8 "*.txt") w = (Ok txts, w) ->
  (forall p, In p txts -> stat_size p w = (Ok (size p), w)) ->
  let run := Directory.find_biggest_txt glob stat_size out_dir w in
  snd run = w
  /\ (txts = [] ->
      fst run
      = Ok (Exits (utf8 "Nie znalazłem pliku .txt po transkrypcji.") 1))
  /\ (txts <> [] ->
      exists pre p post,
        txts = pre ++ p :: post
        /\ fst run = Ok (Returns p)
        /\ (forall q, In q pre -> size q < size p)
        /\ (forall q, In q post -> size q <= size p)).
Proof.
  intros Hglob Hstat run.
  destruct txts as [|first rest].
  - assert (E : run
                = (Ok (Exits (utf8 "Nie znalazłem pliku .txt po transkrypcji.")
                             1), w)).
    { subst run. unfold Directory.find_biggest_txt, Directory.find_txts.
      unfold bind at 1. now rewrite Hglob. }
    rewrite E. split; [reflexivity|]. split; [reflexivity|]. congruence.
  - assert (Hc : combine rest (map size rest)
                 = map (fun q => (q, size q)) rest).
    { clear. induction rest as [|x rest IH]; [reflexivity|].
      cbn. now rewrite IH. }
    assert (E : run
                = (Ok (Returns
                         (Directory.py_max (first, size first)
                                           (map (fun q => (q, size q)) rest))),
                   w)).
    { subst run. unfold Directory.find_biggest_txt, Directory.find_txts.
      unfold bind at 1. rewrite Hglob.
      unfold bind at 1. rewrite (for_each_stat size w _ Hstat).
      cbn [map combine]. now rewrite Hc. }
    rewrite E. cbn [fst snd].
    split; [reflexivity|]. split; [discriminate|]. intros _.
    destruct (py_max_first_largest size rest [] first [])
      as (pre & p & post & E' & Hp & Hpre & Hpost);
      [intros q [] | intros q [] |].
    cbn [app] in E'. exists pre, p, post.
    split; [exact E'|]. split; [now rewrite Hp|]. auto.
Qed.

End DirectoryFacts.

(** ** The further properties, evaluated *)

Lemma call_llm_succeeds_after_retries_witness :
  Z.of_nat 1 < RETRIES Exact.default_config
  /\ call_llm Scenarios.busy_once Exact.default_config (utf8 "m") [] 600
              (TEMP_SUMMARY Exact.default_config) Exact.empty_world
     = (Ok (PStr (utf8 "done")),
        let p := {| model := utf8 "m"; messages := [];
                    temperature := TEMP_SUMMARY Exact.default_config;
                    max_tokens := 600 |} in
        add_events Exact.empty_world
          [Call p; Request p; Sleep (Exact.delay 1); Request p]).
Proof.
  assert (Hk : Z.of_nat 1 < RETRIES Exact.default_config) by (simpl; lia).
  split; [exact Hk|].
  refine (@call_llm_succeeds_after_retries
            Exact.runtime Scenarios.busy_once Exact.default_config
            Exact.delay (utf8 "m") [] 600
            (TEMP_SUMMARY Exact.default_config) Exact.empty_world
            1%nat (PStr (utf8 "done")) Hk _ _ eq_refl).
  - intros i Hi. assert (i = O) as -> by lia.
    exists (HTTPError 503 (utf8 "busy")). split; reflexivity.
  - apply default_delays_accepted. simpl. lia.
Defined.

Lemma summarize_parts_keeps_order_witness :
  1 <= RETRIES Exact.default_config
  /\ always_replies Exact.summarizer Exact.numbered
  /\ exists partials,
       fst (summarize_parts Exact.summarizer Exact.default_config (utf8 "m")
                            (utf8 "abc") 2 (utf8 "en") Exact.empty_world)
       = Ok (map PStr partials)
       /\ length partials = 2%nat
       /\ nth_error partials 1
          = Some (Exact.numbered 1
                    (part_payload Exact.default_config (utf8 "m") (utf8 "en")
                                  (utf8 "c"))).
Proof.
  assert (HR : 1 <= RETRIES Exact.default_config) by (simpl; lia).
  split; [exact HR|]. split; [exact summarizer_always_replies|].
  destruct (@summarize_parts_keeps_order
              Exact.runtime Exact.summarizer Exact.default_config
              Exact.numbered (utf8 "m") (utf8 "abc") 2 (utf8 "en")
              Exact.empty_world HR summarizer_always_replies
              ltac:(discriminate))
    as (partials & Hrun & Hlen & Hnth & _).
  exists partials. split; [exact Hrun|]. split; [exact Hlen|].
  exact (Hnth 1%nat (utf8 "c") eq_refl).
Defined.

Lemma summarize_parts_stops_at_failure_witness :
  1 <= RETRIES Exact.default_config
  /\ chunk_text (utf8 "abc") 2 = Ok ([utf8 "ab"] ++ utf8 "c" :: [])
  /\ ~ In 404 [429; 500; 503; 504]
  /\ summarize_parts Scenarios.missing_later Exact.default_config (utf8 "m")
                     (utf8 "abc") 2 (utf8 "en") Exact.empty_world
     = (Raise (RuntimeError (utf8 "LM Studio HTTP 404: no such model")),
        let sent := part_payload Exact.default_config (utf8 "m") (utf8 "en")
                                 (utf8 "ab") in
        let failed := part_payload Exact.default_config (utf8 "m") (utf8 "en")
                                   (utf8 "c") in
        add_events Exact.empty_world
                   [Call sent; Request sent; Call failed; Request failed]).
Proof.
  assert (HR : 1 <= RETRIES Exact.default_config) by (simpl; lia).
  assert (Hcode : ~ In 404 [429; 500; 503; 504])
    by (simpl; intuition discriminate).
  split; [exact HR|]. split; [reflexivity|]. split; [exact Hcode|].
  refine (@summarize_parts_stops_at_failure
            Exact.runtime Scenarios.missing_later Exact.default_config
            Exact.numbered (utf8 "m") (utf8 "abc") 2 (utf8 "en")
            Exact.empty_world [utf8 "ab"] (utf8 "c") []
            404 (utf8 "no such model") HR eq_refl _ eq_refl Hcode).
  intros k p Hk. assert (k = O) as -> by (simpl in Hk; lia). reflexivity.
Defined.

Lemma summarize_without_chunks_witness :
  DEFAULT_CHUNK_SIZE Exact.default_config <> 0
  /\ summarize Exact.summarizer Exact.default_config (utf8 "m") []
               (utf8 "en") Exact.empty_world
     = call_llm Exact.summarizer Exact.default_config (utf8 "m")
                (final_messages (utf8 "en") [])
                (FINAL_MAX Exact.default_config)
                (TEMP_SUMMARY Exact.default_config) Exact.empty_world.
Proof.
  assert (Hsize : DEFAULT_CHUNK_SIZE Exact.default_config <> 0)
    by discriminate.
  split; [exact Hsize|].
  exact (@summarize_without_chunks
           Exact.runtime Exact.summarizer Exact.default_config (utf8 "m") []
           (utf8 "en") Exact.empty_world (or_introl (conj eq_refl Hsize))).
Defined.

Lemma reduce_groups_bounded_witness :
  In [4; 5; 6; 7] (reduce_groups [0; 1; 2; 3; 4; 5; 6; 7; 8])
  /\ (1 <= length [4; 5; 6; 7] <= 4)%nat
  /\ Z.of_nat (length [4; 5; 6; 7]) <= group_size 9.
Proof.
  assert (Hin : In [4; 5; 6; 7] (reduce_groups [0; 1; 2; 3; 4; 5; 6; 7; 8]))
    by (right; left; reflexivity).
  split; [exact Hin|].
  exact (reduce_groups_bounded [0; 1; 2; 3; 4; 5; 6; 7; 8] [4; 5; 6; 7] Hin).
Defined.

Lemma summarize_final_two_step_needs_texts_witness :
  exists (final_summary : @PyVal Exact.runtime) w',
    summarize_final_two_step Exact.summarizer Exact.default_config (utf8 "m")
                             [PStr (utf8 "a"); PStr (utf8 "b")] (utf8 "en")
                             Exact.empty_world
    = (Ok final_summary, w')
    /\ forall partial : @PyVal Exact.runtime,
         In partial [PStr (utf8 "a"); PStr (utf8 "b")] ->
         exists s, partial = PStr s.
Proof.
  assert (HR : 1 <= RETRIES Exact.default_config) by (simpl; lia).
  pose proof (@summarize_final_two_step_run
                Exact.runtime Exact.summarizer Exact.default_config
                Exact.numbered (utf8 "m") (utf8 "en") [utf8 "a"; utf8 "b"]
                Exact.empty_world HR summarizer_always_replies) as Hrun.
  cbv zeta in Hrun. cbn [map] in Hrun.
  eexists. eexists. split; [exact Hrun|].
  exact (@summarize_final_two_step_needs_texts
           Exact.runtime Exact.summarizer Exact.default_config (utf8 "m")
           [PStr (utf8 "a"); PStr (utf8 "b")] (utf8 "en") Exact.empty_world
           _ _ Hrun).
Defined.

Lemma write_then_read_text_witness :
  existsb is_surrogate (utf8 "a" ++ [13; 10]%N ++ utf8 "b") = false
  /\ (let written :=
        snd (write_text_utf8 (utf8 "out/transcript.txt")
                             (PStr (utf8 "a" ++ [13; 10]%N ++ utf8 "b"))
                             Exact.empty_world) in
      read_text_utf8 (utf8 "out/transcript.txt") written
      = (Ok (utf8 "a" ++ [10]%N ++ utf8 "b"), written)).
Proof.
  assert (Hs : existsb is_surrogate (utf8 "a" ++ [13; 10]%N ++ utf8 "b")
               = false) by reflexivity.
  split; [exact Hs|].
  exact (proj1 (proj2 (@write_then_read_text
                         Exact.runtime (utf8 "out/transcript.txt")
                         (utf8 "a" ++ [13; 10]%N ++ utf8 "b")
                         Exact.empty_world Hs))).
Defined.

Lemma transcript_stage_rerun_same_witness :
  let stage :=
    @transcript_stage Latin.tables Exact.runtime Scenarios.removable
      Scenarios.whisper_transcribe Scenarios.find_biggest_txt
      (utf8 "out/audio.wav") (utf8 "out") (utf8 "out/transcript.txt")
      (utf8 "en") in
  let w1 := snd (stage Exact.empty_world) in
  let next := {| trace := trace w1; files := files w1;
                 stdin := [utf8 "T"] |} in
  stage Exact.empty_world = (Ok (utf8 "hello"), w1)
  /\ @accepts Latin.tables (utf8 "T") = true
  /\ stage next
     = (Ok (utf8 "hello"),
        {| trace := trace next; files := files next; stdin := [] |}).
Proof.
  intros stage w1 next.
  assert (Hrun : stage Exact.empty_world = (Ok (utf8 "hello"), w1))
    by reflexivity.
  assert (Hacc : @accepts Latin.tables (utf8 "T") = true) by reflexivity.
  split; [exact Hrun|]. split; [exact Hacc|].
  exact (@transcript_stage_rerun_same
           Latin.tables Exact.runtime Scenarios.removable
           Scenarios.whisper_transcribe Scenarios.find_biggest_txt
           (utf8 "out/audio.wav") (utf8 "out") (utf8 "out/transcript.txt")
           (utf8 "en") Exact.empty_world w1 (utf8 "hello") next (utf8 "T") []
           Hrun eq_refl eq_refl Hacc).
Defined.

Lemma summary_stage_leaves_empty_artifact_witness :
  let summary_file := utf8 "out/summary_final.txt" in
  let failed :=
    @summary_stage Latin.tables Exact.runtime Scenarios.garbled
                   Scenarios.removable
                   Exact.default_config (utf8 "m") (utf8 "hello")
                   (utf8 "en") summary_file Exact.empty_world in
  let next := {| trace := trace (snd failed);
                 files := files (snd failed);
                 stdin := [utf8 "T"] |} in
  fst (summarize Scenarios.garbled Exact.default_config (utf8 "m")
                 (utf8 "hello") (utf8 "en") Exact.empty_world)
  = Ok (PStr [55296%N])
  /\ existsb is_surrogate [55296%N] = true
  /\ fst failed = Raise UnicodeEncodeError
  /\ files (snd failed) summary_file = Some []
  /\ fst (@summary_stage Latin.tables Exact.runtime Scenarios.garbled
                         Scenarios.removable
                         Exact.default_config (utf8 "m") (utf8 "hello")
                         (utf8 "en") summary_file next)
     = Ok (PStr []).
Proof.
  intros summary_file failed next.
  assert (Hfst : fst (summarize Scenarios.garbled Exact.default_config
                                (utf8 "m") (utf8 "hello") (utf8 "en")
                                Exact.empty_world)
                 = Ok (PStr [55296%N])) by (vm_compute; reflexivity).
  assert (Hs : existsb is_surrogate [55296%N] = true) by reflexivity.
  assert (Hrun : summarize Scenarios.garbled Exact.default_config
                           (utf8 "m") (utf8 "hello") (utf8 "en")
                           Exact.empty_world
                 = (Ok (PStr [55296%N]),
                    snd (summarize Scenarios.garbled Exact.default_config
                                   (utf8 "m") (utf8 "hello") (utf8 "en")
                                   Exact.empty_world)))
    by (rewrite <- Hfst; apply surjective_pairing).
  split; [exact Hfst|]. split; [exact Hs|].
  destruct (@summary_stage_leaves_empty_artifact
              Latin.tables Exact.runtime Scenarios.garbled
              Scenarios.removable
              Exact.default_config (utf8 "m") (utf8 "hello") (utf8 "en")
              summary_file Exact.empty_world [55296%N] _ eq_refl Hrun Hs)
    as (Hfailed & Hfile & _ & Hnext).
  split; [exact Hfailed|]. split; [exact Hfile|].
  exact (Hnext next (utf8 "T") [] eq_refl eq_refl eq_refl).
Defined.

Lemma summary_stage_declined_then_failed_witness :
  let summary_file := utf8 "out/summary_final.txt" in
  let w := Scenarios.world_with summary_file (utf8 "old") [utf8 "n"] in
  let run :=
    @summary_stage Latin.tables Exact.runtime Scenarios.missing
                   Scenarios.locked
                   Exact.default_config (utf8 "m") (utf8 "hello")
                   (utf8 "en") summary_file w in
  files w summary_file = Some (utf8 "old")
  /\ @accepts Latin.tables (utf8 "n") = false
  /\ Scenarios.locked summary_file = false
  /\ fst run
     = Raise (RuntimeError (utf8 "LM Studio HTTP 404: no such model"))
  /\ files (snd run) summary_file = Some (utf8 "old").
Proof.
  intros summary_file w run.
  assert (Hfile : files w summary_file = Some (utf8 "old")) by reflexivity.
  assert (Hacc : @accepts Latin.tables (utf8 "n") = false) by reflexivity.
  pose (declined := {| trace := trace w;
                       files := if Scenarios.locked summary_file
                                then set_file (files w) summary_file None
                                else files w;
                       stdin := [] |}).
  assert (Hfst : fst (summarize Scenarios.missing Exact.default_config
                                (utf8 "m") (utf8 "hello") (utf8 "en")
                                declined)
                 = Raise (RuntimeError
                            (utf8 "LM Studio HTTP 404: no such model")))
    by (vm_compute; reflexivity).
  assert (Hrun : summarize Scenarios.missing Exact.default_config
                           (utf8 "m") (utf8 "hello") (utf8 "en") declined
                 = (Raise (RuntimeError
                             (utf8 "LM Studio HTTP 404: no such model")),
                    snd (summarize Scenarios.missing Exact.default_config
                                   (utf8 "m") (utf8 "hello") (utf8 "en")
                                   declined)))
    by (rewrite <- Hfst; apply surjective_pairing).
  destruct (@summary_stage_declined_then_failed
              Latin.tables Exact.runtime Scenarios.missing Scenarios.locked
              Exact.default_config (utf8 "m") (utf8 "hello") (utf8 "en")
              summary_file w (utf8 "old") (utf8 "n") [] _ _
              Hfile eq_refl Hacc Hrun) as [Hstage Hkept].
  split; [exact Hfile|]. split; [exact Hacc|]. split; [reflexivity|].
  fold run in Hstage. rewrite Hstage. split; [reflexivity|exact Hkept].
Defined.

Lemma translation_stage_translates_witness :
  let summary_pl_file := utf8 "out/summary_final_pl.txt" in
  let w := Scenarios.typed [utf8 "T"] in
  let payload :=
    translate_payload Exact.default_config (utf8 "m") (utf8 "Summary.") in
  1 <= RETRIES Exact.default_config
  /\ @accepts Latin.tables (utf8 "T") = true
  /\ @translation_stage Latin.tables Exact.runtime Exact.summarizer
                        Scenarios.removable
                        Exact.default_config (utf8 "m") (utf8 "Summary.")
                        (utf8 "en") summary_pl_file w
     = (Ok tt,
        {| trace := trace w ++ [Call payload; Request payload];
           files := set_file (files w) summary_pl_file
                             (Some (utf8 "summary 0"));
           stdin := [] |}).
Proof.
  intros summary_pl_file w payload.
  assert (HR : 1 <= RETRIES Exact.default_config) by (simpl; lia).
  assert (Hacc : @accepts Latin.tables (utf8 "T") = true) by reflexivity.
  split; [exact HR|]. split; [exact Hacc|].
  exact (@translation_stage_translates
           Latin.tables Exact.runtime Exact.summarizer Scenarios.removable
           Exact.default_config (utf8 "m") (utf8 "Summary.")
           summary_pl_file w (utf8 "T") [] (utf8 "summary 0")
           HR eq_refl eq_refl Hacc eq_refl eq_refl).
Defined.

Lemma choose_from_list_by_number_witness :
  let options : list (@PyVal Exact.runtime) :=
    [PStr (utf8 "qwen"); PStr (utf8 "bielik")] in
  Scenarios.py_int (@str_strip Latin.tables (utf8 " 0 ")) = Ok 0
  /\ @choose_from_list Latin.tables Exact.runtime Scenarios.py_int
                       (utf8 "Model:") options (Some (utf8 "qwen"))
                       (Scenarios.typed [utf8 " 0 "])
     = (Ok (PStr (utf8 "bielik")), Scenarios.typed []).
Proof.
  intros options.
  assert (Hint : Scenarios.py_int (@str_strip Latin.tables (utf8 " 0 "))
                 = Ok 0) by reflexivity.
  split; [exact Hint|].
  destruct (@choose_from_list_by_number
              Latin.tables Exact.runtime Scenarios.py_int
              (utf8 "Model:") options (Some (utf8 "qwen"))
              (Scenarios.typed [utf8 " 0 "]) (utf8 " 0 ") [] 0
              eq_refl ltac:(discriminate) Hint ltac:(simpl; lia))
    as (choice & Hnth & Hrun & _).
  injection Hnth as <-. exact Hrun.
Defined.

Lemma choose_from_list_fallback_witness :
  let options : list (@PyVal Exact.runtime) :=
    [PStr (utf8 "qwen"); PStr (utf8 "bielik")] in
  Scenarios.py_int (@str_strip Latin.tables (utf8 "3")) = Ok 3
  /\ @choose_from_list Latin.tables Exact.runtime Scenarios.py_int
                       (utf8 "Model:") options None
                       (Scenarios.typed [utf8 "3"])
     = (Ok (PStr (utf8 "qwen")), Scenarios.typed []).
Proof.
  intros options.
  assert (Hint : Scenarios.py_int (@str_strip Latin.tables (utf8 "3"))
                 = Ok 3) by reflexivity.
  split; [exact Hint|].
  refine (@choose_from_list_fallback
            Latin.tables Exact.runtime Scenarios.py_int
            (utf8 "Model:") options None
            (Scenarios.typed [utf8 "3"]) (utf8 "3") [] eq_refl
            (or_intror _)).
  intros idx Hidx. rewrite Hint in Hidx. injection Hidx as <-.
  simpl. lia.
Defined.

Lemma cleanup_sample_files_removes_witness :
  let w := Scenarios.world_with (utf8 "out/summary_final.txt")
                                (utf8 "old") [] in
  let run :=
    Directory.cleanup_sample_files Scenarios.glob Scenarios.removable
                                   (utf8 "out") w in
  let kept :=
    Directory.cleanup_sample_files Scenarios.glob Scenarios.locked
                                   (utf8 "out") w in
  files w (utf8 "out/summary_final.txt") = Some (utf8 "old")
  /\ fst run = Ok tt
  /\ files (snd run) (utf8 "out/summary_final.txt") = None
  /\ fst kept = Ok tt
  /\ files (snd kept) (utf8 "out/summary_final.txt") = Some (utf8 "old").
Proof.
  intros w run kept.
  destruct (@cleanup_sample_files_removes
              Exact.runtime Scenarios.glob Scenarios.removable (utf8 "out") w
              [utf8 "out/sample.wav"]
              [utf8 "out/audio.txt"; utf8 "out/transcript.txt";
               utf8 "out/summary_final.txt"]
              eq_refl eq_refl) as (Hok & _ & _ & Hgone & _).
  destruct (@cleanup_sample_files_removes
              Exact.runtime Scenarios.glob Scenarios.locked (utf8 "out") w
              [utf8 "out/sample.wav"]
              [utf8 "out/audio.txt"; utf8 "out/transcript.txt";
               utf8 "out/summary_final.txt"]
              eq_refl eq_refl) as (Hok' & _ & _ & _ & Hkept & _).
  split; [reflexivity|]. split; [exact Hok|].
  split; [apply Hgone; [simpl; auto | reflexivity]|].
  split; [exact Hok'|].
  fold kept. rewrite Hkept; [reflexivity | simpl; auto | reflexivity].
Defined.

Lemma cleanup_sample_files_forgets_transcript_witness :
  let transcript_file := utf8 "out/transcript.txt" in
  let w := Scenarios.world_with transcript_file (utf8 "old") [utf8 "T"] in
  let cleaned :=
    snd (Directory.cleanup_sample_files Scenarios.glob Scenarios.removable
                                        (utf8 "out") w) in
  files w transcript_file = Some (utf8 "old")
  /\ Scenarios.removable transcript_file = true
  /\ files cleaned transcript_file = None
  /\ fst (@transcript_stage Latin.tables Exact.runtime Scenarios.removable
            Scenarios.whisper_transcribe Scenarios.find_biggest_txt
            (utf8 "out/audio.wav") (utf8 "out") transcript_file (utf8 "en")
            cleaned)
     = Ok (utf8 "hello").
Proof.
  intros transcript_file w cleaned.
  destruct (proj1 (@cleanup_sample_files_forgets_transcript
              Latin.tables Exact.runtime Scenarios.glob Scenarios.removable
              Scenarios.whisper_transcribe Scenarios.find_biggest_txt
              (utf8 "out") (utf8 "out/audio.wav") transcript_file (utf8 "en")
              w [utf8 "out/sample.wav"]
              [utf8 "out/audio.txt"; utf8 "out/transcript.txt";
               utf8 "out/summary_final.txt"]
              eq_refl
              (conj eq_refl (fun _ => or_intror (or_introl eq_refl))))
                  eq_refl)
    as [Hgone Hstage].
  split; [reflexivity|]. split; [reflexivity|]. split; [exact Hgone|].
  fold cleaned in Hstage. rewrite Hstage. reflexivity.
Defined.

Lemma find_biggest_txt_first_largest_witness :
  let run :=
    Directory.find_biggest_txt Scenarios.glob Scenarios.stat_size
                               (utf8 "out") Exact.empty_world in
  Scenarios.st_size (utf8 "out/transcript.txt")
  = Scenarios.st_size (utf8 "out/summary_final.txt")
  /\ fst run = Ok (Returns (utf8 "out/transcript.txt")).
Proof.
  intros run.
  split; [reflexivity|].
  destruct (@find_biggest_txt_first_largest
              Exact.runtime Scenarios.glob Scenarios.stat_size
              (utf8 "out") Exact.empty_world
              [utf8 "out/audio.txt"; utf8 "out/transcript.txt";
               utf8 "out/summary_final.txt"]
              Scenarios.st_size eq_refl (fun p _ => eq_refl))
    as (_ & _ & Hmax).
  destruct (Hmax ltac:(discriminate)) as (pre & p & post & _ & Hrun & _).
  fold run in Hrun. rewrite Hrun. f_equal. f_equal.
  assert (E : fst run = Ok (Returns (utf8 "out/transcript.txt")))
    by (vm_compute; reflexivity).
  rewrite Hrun in E. now injection E.
Defined.

Lemma chunk_text_edge_sizes_witness :
  chunk_text (utf8 "hello") 0 = Raise ValueError
  /\ chunk_text (utf8 "hello") (-4000) = Ok []
  /\ chunk_text (utf8 "hello") 4000 = Ok [utf8 "hello"].
Proof.
  split; [|split].
  - exact (proj1 (chunk_text_edge_sizes (utf8 "hello") 0) eq_refl).
  - exact (proj1 (proj2 (chunk_text_edge_sizes (utf8 "hello") (-4000)))
                 eq_refl).
  - apply (proj2 (proj2 (chunk_text_edge_sizes (utf8 "hello") 4000))).
    simpl. lia.
Defined.

Lemma summarize_without_attempts_witness :
  RETRIES Scenarios.no_attempt_config < 1
  /\ fst (summarize Exact.summarizer Scenarios.no_attempt_config (utf8 "m")
                    (utf8 "hello") (utf8 "en") Exact.empty_world)
     = Raise TypeError
  /\ requests_of
       (trace (snd (summarize Exact.summarizer Scenarios.no_attempt_config
                              (utf8 "m") (utf8 "hello") (utf8 "en")
                              Exact.empty_world)))
     = [].
Proof.
  assert (HR : RETRIES Scenarios.no_attempt_config < 1) by (simpl; lia).
  split; [exact HR|].
  destruct (@summarize_without_attempts
              Exact.runtime Exact.summarizer Scenarios.no_attempt_config
              (utf8 "m") (utf8 "hello") (utf8 "en") Exact.empty_world
              HR ltac:(simpl; lia) ltac:(discriminate)) as [Hrun _].
  rewrite Hrun. split; reflexivity.
Defined.

Lemma translation_stage_declined_witness :
  let summary_pl_file := utf8 "out/summary_final_pl.txt" in
  let w := Scenarios.world_with summary_pl_file (utf8 "stare")
                                [utf8 "n"; utf8 " N "] in
  @accepts Latin.tables (utf8 "n") = false
  /\ @accepts Latin.tables (utf8 " N ") = false
  /\ @translation_stage Latin.tables Exact.runtime Exact.summarizer
                        Scenarios.removable
                        Exact.default_config (utf8 "m") (utf8 "Summary.")
                        (utf8 "en") summary_pl_file w
     = (Ok tt,
        {| trace := [];
           files := set_file (files w) summary_pl_file None;
           stdin := [] |})
  /\ @translation_stage Latin.tables Exact.runtime Exact.summarizer
                        Scenarios.locked
                        Exact.default_config (utf8 "m") (utf8 "Summary.")
                        (utf8 "en") summary_pl_file w
     = (Ok tt,
        {| trace := []; files := files w; stdin := [utf8 " N "] |}).
Proof.
  intros summary_pl_file w.
  assert (H1 : @accepts Latin.tables (utf8 "n") = false) by reflexivity.
  assert (H2 : @accepts Latin.tables (utf8 " N ") = false) by reflexivity.
  split; [exact H1|]. split; [exact H2|]. split.
  - exact (proj1 (proj2 (proj2 (@translation_stage_declined
                           Latin.tables Exact.runtime Exact.summarizer
                           Scenarios.removable
                           Exact.default_config (utf8 "m") (utf8 "Summary.")
                           (utf8 "en") summary_pl_file w)))
                 (utf8 "stare") (utf8 "n") (utf8 " N ") []
                 eq_refl eq_refl eq_refl eq_refl H1 H2).
  - exact (proj2 (proj2 (proj2 (@translation_stage_declined
                           Latin.tables Exact.runtime Exact.summarizer
                           Scenarios.locked
                           Exact.default_config (utf8 "m") (utf8 "Summary.")
                           (utf8 "en") summary_pl_file w)))
                 (utf8 "stare") (utf8 "n") [utf8 " N "]
                 eq_refl eq_refl eq_refl eq_refl H1).
Defined.

Lemma get_models_accepts_witness :
  @get_models Exact.runtime
    (Ok (PDict [(utf8 "object", PStr (utf8 "list"));
                (utf8 "data",
                 PList [PDict [(utf8 "id", PStr (utf8 "qwen"))];
                        PDict [(utf8 "id", PStr (utf8 "bielik"))]])]))
  = Returns [PStr (utf8 "qwen"); PStr (utf8 "bielik")]
  /\ @get_models Exact.runtime (Ok (PDict [(utf8 "data", PStr [])]))
     = Returns [].
Proof.
  split.
  - apply (proj1 (@get_models_accepts Exact.runtime _ _)).
    eexists. split; [reflexivity|]. cbn.
    repeat constructor; eexists; split; reflexivity.
  - apply (proj1 (@get_models_accepts Exact.runtime _ _)).
    eexists. split; reflexivity.
Defined.
